(** * open-moniker-svc: moniker grammar, ownership merge and version dialects

    A shallow embedding of
      - [moniker/types.py]   (MonikerPath, QueryParams, Moniker, [__str__]),
      - [moniker/parser.py]  (validate_segment, validate_namespace, parse_path,
                              parse_moniker, normalize_moniker, build_moniker),
      - [catalog/types.py]   (Ownership and its predicates, the display name
                              of a CatalogNode),
      - [dialect/*.py]       (Snowflake, Oracle and REST lookback translation),
      - [start.py]           (parse_host),
    followed by the properties of the specification that concern them and by
    further properties of the same code.

    Python values are modelled as follows.
      - [str] is [string]: one [ascii] per code point, so the development covers
        text in the ISO-8859-1 range (every character the grammar accepts is
        ASCII).
      - [int] is [Z]; [x | None] is [option x]; a [dict] is an association list
        in insertion order; a [tuple] of strings is a [list string].
      - a call that may raise returns [result]: [Ok v] or [Raise e].
      - a conversion between [int] and [str] raises [ValueError] beyond
        4300 decimal digits, the limit the interpreter starts with
        ([sys.get_int_max_str_digits()]).
      - of the libraries, [str], [re], [urllib.parse] and [datetime] are
        written out as far as the sources use them; percent-decoding, the
        check of a bracketed host, the clock and [dateutil.relativedelta] are
        interfaces ([Url.UrlLib], [Datetime.DateLib]). *)

From Stdlib Require Import ZArith List Bool Ascii String Lia.
From Stdlib Require Import DecimalString DecimalZ DecimalN DecimalPos.
From Stdlib Require DecimalFacts.
Import ListNotations.

Open Scope string_scope.
Open Scope Z_scope.

(* ===================================================================== *)
(** ** Python built-ins used by the sources *)
(* ===================================================================== *)

Module Py.

(** Exceptions.  [MonikerParseError] (parser.py, a subclass of [ValueError])
    carries its message; [ValueError] is the plain one raised by the standard
    library, [OverflowError] the one raised by [datetime] arithmetic. *)
Inductive exn : Type :=
| MonikerParseError (msg : string)
| ValueError
| OverflowError.

Inductive result (A : Type) : Type :=
| Ok (v : A)
| Raise (e : exn).
Arguments Ok {A} v.
Arguments Raise {A} e.

Definition bind {A B : Type} (r : result A) (k : A -> result B) : result B :=
  match r with
  | Ok v => k v
  | Raise e => Raise e
  end.

Notation "'let*' x ':=' r 'in' k" := (bind r (fun x => k))
  (at level 10, x pattern, r at level 100, k at level 200).

Definition is_ok {A : Type} (r : result A) : bool :=
  match r with Ok _ => true | Raise _ => false end.

(** [isinstance(e, MonikerParseError)]. *)
Definition is_parse_error {A : Type} (r : result A) : bool :=
  match r with Raise (MonikerParseError _) => true | _ => false end.

(** *** Characters *)

Definition code (c : ascii) : N := N_of_ascii c.

Definition in_range (lo hi : N) (c : ascii) : bool :=
  (lo <=? code c)%N && (code c <=? hi)%N.

(** [0-9], [a-z], [A-Z] as the regular expressions of parser.py spell them. *)
Definition is_digit (c : ascii) : bool := in_range 48 57 c.
Definition is_lower (c : ascii) : bool := in_range 97 122 c.
Definition is_upper (c : ascii) : bool := in_range 65 90 c.
Definition is_alpha (c : ascii) : bool := is_lower c || is_upper c.
Definition is_alnum (c : ascii) : bool := is_alpha c || is_digit c.

(** [str.isspace] on one character: TAB LF VT FF CR, FS GS RS US, SPACE,
    NEL (0x85) and NBSP (0xA0). *)
Definition is_space (c : ascii) : bool :=
  in_range 9 13 c || in_range 28 32 c || (code c =? 133)%N || (code c =? 160)%N.

Definition LF : ascii := ascii_of_N 10.
Definition CR : ascii := ascii_of_N 13.
Definition TAB : ascii := ascii_of_N 9.

(** *** Strings *)

Definition len (s : string) : Z := Z.of_nat (String.length s).

(** Truthiness of a [str]: non-empty. *)
Definition truthy (s : string) : bool :=
  match s with "" => false | _ => true end.

(** Truthiness of a [str | None]. *)
Definition truthy_opt (o : option string) : bool :=
  match o with Some s => truthy s | None => false end.

(** [a or b] on [str | None] values. *)
Definition or_else (a b : option string) : option string :=
  if truthy_opt a then a else b.

(** [s.startswith(pre)]. *)
Fixpoint startswith (s pre : string) {struct pre} : bool :=
  match pre, s with
  | "", _ => true
  | String _ _, "" => false
  | String a pre', String b s' => Ascii.eqb a b && startswith s' pre'
  end.

(** [s.find(sub)]: index of the first occurrence, [-1] when there is none. *)
Fixpoint find (sub s : string) {struct s} : Z :=
  if startswith s sub then 0
  else match s with
       | "" => -1
       | String _ s' => let i := find sub s' in if i <? 0 then -1 else i + 1
       end.

(** [s.rfind(sub)]: index of the last occurrence, [-1] when there is none. *)
Fixpoint rfind (sub s : string) {struct s} : Z :=
  match s with
  | "" => if startswith "" sub then 0 else -1
  | String _ s' =>
      let i := rfind sub s' in
      if 0 <=? i then i + 1
      else if startswith s sub then 0 else -1
  end.

(** [sub in s]. *)
Definition contains (sub s : string) : bool := 0 <=? find sub s.

Fixpoint take (n : nat) (s : string) : string :=
  match n, s with
  | O, _ => ""
  | S _, "" => ""
  | S n', String c s' => String c (take n' s')
  end.

Fixpoint drop (n : nat) (s : string) : string :=
  match n, s with
  | O, _ => s
  | S _, "" => ""
  | S n', String _ s' => drop n' s'
  end.

(** A slice bound as Python clamps it: negative bounds count from the end. *)
Definition clamp (i : Z) (s : string) : nat :=
  Z.to_nat (if i <? 0 then Z.max 0 (len s + i) else Z.min i (len s)).

(** [s[:i]] and [s[i:]]. *)
Definition slice_to (s : string) (i : Z) : string := take (clamp i s) s.
Definition slice_from (s : string) (i : Z) : string := drop (clamp i s) s.

(** [s[i:j]]. *)
Definition slice_between (s : string) (i j : Z) : string :=
  take (clamp j s - clamp i s) (drop (clamp i s) s).

(** [s.split(sep, 1)] for a non-empty [sep]. *)
Definition split1 (sep s : string) : list string :=
  let i := find sep s in
  if i <? 0 then [s] else [slice_to s i; slice_from s (i + len sep)].

(** [s.rsplit(sep, 1)] for a non-empty [sep]. *)
Definition rsplit1 (sep s : string) : list string :=
  let i := rfind sep s in
  if i <? 0 then [s] else [slice_to s i; slice_from s (i + len sep)].

(** [s.split(c)] for a one-character separator. *)
Fixpoint split (c : ascii) (s : string) : list string :=
  match s with
  | "" => [""]
  | String a s' =>
      if Ascii.eqb a c then "" :: split c s'
      else match split c s' with
           | [] => [String a ""]
           | w :: ws => String a w :: ws
           end
  end.

(** [sep.join(parts)]. *)
Definition join (sep : string) (parts : list string) : string :=
  String.concat sep parts.

Fixpoint lstrip (p : ascii -> bool) (s : string) : string :=
  match s with
  | "" => ""
  | String c s' => if p c then lstrip p s' else s
  end.

Fixpoint rstrip (p : ascii -> bool) (s : string) : string :=
  match s with
  | "" => ""
  | String c s' =>
      match rstrip p s' with
      | "" => if p c then "" else String c ""
      | r => String c r
      end
  end.

(** [s.strip()] removes white space, [s.strip("/")] the given character. *)
Definition strip_by (p : ascii -> bool) (s : string) : string :=
  rstrip p (lstrip p s).
Definition strip (s : string) : string := strip_by is_space s.
Definition strip_char (c : ascii) (s : string) : string := strip_by (Ascii.eqb c) s.

(** [s.replace(c, "")] and [s.replace(c, d)] for single characters. *)
Fixpoint remove_chars (p : ascii -> bool) (s : string) : string :=
  match s with
  | "" => ""
  | String c s' => if p c then remove_chars p s' else String c (remove_chars p s')
  end.

Fixpoint replace_char (c d : ascii) (s : string) : string :=
  match s with
  | "" => ""
  | String a s' => String (if Ascii.eqb a c then d else a) (replace_char c d s')
  end.

Fixpoint all_chars (p : ascii -> bool) (s : string) : bool :=
  match s with
  | "" => true
  | String c s' => p c && all_chars p s'
  end.

Definition has_char (c : ascii) (s : string) : bool :=
  negb (all_chars (fun a => negb (Ascii.eqb a c)) s).

(** *** Integers and text *)

(** The decimal text of an integer, and the number that a run of decimal
    digits denotes. *)
Definition decimal_text (n : Z) : string := NilZero.string_of_int (Z.to_int n).

Definition decimal_value (s : string) : Z :=
  match NilZero.uint_of_string s with
  | Some u => Z.of_uint u
  | None => 0
  end.

(** [sys.get_int_max_str_digits()], as the interpreter starts. *)
Definition MAX_STR_DIGITS : Z := 4300.

(** [str(n)], also what an f-string prints for an [int]: [ValueError] when
    [n], its sign apart, has more than [MAX_STR_DIGITS] digits. *)
Definition str_of_int (n : Z) : result string :=
  if MAX_STR_DIGITS <? len (decimal_text (Z.abs n)) then Raise ValueError
  else Ok (decimal_text n).

(** [int(s)] for a string of decimal digits (the use in parser.py: a group
    matched by [\d+]): [ValueError] for more than [MAX_STR_DIGITS] digits,
    leading zeros counted. *)
Definition int_of_digits (s : string) : result Z :=
  if MAX_STR_DIGITS <? len s then Raise ValueError
  else Ok (decimal_value s).

(** [str.upper] on one character.  Within ISO-8859-1 the letters a-z and the
    accented letters 0xE0-0xFE (but the division sign 0xF7) move down by 32;
    sharp s (0xDF) becomes "SS".  The upper-case forms of 0xB5 and 0xFF lie
    outside ISO-8859-1 and are kept as they are here: they are not ASCII, which
    is all the callers below test. *)
Definition upper_char (c : ascii) : string :=
  if is_lower c || (in_range 224 254 c && negb (code c =? 247)%N)
  then String (ascii_of_N (code c - 32)) ""
  else if (code c =? 223)%N then "SS"
  else String c "".

Fixpoint upper (s : string) : string :=
  match s with
  | "" => ""
  | String c s' => upper_char c ++ upper s'
  end.

(** [int(s)] for any text: white space around, an optional sign, then
    decimal digits, where single underscores may separate digits; anything
    else raises [ValueError], and so do more than [MAX_STR_DIGITS] digits.
    Of the white space of ISO-8859-1, the conversion skips TAB, LF, VT, FF,
    CR, SPACE, NEL and NBSP. *)
Definition int_space (c : ascii) : bool :=
  in_range 9 13 c || (code c =? 32)%N || (code c =? 133)%N || (code c =? 160)%N.

(** Digits with single underscores between them: [after_digit] tells
    whether the previous character was a digit. *)
Fixpoint digits_with_underscores (after_digit : bool) (s : string) : bool :=
  match s with
  | "" => after_digit
  | String c s' =>
      if is_digit c then digits_with_underscores true s'
      else if Ascii.eqb c "_" then after_digit && digits_with_underscores false s'
      else false
  end.

Definition int_of_str (s : string) : result Z :=
  let t := strip_by int_space s in
  let (negative, body) :=
    match t with
    | String c r =>
        if Ascii.eqb c "-" then (true, r)
        else if Ascii.eqb c "+" then (false, r)
        else (false, t)
    | "" => (false, t)
    end in
  if digits_with_underscores false body then
    let* n := int_of_digits (remove_chars (Ascii.eqb "_") body) in
    Ok (if negative then - n else n)
  else Raise ValueError.

(** [str.isdigit]: within ISO-8859-1 the digits 0-9 and the superscripts
    two, three and one. *)
Definition isdigit_char (c : ascii) : bool :=
  is_digit c || (code c =? 178)%N || (code c =? 179)%N || (code c =? 185)%N.

Definition isdigit (s : string) : bool := truthy s && all_chars isdigit_char s.

End Py.

Import Py.

(* ===================================================================== *)
(** ** urllib.parse, as parser.py calls it *)
(* ===================================================================== *)

Module Url.

(** Two pieces of [urllib.parse] are taken as an interface rather than
    written out:
      - [unquote], the percent-decoding of one name or value (it decodes the
        escaped bytes as UTF-8, replacing what is not UTF-8);
      - [check_bracketed_netloc], which validates a network location holding
        both [[] and []] as an IPv6 or IPvFuture host and says whether it is
        accepted. *)
Class UrlLib : Type := {
  unquote : string -> string;
  check_bracketed_netloc : string -> bool
}.

(** What the development relies on: [unquote] returns a text without [%]
    unchanged (its first statement). *)
Class UrlLibLaws (U : UrlLib) : Prop := {
  unquote_plain : forall s : string, has_char "%" s = false -> unquote s = s
}.

Record ParseResult : Type := {
  netloc : string;
  path : string;
  query : string;
  fragment : string
}.

(** The longest prefix whose characters fail [p], and what follows it. *)
Fixpoint break (p : ascii -> bool) (s : string) : string * string :=
  match s with
  | "" => ("", "")
  | String c s' =>
      if p c then ("", s)
      else let (a, b) := break p s' in (String c a, b)
  end.

Definition scheme_char (c : ascii) : bool :=
  is_alnum c || Ascii.eqb c "+" || Ascii.eqb c "-" || Ascii.eqb c ".".

Definition netloc_end (c : ascii) : bool :=
  Ascii.eqb c "/" || Ascii.eqb c "?" || Ascii.eqb c "#".

Definition unsafe_url_char (c : ascii) : bool :=
  Ascii.eqb c TAB || Ascii.eqb c CR || Ascii.eqb c LF.

(** The C0 control characters and the space, which [urlsplit] strips on the
    left. *)
Definition c0_or_space (c : ascii) : bool := (code c <=? 32)%N.

Section WithUrlLib.
Context {U : UrlLib}.

(** [url, rest = url.split(sep, 1)] when [sep] occurs in [url]. *)
Definition split_at (sep url : string) : string * string :=
  match split1 sep url with
  | [u; rest] => (u, rest)
  | _ => (url, "")
  end.

(** The scheme and its colon are taken off when the text before the first
    colon is a scheme name. *)
Definition drop_scheme (url : string) : string :=
  let i := find ":" url in
  if (0 <? i)
     && match url with String c _ => is_alpha c | "" => false end
     && all_chars scheme_char (slice_to url i)
  then slice_from url (i + 1) else url.

(** The network location after [//], with the check of its brackets. *)
Definition split_netloc (url : string) : result (string * string) :=
  if startswith url "//" then
    let (netloc, url) := break netloc_end (slice_from url 2) in
    if (has_char "[" netloc && negb (has_char "]" netloc))
       || (has_char "]" netloc && negb (has_char "[" netloc))
    then Raise ValueError
    else if has_char "[" netloc && has_char "]" netloc
            && negb (check_bracketed_netloc netloc)
    then Raise ValueError
    else Ok (netloc, url)
  else Ok ("", url).

(** [urlparse(url)] for a scheme that takes no [;parameters]: [urlsplit].
    The NFKC check of the network location never fires on ISO-8859-1 text
    and is left out. *)
Definition urlparse (url : string) : result ParseResult :=
  let url := lstrip c0_or_space url in
  let url := remove_chars unsafe_url_char url in
  let url := drop_scheme url in
  let* (netloc, url) := split_netloc url in
  let (url, fragment) := split_at "#" url in
  let (url, query) := split_at "?" url in
  Ok {| netloc := netloc; path := url; query := query; fragment := fragment |}.

(** One [name=value] field of a query, as [parse_qsl] reads it with
    [keep_blank_values=True]. *)
Definition parse_field (name_value : string) : string * string :=
  let (name, value) := split_at "=" name_value in
  (unquote (replace_char "+" " " name), unquote (replace_char "+" " " value)).

Definition parse_qsl (qs : string) : list (string * string) :=
  if negb (truthy qs) then []
  else map parse_field (filter truthy (split "&" qs)).

(** [parsed_result[name].append(value)] or [parsed_result[name] = [value]]. *)
Fixpoint add_value (name value : string) (d : list (string * list string))
  : list (string * list string) :=
  match d with
  | [] => [(name, [value])]
  | (k, vs) :: d' =>
      if String.eqb k name then (k, (vs ++ [value])%list) :: d'
      else (k, vs) :: add_value name value d'
  end.

(** [parse_qs(qs, keep_blank_values=True)]: every name with the list of its
    values, names in the order of their first occurrence. *)
Definition parse_qs (qs : string) : list (string * list string) :=
  fold_left (fun d nv => add_value (fst nv) (snd nv) d) (parse_qsl qs) [].

End WithUrlLib.

(** A decoder for escapes of ASCII characters, for running the model: it
    decodes [%XX] when [XX] is below 0x80 and keeps any other [%] as it is. *)
Definition hex_val (c : ascii) : option N :=
  if is_digit c then Some (code c - 48)%N
  else if in_range 97 102 c then Some (code c - 87)%N
  else if in_range 65 70 c then Some (code c - 55)%N
  else None.

Fixpoint unquote_ascii (s : string) : string :=
  match s with
  | "" => ""
  | String c s' =>
      let keep := String c (unquote_ascii s') in
      if Ascii.eqb c "%" then
        match s' with
        | String h (String l s'') =>
            match hex_val h, hex_val l with
            | Some a, Some b =>
                if (a <? 8)%N
                then String (ascii_of_N (16 * a + b)) (unquote_ascii s'')
                else keep
            | _, _ => keep
            end
        | _ => keep
        end
      else keep
  end.

(** The library instance used to run the model on concrete inputs. *)
Definition ascii_urllib : UrlLib :=
  {| unquote := unquote_ascii; check_bracketed_netloc := fun _ => true |}.

End Url.

(* ===================================================================== *)
(** ** moniker/types.py *)
(* ===================================================================== *)

Module Types.

(** [MonikerPath]: a tuple of segments; the empty tuple is the root. *)
Record MonikerPath : Type := { segments : list string }.

(** [MonikerPath.__str__]. *)
Definition path_str (p : MonikerPath) : string := join "/" (segments p).

(** [MonikerPath.root()]. *)
Definition root : MonikerPath := {| segments := [] |}.

(** [MonikerPath.__len__] and [__bool__]. *)
Definition path_len (p : MonikerPath) : Z := Z.of_nat (List.length (segments p)).
Definition path_bool (p : MonikerPath) : bool := 0 <? path_len p.

(** [MonikerPath.domain]: the first segment. *)
Definition domain (p : MonikerPath) : option string :=
  match segments p with
  | s :: _ => Some s
  | [] => None
  end.

(** [MonikerPath.parent]: [None] for a path of at most one segment. *)
Definition parent (p : MonikerPath) : option MonikerPath :=
  if path_len p <=? 1 then None
  else Some {| segments := removelast (segments p) |}.

(** [MonikerPath.leaf]: the last segment. *)
Definition leaf (p : MonikerPath) : option string :=
  match segments p with
  | [] => None
  | _ :: _ => Some (List.last (segments p) "")
  end.

(** [MonikerPath.ancestors]: [segments[:i]] for [i] in [range(1, len)]. *)
Definition ancestors (p : MonikerPath) : list MonikerPath :=
  map (fun i => {| segments := firstn i (segments p) |})
      (seq 1 (List.length (segments p) - 1)).

(** [MonikerPath.child]. *)
Definition child (p : MonikerPath) (segment : string) : MonikerPath :=
  {| segments := (segments p ++ [segment])%list |}.

(** [==] on tuples of strings. *)
Definition segments_eqb (a b : list string) : bool :=
  if list_eq_dec string_dec a b then true else false.

(** [MonikerPath.is_ancestor_of] and [is_descendant_of]. *)
Definition is_ancestor_of (self other : MonikerPath) : bool :=
  if path_len other <=? path_len self then false
  else segments_eqb (firstn (List.length (segments self)) (segments other))
                    (segments self).

Definition is_descendant_of (self other : MonikerPath) : bool :=
  is_ancestor_of other self.

(** [MonikerPath.from_string]: empty pieces are dropped. *)
Definition from_string (path_str : string) : MonikerPath :=
  if negb (truthy path_str) || String.eqb path_str "/" then root
  else {| segments := filter truthy (split "/" (strip_char "/" path_str)) |}.

(** [QueryParams.params]: a [dict] from key to value, in insertion order. *)
Definition QueryParams : Type := list (string * string).

(** [QueryParams.get(key, default)] and [key in params]. *)
Fixpoint dict_get (key : string) (d : QueryParams) : option string :=
  match d with
  | [] => None
  | (k, v) :: d' => if String.eqb k key then Some v else dict_get key d'
  end.

Definition params_get (d : QueryParams) (key : string) (default : option string)
  : option string :=
  match dict_get key d with
  | Some v => Some v
  | None => default
  end.

Definition params_contains (d : QueryParams) (key : string) : bool :=
  match dict_get key d with Some _ => true | None => false end.

(** [params[key] = value]. *)
Fixpoint dict_set (key value : string) (d : QueryParams) : QueryParams :=
  match d with
  | [] => [(key, value)]
  | (k, v) :: d' =>
      if String.eqb k key then (k, value) :: d'
      else (k, v) :: dict_set key value d'
  end.

Record Moniker : Type := {
  path : MonikerPath;
  namespace : option string;
  version : option string;
  revision : option Z;
  params : QueryParams
}.

(** [f"/v{self.revision}"] when there is a revision. *)
Definition revision_part (revision : option Z) : result (list string) :=
  match revision with
  | Some r => let* text := str_of_int r in Ok ["/v" ++ text]
  | None => Ok []
  end.

(** [Moniker.__str__]. *)
Definition moniker_str (m : Moniker) : result string :=
  let namespace_part : list string :=
    match namespace m with
    | Some n => if truthy n then [n ++ "@"] else []
    | None => []
    end in
  let version_part : list string :=
    match version m with
    | Some v => if truthy v then ["@" ++ v] else []
    | None => []
    end in
  let* revision_part := revision_part (revision m) in
  let parts : list string :=
    app namespace_part (app [path_str (path m)] (app version_part revision_part)) in
  let base := join "" parts in
  match params m with
  | _ :: _ =>
      let param_str :=
        join "&" (map (fun kv => fst kv ++ "=" ++ snd kv) (params m)) in
      Ok ("moniker://" ++ base ++ "?" ++ param_str)
  | [] => Ok ("moniker://" ++ base)
  end.

(** [Moniker.domain] and [Moniker.canonical_path]. *)
Definition moniker_domain (m : Moniker) : option string := domain (path m).



Definition is_latest (m : Moniker) : bool :=
  match version m with Some v => String.eqb v "latest" | None => false end.

Definition version_date (m : Moniker) : option string :=
  match version m with
  | Some v => if truthy v && isdigit v && (len v =? 8) then Some v else None
  | None => None
  end.



End Types.

(* ===================================================================== *)
(** ** moniker/parser.py *)
(* ===================================================================== *)

Module Parser.
Import Types.

(** *** The regular expressions *)

(** [$] without [re.MULTILINE]: the end of the string, or just before a
    line feed that ends the string. *)
Definition at_dollar (s : string) : bool :=
  match s with
  | "" => true
  | String c "" => Ascii.eqb c LF
  | _ => false
  end.

(** [[cls]*$], anchored at the start of [s]. *)
Fixpoint star_dollar (cls : ascii -> bool) (s : string) : bool :=
  at_dollar s
  || match s with
     | "" => false
     | String c s' => cls c && star_dollar cls s'
     end.

Definition segment_rest (c : ascii) : bool :=
  is_alnum c || Ascii.eqb c "_" || Ascii.eqb c "." || Ascii.eqb c "-".

Definition namespace_rest (c : ascii) : bool :=
  is_alnum c || Ascii.eqb c "_" || Ascii.eqb c "-".

(** [SEGMENT_PATTERN.match(s)] for [^[a-zA-Z0-9][a-zA-Z0-9_.\-]*$]. *)
Definition SEGMENT_PATTERN (s : string) : bool :=
  match s with
  | "" => false
  | String c s' => is_alnum c && star_dollar segment_rest s'
  end.

(** [NAMESPACE_PATTERN.match(s)] for [^[a-zA-Z][a-zA-Z0-9_\-]*$]. *)
Definition NAMESPACE_PATTERN (s : string) : bool :=
  match s with
  | "" => false
  | String c s' => is_alpha c && star_dollar namespace_rest s'
  end.

(** [VERSION_PATTERN.match(s)] for [^[a-zA-Z0-9]+$]. *)
Definition VERSION_PATTERN (s : string) : bool :=
  match s with
  | "" => false
  | String c s' => is_alnum c && star_dollar is_alnum s'
  end.

(** The longest prefix whose characters satisfy [p], and what follows it. *)
Fixpoint span (p : ascii -> bool) (s : string) : string * string :=
  match s with
  | "" => ("", "")
  | String c s' =>
      if p c then let (a, b) := span p s' in (String c a, b)
      else ("", s)
  end.

(** [re.match(r"^(\d+)(?:$|(?=\?))", s)]: group 1 when it matches.  The
    greedy [\d+] takes the whole run of digits; giving one back leaves the
    position before a digit, where neither alternative holds. *)
Definition revision_match (s : string) : option string :=
  let (digits, rest) := span is_digit s in
  if truthy digits && (at_dollar rest || startswith rest "?")
  then Some digits else None.

(** *** Validation *)

Definition validate_segment (segment : string) : bool :=
  if negb (truthy segment) then false
  else if 128 <? len segment then false
  else SEGMENT_PATTERN segment.

Definition validate_namespace (namespace : string) : bool :=
  if negb (truthy namespace) then false
  else if 64 <? len namespace then false
  else NAMESPACE_PATTERN namespace.

Definition invalid_segment_msg (seg : string) : string :=
  "Invalid path segment: '" ++ seg ++ "'. "
  ++ "Segments must start with alphanumeric and contain only "
  ++ "alphanumerics, hyphens, underscores, or dots.".

Definition invalid_namespace_msg (namespace : string) : string :=
  "Invalid namespace: '" ++ namespace ++ "'. "
  ++ "Namespace must start with a letter and contain only "
  ++ "alphanumerics, hyphens, or underscores.".

Definition invalid_version_msg (version : string) : string :=
  "Invalid version: '" ++ version ++ "'. "
  ++ "Version must be alphanumeric (e.g., 'latest', '20260115').".

Definition invalid_scheme_msg (moniker_str : string) : string :=
  "Invalid scheme. Expected 'moniker://' or no scheme, got: " ++ moniker_str.

Definition empty_moniker_msg : string := "Empty moniker string".

(** The loop of [parse_path] over the segments: the first one that fails
    [validate_segment] raises. *)
Fixpoint check_segments (segs : list string) : result unit :=
  match segs with
  | [] => Ok tt
  | seg :: segs' =>
      if negb (validate_segment seg)
      then Raise (MonikerParseError (invalid_segment_msg seg))
      else check_segments segs'
  end.

Definition parse_path (path_str : string) (validate : bool) : result MonikerPath :=
  if negb (truthy path_str) || String.eqb path_str "/" then Ok root
  else
    let clean := strip_char "/" path_str in
    if negb (truthy clean) then Ok root
    else
      let segs := split "/" clean in
      let* _ := (if validate then check_segments segs else Ok tt) in
      Ok {| segments := segs |}.

Section WithUrlLib.
Context {U : Url.UrlLib}.

(** Step "Handle scheme": the body and the query string. *)
Definition split_scheme (moniker_str : string) : result (string * string) :=
  if startswith moniker_str "moniker://" then
    let* parsed := Url.urlparse moniker_str in
    Ok (Url.netloc parsed ++ Url.path parsed, Url.query parsed)
  else if contains "://" moniker_str then
    Raise (MonikerParseError (invalid_scheme_msg moniker_str))
  else if contains "?" moniker_str then
    match split1 "?" moniker_str with
    | [body; query_str] => Ok (body, query_str)
    | _ => Raise ValueError
    end
  else Ok (moniker_str, "").

(** Step "Parse namespace": the namespace and the remaining text. *)
Definition split_namespace (body : string) (validate : bool)
  : result (option string * string) :=
  let first_at := find "@" body in
  let first_slash := find "/" body in
  if negb (first_at =? -1) && ((first_slash =? -1) || (first_at <? first_slash))
  then
    let namespace := slice_to body first_at in
    let remaining := slice_from body (first_at + 1) in
    if validate && negb (validate_namespace namespace)
    then Raise (MonikerParseError (invalid_namespace_msg namespace))
    else Ok (Some namespace, remaining)
  else Ok (None, body).

(** Step "Parse revision suffix": the revision and the remaining text. *)
Definition split_revision (remaining : string) : result (option Z * string) :=
  if contains "/v" remaining then
    match rsplit1 "/v" remaining with
    | [before; potential_rev] =>
        match revision_match potential_rev with
        | Some digits =>
            let* revision := int_of_digits digits in
            Ok (Some revision, before)
        | None => Ok (None, remaining)
        end
    | _ => Ok (None, remaining)
    end
  else Ok (None, remaining).

(** Step "Parse version suffix": the version and the remaining text. *)
Definition split_version (remaining : string) (validate : bool)
  : result (option string * string) :=
  if contains "@" remaining then
    let last_slash_idx := rfind "/" remaining in
    let at_idx := rfind "@" remaining in
    if last_slash_idx <? at_idx then
      let version := slice_from remaining (at_idx + 1) in
      let remaining := slice_to remaining at_idx in
      if validate && truthy version && negb (VERSION_PATTERN version)
      then Raise (MonikerParseError (invalid_version_msg version))
      else Ok (Some version, remaining)
    else Ok (None, remaining)
  else Ok (None, remaining).

(** Step "Parse query params": the first value of every name. *)
Definition parse_params (query_str : string) : QueryParams :=
  if truthy query_str then
    fold_left
      (fun params kvs =>
         match snd kvs with
         | v :: _ => dict_set (fst kvs) v params
         | [] => params
         end)
      (Url.parse_qs query_str) []
  else [].

(** Everything after the namespace step: revision, version, path, query. *)
Definition parse_tail (namespace : option string) (remaining query_str : string)
    (validate : bool) : result Moniker :=
  let* (revision, remaining) := split_revision remaining in
  let* (version, remaining) := split_version remaining validate in
  let* path := parse_path remaining validate in
  let params := parse_params query_str in
  Ok {| path := path; namespace := namespace; version := version;
        revision := revision; params := params |}.

(** Everything after the scheme step. *)
Definition parse_body (body query_str : string) (validate : bool) : result Moniker :=
  let* (namespace, remaining) := split_namespace body validate in
  parse_tail namespace remaining query_str validate.

Definition parse_moniker (moniker_str : string) (validate : bool) : result Moniker :=
  if negb (truthy moniker_str)
  then Raise (MonikerParseError empty_moniker_msg)
  else
    let moniker_str := strip moniker_str in
    let* (body, query_str) := split_scheme moniker_str in
    parse_body body query_str validate.

Definition normalize_moniker (moniker_str : string) : result string :=
  let* m := parse_moniker moniker_str true in
  Types.moniker_str m.

End WithUrlLib.

(** The names that a call binds to the parameters of [build_moniker]
    themselves. *)
Definition named_parameters : list string :=
  ["path"; "namespace"; "version"; "revision"].

(** What [**params] can hold in a call: keyword arguments under names other
    than those of the parameters, and, being a [dict], no name twice. *)
Fixpoint keyword_params (params : QueryParams) : bool :=
  match params with
  | [] => true
  | (k, _) :: params' =>
      negb (existsb (String.eqb k) named_parameters)
      && negb (existsb (String.eqb k) (map fst params'))
      && keyword_params params'
  end.

(** [build_moniker(path, namespace=..., version=..., revision=..., **params)]:
    the body of the function.  [params] is the dict that [**params] collects;
    [keyword_params] holds of it in every call. *)
Definition build_moniker (path : string) (namespace version : option string)
    (revision : option Z) (params : QueryParams) : result Moniker :=
  let* p := parse_path path true in
  Ok {| Types.path := p; Types.namespace := namespace; Types.version := version;
        Types.revision := revision;
        Types.params := match params with _ :: _ => params | [] => [] end |}.

End Parser.

(* ===================================================================== *)
(** ** catalog/types.py *)
(* ===================================================================== *)

Module Catalog.

Record Ownership : Type := {
  accountable_owner : option string;
  data_specialist : option string;
  support_channel : option string;
  adop : option string;
  ads : option string;
  adal : option string
}.

(** [Ownership.merge_with_parent]. *)
Definition merge_with_parent (self parent : Ownership) : Ownership :=
  {| accountable_owner := or_else (accountable_owner self) (accountable_owner parent);
     data_specialist := or_else (data_specialist self) (data_specialist parent);
     support_channel := or_else (support_channel self) (support_channel parent);
     adop := or_else (adop self) (adop parent);
     ads := or_else (ads self) (ads parent);
     adal := or_else (adal self) (adal parent) |}.

(** [Ownership.is_empty]. *)
Definition is_empty (self : Ownership) : bool :=
  negb (truthy_opt (accountable_owner self) || truthy_opt (data_specialist self)
        || truthy_opt (support_channel self) || truthy_opt (adop self)
        || truthy_opt (ads self) || truthy_opt (adal self)).

(** [Ownership.is_complete] and [has_governance_roles]. *)
Definition is_complete (self : Ownership) : bool :=
  truthy_opt (accountable_owner self) && truthy_opt (data_specialist self)
  && truthy_opt (support_channel self).

Definition has_governance_roles (self : Ownership) : bool :=
  truthy_opt (adop self) || truthy_opt (ads self) || truthy_opt (adal self).

(** [Ownership()]: every slot unset. *)
Definition no_ownership : Ownership :=
  {| accountable_owner := None; data_specialist := None; support_channel := None;
     adop := None; ads := None; adal := None |}.

(** [CatalogNode.__post_init__]: the display name a node ends up with,
    from its path and the display name it was given. *)
Definition display_name_after_init (path display_name : string) : string :=
  if negb (truthy display_name) then
    match split "/" path with
    | [] => ""
    | w :: ws => List.last (w :: ws) ""
    end
  else display_name.

(** The six slots, to speak about each of them. *)
Inductive Field : Type :=
| AccountableOwner | DataSpecialist | SupportChannel | Adop | Ads | Adal.

Definition get (f : Field) (o : Ownership) : option string :=
  match f with
  | AccountableOwner => accountable_owner o
  | DataSpecialist => data_specialist o
  | SupportChannel => support_channel o
  | Adop => adop o
  | Ads => ads o
  | Adal => adal o
  end.

End Catalog.

(* ===================================================================== *)
(** ** datetime, as dialect/rest.py uses it *)
(* ===================================================================== *)

Module Datetime.

(** A [date] is modelled by its proleptic Gregorian ordinal
    ([date.toordinal()]): 1 is 0001-01-01 and [MAXORDINAL] is 9999-12-31. *)
Definition date : Type := Z.

Definition MAXORDINAL : Z := 3652059.
Definition MAX_DELTA_DAYS : Z := 999999999.

(** [timedelta(days=days)]: the number of days it holds. *)
Definition timedelta_days (days : Z) : result Z :=
  if Z.abs days <=? MAX_DELTA_DAYS then Ok days else Raise OverflowError.

(** [timedelta(weeks=weeks)]. *)
Definition timedelta_weeks (weeks : Z) : result Z := timedelta_days (7 * weeks).

(** [d - delta] for a [timedelta] of [delta] days. *)
Definition date_sub (d : date) (delta : Z) : result date :=
  let o := d - delta in
  if (0 <? o) && (o <=? MAXORDINAL) then Ok o else Raise OverflowError.

Definition DAYS_IN_MONTH : list Z :=
  [-1; 31; 28; 31; 30; 31; 30; 31; 31; 30; 31; 30; 31].

Definition DAYS_BEFORE_MONTH : list Z :=
  [-1; 0; 31; 59; 90; 120; 151; 181; 212; 243; 273; 304; 334].

Definition table (t : list Z) (i : Z) : Z := nth (Z.to_nat i) t 0.

Definition b2z (b : bool) : Z := if b then 1 else 0.

(** [_ord2ymd]: year, month and day of an ordinal. *)
Definition ord2ymd (n : Z) : Z * Z * Z :=
  let n := n - 1 in
  let n400 := n / 146097 in
  let n := n mod 146097 in
  let year := n400 * 400 + 1 in
  let n100 := n / 36524 in
  let n := n mod 36524 in
  let n4 := n / 1461 in
  let n := n mod 1461 in
  let n1 := n / 365 in
  let n := n mod 365 in
  let year := year + n100 * 100 + n4 * 4 + n1 in
  if (n1 =? 4) || (n100 =? 4) then (year - 1, 12, 31)
  else
    let leapyear := (n1 =? 3) && (negb (n4 =? 24) || (n100 =? 3)) in
    let month := Z.shiftr (n + 50) 5 in
    let preceding := table DAYS_BEFORE_MONTH month + b2z ((2 <? month) && leapyear) in
    let '(month, preceding) :=
      if n <? preceding
      then (month - 1,
            preceding
            - (table DAYS_IN_MONTH (month - 1) + b2z ((month - 1 =? 2) && leapyear)))
      else (month, preceding) in
    (year, month, n - preceding + 1).

(** A field of [isoformat], zero-padded to [width]: the C formatting of a
    number that is not negative, which knows no limit on digits. *)
Definition zero_pad (width : nat) (n : Z) : string :=
  let s := decimal_text n in
  Nat.iter (width - String.length s) (String "0") s.

(** [date.isoformat()]. *)
Definition isoformat (d : date) : string :=
  let '(y, m, dd) := ord2ymd d in
  zero_pad 4 y ++ "-" ++ zero_pad 2 m ++ "-" ++ zero_pad 2 dd.

(** [_is_leap] and [_days_in_month]. *)
Definition is_leap (year : Z) : bool :=
  (year mod 4 =? 0) && (negb (year mod 100 =? 0) || (year mod 400 =? 0)).

Definition days_in_month (year month : Z) : Z :=
  if (month =? 2) && is_leap year then 29 else table DAYS_IN_MONTH month.

(** [date(year, month, day)], as the fields it holds: the constructor
    checks the year, then the month, then the day. *)
Definition check_date_fields (year month day : Z) : result (Z * Z * Z) :=
  if negb ((1 <=? year) && (year <=? 9999)) then Raise ValueError
  else if negb ((1 <=? month) && (month <=? 12)) then Raise ValueError
  else if negb ((1 <=? day) && (day <=? days_in_month year month))
  then Raise ValueError
  else Ok (year, month, day).

(** [isoformat] of a date made from its fields. *)
Definition isoformat_fields (ymd : Z * Z * Z) : string :=
  let '(y, m, dd) := ymd in
  zero_pad 4 y ++ "-" ++ zero_pad 2 m ++ "-" ++ zero_pad 2 dd.

(** What rest.py takes from outside: the clock, and [dateutil]'s
    [relativedelta], here the two subtractions the dialect performs. *)
Class DateLib : Type := {
  today : date;
  minus_years : date -> Z -> result date;
  minus_months : date -> Z -> result date
}.

End Datetime.

(* ===================================================================== *)
(** ** dialect/base.py, snowflake.py, oracle.py, rest.py *)
(* ===================================================================== *)

Module Dialect.
Import Datetime.

(** The interface [VersionDialect], without [date_literal] (it takes a date
    text, and no unit or magnitude). *)
Record VersionDialect : Type := {
  name : string;
  current_date : string;
  lookback_start : Z -> string -> result string;
  date_filter : string -> Z -> string -> result string;
  no_filter : string;
  latest_subquery_hint : string
}.

(** The defaults of the base class. *)
Definition base_date_filter (lookback : Z -> string -> result string)
    (column : string) (value : Z) (unit : string) : result string :=
  let* lookback_sql := lookback value unit in
  Ok (column ++ " >= " ++ lookback_sql).

Definition base_no_filter : string := "1=1".
Definition base_latest_subquery_hint : string := "'__LATEST__'".

(** [unit_map.get(unit_upper, "DAY")] of snowflake.py. *)
Definition snowflake_unit (unit_upper : string) : string :=
  if String.eqb unit_upper "Y" then "YEAR"
  else if String.eqb unit_upper "M" then "MONTH"
  else if String.eqb unit_upper "W" then "WEEK"
  else if String.eqb unit_upper "D" then "DAY"
  else "DAY".

Definition snowflake_lookback_start (value : Z) (unit : string) : result string :=
  let unit_upper := upper unit in
  let sql_unit := snowflake_unit unit_upper in
  let* text := str_of_int value in
  Ok ("DATEADD('" ++ sql_unit ++ "', -" ++ text ++ ", CURRENT_DATE())").

Definition SnowflakeDialect : VersionDialect :=
  {| name := "snowflake";
     current_date := "CURRENT_DATE()";
     lookback_start := snowflake_lookback_start;
     date_filter := base_date_filter snowflake_lookback_start;
     no_filter := base_no_filter;
     latest_subquery_hint := base_latest_subquery_hint |}.

Definition oracle_lookback_start (value : Z) (unit : string) : result string :=
  let unit_upper := upper unit in
  if String.eqb unit_upper "Y" then
    let* text := str_of_int (value * 12) in
    Ok ("ADD_MONTHS(SYSDATE, -" ++ text ++ ")")
  else if String.eqb unit_upper "M" then
    let* text := str_of_int value in
    Ok ("ADD_MONTHS(SYSDATE, -" ++ text ++ ")")
  else if String.eqb unit_upper "W" then
    let* text := str_of_int (value * 7) in
    Ok ("SYSDATE - " ++ text)
  else
    let* text := str_of_int value in
    Ok ("SYSDATE - " ++ text).

Definition OracleDialect : VersionDialect :=
  {| name := "oracle";
     current_date := "SYSDATE";
     lookback_start := oracle_lookback_start;
     date_filter := base_date_filter oracle_lookback_start;
     no_filter := base_no_filter;
     latest_subquery_hint := base_latest_subquery_hint |}.

(** [RestDialect.date_literal]. *)
Definition rest_date_literal (date_str : string) : result string :=
  let* year := int_of_str (slice_to date_str 4) in
  let* month := int_of_str (slice_between date_str 4 6) in
  let* day := int_of_str (slice_between date_str 6 8) in
  let* fields := check_date_fields year month day in
  Ok (isoformat_fields fields).

Section Rest.
Context {D : DateLib}.

Definition rest_lookback_start (value : Z) (unit : string) : result string :=
  let unit_upper := upper unit in
  let* result :=
    (if String.eqb unit_upper "Y" then minus_years today value
     else if String.eqb unit_upper "M" then minus_months today value
     else if String.eqb unit_upper "W" then
       let* delta := timedelta_weeks value in date_sub today delta
     else
       let* delta := timedelta_days value in date_sub today delta) in
  Ok (isoformat result).


End Rest.

(** The units the interface documents: Y, M, W and D, in either case. *)
Definition known_unit (unit : string) : bool :=
  existsb (String.eqb (upper unit)) ["Y"; "M"; "W"; "D"].


End Dialect.

(* ===================================================================== *)
(** ** start.py *)
(* ===================================================================== *)

Module Start.

(** [parse_host]: the host and the port of a [host:port] text. *)
Definition parse_host (host_str : string) : result (string * Z) :=
  if contains ":" host_str then
    match rsplit1 ":" host_str with
    | [host; port_str] =>
        let* port := int_of_str port_str in
        Ok (host, port)
    | _ => Raise ValueError
    end
  else Ok (host_str, 8060).

End Start.

(* ===================================================================== *)
(** ** Vocabulary of the properties *)
(* ===================================================================== *)

Module Vocabulary.
Import Types Parser.

(** A slot of an [Ownership] is set when it holds a non-empty text: the
    reading of "set" that [merge_with_parent] (through [or]) and [is_empty]
    (through [any]) share. *)
Definition is_set (slot : option string) : bool := truthy_opt slot.

(** The moniker of the root path, with the given parameters. *)
Definition root_moniker (ps : QueryParams) : Moniker :=
  {| path := root; namespace := None; version := None; revision := None;
     params := ps |}.

(** [body] starts with [ns], free of [@] and of [/], and an [@]: the
    first [@] of [body] comes before its first [/], if it has one. *)
Definition namespace_prefix (body ns rest : string) : Prop :=
  body = ns ++ "@" ++ rest /\ has_char "@" ns = false /\ has_char "/" ns = false.

(** A result other than the empty-input error. *)
Definition other_error {A : Type} (r : result A) : Prop :=
  r <> Raise (MonikerParseError empty_moniker_msg).

(** The last character of [s] is [c]. *)
Fixpoint ends_with (c : ascii) (s : string) : bool :=
  match s with
  | "" => false
  | String a "" => Ascii.eqb a c
  | String _ s' => ends_with c s'
  end.

(** The grammars of the specification, with the end of the text where the
    regular expressions have [$]. *)
Definition segment_grammar (s : string) : bool :=
  match s with
  | "" => false
  | String c s' => is_alnum c && all_chars segment_rest s' && (len s <=? 128)
  end.

Definition namespace_grammar (s : string) : bool :=
  match s with
  | "" => false
  | String c s' => is_alpha c && all_chars namespace_rest s' && (len s <=? 64)
  end.

Definition version_grammar (s : string) : bool :=
  truthy s && all_chars is_alnum s.

(** *** Monikers that survive a round trip *)

(** The unreserved characters: letters, digits, [_], [-], [.] and [~]. *)
Definition safe_char (c : ascii) : bool :=
  is_alnum c || Ascii.eqb c "_" || Ascii.eqb c "-" || Ascii.eqb c "."
  || Ascii.eqb c "~".

Definition safe_text (s : string) : bool := all_chars safe_char s.

(** A segment that reads as a revision suffix once a [/] precedes it:
    [v] and a non-empty run of digits. *)
Definition revision_like (seg : string) : bool :=
  match seg with
  | "" => false
  | String c d => Ascii.eqb c "v" && truthy d && all_chars is_digit d
  end.

Fixpoint distinct (keys : list string) : bool :=
  match keys with
  | [] => true
  | k :: ks => negb (existsb (String.eqb k) ks) && distinct ks
  end.

(** The monikers whose text parses back to them: every component matches
    its grammar, the revision is not negative, a version on a path of fewer
    than two segments comes with a namespace (else its [@] reads as the
    namespace mark), a path that ends in a revision-like segment carries a
    version or a revision (else that segment reads as the revision), and
    the parameters have distinct keys and hold unreserved characters only. *)
Definition well_formed (m : Moniker) : bool :=
  forallb segment_grammar (segments (path m))
  && match namespace m with Some n => namespace_grammar n | None => true end
  && match version m with Some v => version_grammar v | None => true end
  && match revision m with Some r => 0 <=? r | None => true end
  && match namespace m, version m with
     | None, Some _ => (2 <=? List.length (segments (path m)))%nat
     | _, _ => true
     end
  && match version m, revision m, segments (path m) with
     | None, None, _ :: _ :: _ =>
         negb (revision_like (List.last (segments (path m)) ""))
     | _, _, _ => true
     end
  && forallb (fun kv => safe_text (fst kv) && safe_text (snd kv)) (params m)
  && distinct (map fst (params m)).

(** An integer that [str] prints and [int] reads back: at most
    [MAX_STR_DIGITS] digits, the sign apart. *)
Definition fits (n : Z) : bool :=
  len (decimal_text (Z.abs n)) <=? MAX_STR_DIGITS.

(** A run of [n] zeros: after a one, the text of ten to the power [n]. *)
Definition zeros (n : nat) : string := Nat.iter n (String "0") "".

(** The revision of a moniker, if any, can be printed. *)
Definition revision_fits (m : Moniker) : bool :=
  match revision m with Some r => fits r | None => true end.

(** The pieces of [moniker_str] for such a moniker. *)
Definition namespace_text (m : Moniker) : string :=
  match namespace m with Some n => n ++ "@" | None => "" end.

Definition version_text (m : Moniker) : string :=
  match version m with Some v => "@" ++ v | None => "" end.

Definition revision_text (m : Moniker) : string :=
  match revision m with Some r => "/v" ++ decimal_text r | None => "" end.

Definition field_text (kv : string * string) : string :=
  fst kv ++ "=" ++ snd kv.

Definition query_text (m : Moniker) : string :=
  join "&" (map field_text (params m)).

Definition body_text (m : Moniker) : string :=
  namespace_text m ++ path_str (path m) ++ version_text m ++ revision_text m.

(** The text of such a moniker, with its scheme and its query. *)
Definition moniker_text (m : Moniker) : string :=
  "moniker://" ++ body_text m
  ++ (if match params m with [] => false | _ => true end
      then "?" ++ query_text m else "").

(** The characters of a canonical body and of a canonical query. *)
Definition body_char (c : ascii) : bool :=
  safe_char c || Ascii.eqb c "@" || Ascii.eqb c "/".

Definition query_char (c : ascii) : bool :=
  safe_char c || Ascii.eqb c "=" || Ascii.eqb c "&".

(** The first field of every name, in the order of the fields: [seen] holds
    the names already met. *)
Fixpoint first_occurrences (seen : list string) (fields : list (string * string))
  : list (string * string) :=
  match fields with
  | [] => []
  | (k, v) :: fields' =>
      if existsb (String.eqb k) seen then first_occurrences seen fields'
      else (k, v) :: first_occurrences (k :: seen) fields'
  end.

(** The first value of every name of a [parse_qs] result. *)
Definition first_values (d : list (string * list string)) : QueryParams :=
  flat_map (fun kvs => match snd kvs with v :: _ => [(fst kvs, v)] | [] => [] end) d.

(** A moniker with every component, to run the properties on. *)
Definition example_moniker : Moniker :=
  {| path := {| segments := ["analytics.risk"; "views"; "my-watchlist"] |};
     namespace := Some "user";
     version := Some "20260115";
     revision := Some 3;
     params := [("format", "json"); ("limit", "10")] |}.

Definition example_text : string :=
  "user@analytics.risk/views/my-watchlist@20260115/v3?format=json&limit=10".

End Vocabulary.

(* ===================================================================== *)
(** * Properties *)
(* ===================================================================== *)

Import Types Parser Vocabulary.

(** ** Ownership merge *)

Section OwnershipMerge.
Import Catalog.

Lemma get_merge_with_parent (f : Field) (o p : Ownership) :
  get f (merge_with_parent o p) = or_else (get f o) (get f p).
Proof. destruct f; reflexivity. Qed.

(** C6. For each of the six slots, the merged value is the child's when the
    child has the slot set and the parent's otherwise; and the merged slot is
    a function of that slot of the child and of the parent alone, whatever the
    other five hold. *)
Theorem merge_with_parent_per_field (o p : Ownership) (f : Field) :
  get f (merge_with_parent o p) = (if is_set (get f o) then get f o else get f p)
  /\ (forall o' p' : Ownership,
        get f o' = get f o -> get f p' = get f p ->
        get f (merge_with_parent o' p') = get f (merge_with_parent o p)).
Proof.
  split.
  - rewrite get_merge_with_parent. reflexivity.
  - intros o' p' Ho Hp. rewrite !get_merge_with_parent, Ho, Hp. reflexivity.
Qed.

(** The boundary of "set": an empty text on the child counts as unset, so the
    parent's value is taken. *)
Example merge_empty_text_is_unset :
  let child := {| accountable_owner := Some ""; data_specialist := Some "B";
                  support_channel := None; adop := None; ads := None;
                  adal := None |} in
  let parent := {| accountable_owner := Some "A"; data_specialist := Some "P";
                   support_channel := Some "#help"; adop := None; ads := None;
                   adal := None |} in
  merge_with_parent child parent
  = {| accountable_owner := Some "A"; data_specialist := Some "B";
       support_channel := Some "#help"; adop := None; ads := None;
       adal := None |}.
Proof. reflexivity. Qed.

End OwnershipMerge.

(** ** Version dialects *)

Section Dialects.
Import Datetime Dialect.

Lemma known_unit_false (unit : string) :
  known_unit unit = false ->
  String.eqb (upper unit) "Y" = false /\ String.eqb (upper unit) "M" = false
  /\ String.eqb (upper unit) "W" = false /\ String.eqb (upper unit) "D" = false.
Proof.
  unfold known_unit. simpl. intros H.
  repeat (apply orb_false_iff in H; destruct H as [? H]).
  repeat split; assumption.
Qed.

(** [str] in terms of [fits]. *)
Lemma str_of_int_spec (n : Z) :
  str_of_int n = if fits n then Ok (decimal_text n) else Raise ValueError.
Proof.
  unfold str_of_int, fits. rewrite Z.ltb_antisym.
  destruct (_ <=? _); reflexivity.
Qed.

(** C7, as the code has it. The Oracle lookback: years go through
    ADD_MONTHS with twelve times the value, months through ADD_MONTHS, weeks
    are seven times the value in days, days are the value, whenever the
    number to print has at most 4300 digits; with more digits the call
    raises [ValueError]. One year back is ADD_MONTHS by -12. *)
Theorem oracle_lookback_mapping (value : Z) :
  lookback_start OracleDialect value "Y"
    = (if fits (12 * value)
       then Ok ("ADD_MONTHS(SYSDATE, -" ++ decimal_text (12 * value) ++ ")")
       else Raise ValueError)
  /\ lookback_start OracleDialect value "M"
    = (if fits value
       then Ok ("ADD_MONTHS(SYSDATE, -" ++ decimal_text value ++ ")")
       else Raise ValueError)
  /\ lookback_start OracleDialect value "W"
    = (if fits (7 * value)
       then Ok ("SYSDATE - " ++ decimal_text (7 * value))
       else Raise ValueError)
  /\ lookback_start OracleDialect value "D"
    = (if fits value
       then Ok ("SYSDATE - " ++ decimal_text value)
       else Raise ValueError)
  /\ lookback_start OracleDialect value "y" = lookback_start OracleDialect value "Y"
  /\ lookback_start OracleDialect value "m" = lookback_start OracleDialect value "M"
  /\ lookback_start OracleDialect value "w" = lookback_start OracleDialect value "W"
  /\ lookback_start OracleDialect value "d" = lookback_start OracleDialect value "D"
  /\ lookback_start OracleDialect 1 "Y" = Ok "ADD_MONTHS(SYSDATE, -12)".
Proof.
  cbn [lookback_start OracleDialect]. unfold oracle_lookback_start.
  change (upper "Y") with "Y". change (upper "M") with "M".
  change (upper "W") with "W". change (upper "D") with "D".
  change (upper "y") with "Y". change (upper "m") with "M".
  change (upper "w") with "W". change (upper "d") with "D".
  cbn [String.eqb Ascii.eqb Bool.eqb].
  rewrite (Z.mul_comm value 12), (Z.mul_comm value 7), !str_of_int_spec.
  repeat split; destruct (fits _); reflexivity.
Qed.

(** The days branch of the REST dialect, spelt out. *)
Lemma rest_lookback_days {D : DateLib} (value : Z) (unit : string) :
  known_unit unit = false ->
  rest_lookback_start value unit
  = if (Z.abs value <=? MAX_DELTA_DAYS)
       && (0 <? today - value) && (today - value <=? MAXORDINAL)
    then Ok (isoformat (today - value))
    else Raise OverflowError.
Proof.
  intros H. apply known_unit_false in H. destruct H as (HY & HM & HW & HD).
  unfold rest_lookback_start. rewrite HY, HM, HW.
  unfold timedelta_days, date_sub.
  destruct (Z.abs value <=? MAX_DELTA_DAYS); cbn [bind andb]; [|reflexivity].
  destruct ((0 <? today - value) && (today - value <=? MAXORDINAL));
    reflexivity.
Qed.

(** The REST dialect raises on a large magnitude whatever the clock says. *)
Lemma rest_lookback_out_of_range {D : DateLib} (value : Z) (unit : string) :
  known_unit unit = false ->
  today <= MAXORDINAL -> MAXORDINAL <= value ->
  rest_lookback_start value unit = Raise OverflowError.
Proof.
  intros H Ht Hv. rewrite rest_lookback_days by assumption.
  replace (0 <? today - value) with false by (symmetry; apply Z.ltb_ge; lia).
  rewrite andb_false_r. reflexivity.
Qed.




End Dialects.


(** ** Facts about the string operations *)

Section StringFacts.

Lemma append_nil_r (s : string) : s ++ "" = s.
Proof. induction s as [|c s IH]; simpl; [|rewrite IH]; reflexivity. Qed.

Lemma append_assoc (a b c : string) : (a ++ b) ++ c = a ++ (b ++ c).
Proof. induction a as [|x a IH]; simpl; [|rewrite IH]; reflexivity. Qed.

Lemma len_nonneg (s : string) : 0 <= len s.
Proof. unfold len. lia. Qed.

Lemma len_cons (c : ascii) (s : string) : len (String c s) = len s + 1.
Proof. unfold len. simpl String.length. lia. Qed.

Lemma len_app (a b : string) : len (a ++ b) = len a + len b.
Proof.
  induction a as [|x a IH]; [reflexivity|].
  simpl append. rewrite !len_cons, IH. lia.
Qed.

Lemma truthy_false (s : string) : truthy s = false <-> s = "".
Proof. destruct s; simpl; split; congruence. Qed.

Lemma truthy_true (s : string) : truthy s = true <-> s <> "".
Proof. destruct s; simpl; split; congruence. Qed.

Lemma take_app (a b : string) : take (String.length a) (a ++ b) = a.
Proof. induction a as [|x a IH]; simpl; [destruct b|rewrite IH]; reflexivity. Qed.

Lemma drop_app (a b : string) : drop (String.length a) (a ++ b) = b.
Proof. induction a as [|x a IH]; simpl; [|rewrite IH]; reflexivity. Qed.

Lemma take_drop (n : nat) (s : string) : take n s ++ drop n s = s.
Proof.
  revert s; induction n as [|n IH]; intros [|c s]; simpl; try reflexivity.
  rewrite IH. reflexivity.
Qed.

Lemma clamp_len_app (a b : string) : clamp (len a) (a ++ b) = String.length a.
Proof.
  unfold clamp. pose proof (len_nonneg a). pose proof (len_nonneg b).
  destruct (Z.ltb_spec (len a) 0); [lia|].
  rewrite len_app, Z.min_l by lia. unfold len. apply Nat2Z.id.
Qed.

(** [(a ++ b)[:len(a)]] and [(a ++ b)[len(a):]]. *)
Lemma slice_to_app (a b : string) : slice_to (a ++ b) (len a) = a.
Proof. unfold slice_to. rewrite clamp_len_app. apply take_app. Qed.

Lemma slice_from_app (a b : string) : slice_from (a ++ b) (len a) = b.
Proof. unfold slice_from. rewrite clamp_len_app. apply drop_app. Qed.

Lemma slice_from_app_sep (a sep b : string) :
  slice_from (a ++ sep ++ b) (len a + len sep) = b.
Proof. rewrite <- len_app, <- append_assoc. apply slice_from_app. Qed.

(** *** Characters of a string *)

Lemma all_chars_app (p : ascii -> bool) (a b : string) :
  all_chars p (a ++ b) = all_chars p a && all_chars p b.
Proof.
  induction a as [|x a IH]; simpl; [reflexivity|].
  rewrite IH, andb_assoc. reflexivity.
Qed.

Lemma all_chars_impl (p q : ascii -> bool) (s : string) :
  (forall c, p c = true -> q c = true) ->
  all_chars p s = true -> all_chars q s = true.
Proof.
  intros Hpq. induction s as [|c s IH]; simpl; [reflexivity|].
  intros H. apply andb_true_iff in H as [Hc Hs].
  rewrite (Hpq c Hc), (IH Hs). reflexivity.
Qed.

Lemma has_char_nil (c : ascii) : has_char c "" = false.
Proof. reflexivity. Qed.

Lemma has_char_cons (c a : ascii) (s : string) :
  has_char c (String a s) = Ascii.eqb a c || has_char c s.
Proof.
  unfold has_char. simpl. rewrite negb_andb, negb_involutive. reflexivity.
Qed.

Lemma has_char_app (c : ascii) (a b : string) :
  has_char c (a ++ b) = has_char c a || has_char c b.
Proof.
  unfold has_char. rewrite all_chars_app, negb_andb. reflexivity.
Qed.

(** A string whose characters all satisfy [p] holds no character that
    fails [p]. *)
Lemma all_chars_has_char (p : ascii -> bool) (c : ascii) (s : string) :
  all_chars p s = true -> p c = false -> has_char c s = false.
Proof.
  intros Hs Hc. induction s as [|a s IH]; [reflexivity|].
  simpl in Hs. apply andb_true_iff in Hs as [Ha Hs].
  rewrite has_char_cons, (IH Hs), orb_false_r.
  destruct (Ascii.eqb_spec a c); [congruence|reflexivity].
Qed.

(** *** [startswith] *)

Lemma startswith_nil (s : string) : startswith s "" = true.
Proof. reflexivity. Qed.

Lemma startswith_app (a b : string) : startswith (a ++ b) a = true.
Proof.
  induction a as [|x a IH]; simpl; [reflexivity|].
  rewrite Ascii.eqb_refl. exact IH.
Qed.

Lemma startswith_char (c a : ascii) (s : string) :
  startswith (String a s) (String c "") = Ascii.eqb c a.
Proof. simpl. rewrite andb_true_r. reflexivity. Qed.

Lemma startswith_spec (s pre : string) :
  startswith s pre = true <-> exists t, s = pre ++ t.
Proof.
  revert s; induction pre as [|a pre IH]; intros s.
  - simpl. split; [exists s; reflexivity | reflexivity].
  - destruct s as [|b s]; simpl.
    + split; [discriminate | intros [t Ht]; discriminate].
    + rewrite andb_true_iff, IH. split.
      * intros [Hab [t ->]]. apply Ascii.eqb_eq in Hab. subst. eauto.
      * intros [t Ht]. injection Ht as -> ->.
        rewrite Ascii.eqb_refl. eauto.
Qed.

(** *** [find] and [rfind] *)

Lemma find_cons (sub : string) (c : ascii) (s : string) :
  find sub (String c s)
  = if startswith (String c s) sub then 0
    else if find sub s <? 0 then -1 else find sub s + 1.
Proof. reflexivity. Qed.

Lemma rfind_cons (sub : string) (c : ascii) (s : string) :
  rfind sub (String c s)
  = if 0 <=? rfind sub s then rfind sub s + 1
    else if startswith (String c s) sub then 0 else -1.
Proof. reflexivity. Qed.

Lemma find_range (sub s : string) : -1 <= find sub s <= len s.
Proof.
  induction s as [|c s IH].
  - simpl. destruct sub; simpl; unfold len; simpl; lia.
  - rewrite find_cons. rewrite len_cons.
    destruct (startswith (String c s) sub); [lia|].
    destruct (Z.ltb_spec (find sub s) 0); lia.
Qed.

Lemma rfind_range (sub s : string) : -1 <= rfind sub s <= len s.
Proof.
  induction s as [|c s IH].
  - simpl. destruct sub; simpl; unfold len; simpl; lia.
  - rewrite rfind_cons. rewrite len_cons.
    destruct (Z.leb_spec 0 (rfind sub s)); [lia|].
    destruct (startswith (String c s) sub); lia.
Qed.

(** The two searches agree on whether there is an occurrence. *)
Lemma rfind_neg_iff_find_neg (sub s : string) :
  rfind sub s < 0 <-> find sub s < 0.
Proof.
  induction s as [|c s IH].
  - simpl. destruct (startswith "" sub); lia.
  - rewrite rfind_cons, find_cons.
    pose proof (rfind_range sub s). pose proof (find_range sub s).
    destruct (Z.leb_spec 0 (rfind sub s)), (Z.ltb_spec (find sub s) 0),
      (startswith (String c s) sub); lia.
Qed.

Lemma contains_rfind (sub s : string) : contains sub s = (0 <=? rfind sub s).
Proof.
  unfold contains. pose proof (rfind_neg_iff_find_neg sub s).
  destruct (Z.leb_spec 0 (find sub s)), (Z.leb_spec 0 (rfind sub s)); lia.
Qed.

(** An occurrence found in a suffix is the last one of the whole string. *)
Lemma rfind_app_found (sub a s : string) :
  0 <= rfind sub s -> rfind sub (a ++ s) = len a + rfind sub s.
Proof.
  intros H. induction a as [|c a IH]; [reflexivity|].
  simpl append. rewrite rfind_cons. rewrite IH, len_cons.
  pose proof (len_nonneg a).
  destruct (Z.leb_spec 0 (len a + rfind sub s)); lia.
Qed.

(** The first occurrence of a character. *)
Lemma find_char_absent (c : ascii) (s : string) :
  has_char c s = false -> find (String c "") s = -1.
Proof.
  induction s as [|a s IH]; [reflexivity|].
  rewrite has_char_cons. intros H. apply orb_false_iff in H as [Ha Hs].
  rewrite find_cons. rewrite startswith_char, (Ascii.eqb_sym c a), Ha, (IH Hs).
  reflexivity.
Qed.

Lemma find_char_present (c : ascii) (s : string) :
  has_char c s = true -> 0 <= find (String c "") s.
Proof.
  induction s as [|a s IH]; [discriminate|].
  rewrite has_char_cons, find_cons, startswith_char, (Ascii.eqb_sym c a).
  destruct (Ascii.eqb a c); cbn [orb]; [intros _; lia|]. intros H. specialize (IH H).
  destruct (Z.ltb_spec (find (String c "") s) 0); lia.
Qed.

Lemma contains_char (c : ascii) (s : string) :
  contains (String c "") s = has_char c s.
Proof.
  unfold contains. destruct (has_char c s) eqn:H.
  - apply Z.leb_le, find_char_present, H.
  - rewrite (find_char_absent _ _ H). reflexivity.
Qed.

Lemma find_char_app (c : ascii) (a b : string) :
  has_char c a = false ->
  find (String c "") (a ++ String c b) = len a.
Proof.
  intros H. induction a as [|x a IH].
  - simpl append. rewrite find_cons, startswith_char, Ascii.eqb_refl. reflexivity.
  - rewrite has_char_cons in H. apply orb_false_iff in H as [Hx Ha].
    simpl append. rewrite find_cons.
    rewrite startswith_char, (Ascii.eqb_sym _ x), Hx, (IH Ha), len_cons.
    pose proof (len_nonneg a). destruct (Z.ltb_spec (len a) 0); lia.
Qed.

(** Where the first occurrence of [c] is, the string splits there. *)
Lemma find_char_split (c : ascii) (s : string) :
  0 <= find (String c "") s ->
  exists a b, s = a ++ String c b /\ has_char c a = false
              /\ find (String c "") s = len a.
Proof.
  induction s as [|x s IH]; [simpl; lia|].
  rewrite find_cons. rewrite startswith_char.
  destruct (Ascii.eqb_spec c x) as [->|Hne].
  - intros _. exists "", s. repeat split.
  - destruct (Z.ltb_spec (find (String c "") s) 0) as [|Hs]; [lia|]. intros _.
    destruct (IH Hs) as (a & b & -> & Ha & Hf).
    exists (String x a), b. rewrite has_char_cons, Ha, Hf, len_cons.
    repeat split. destruct (Ascii.eqb_spec x c); [congruence|reflexivity].
Qed.

(** The first occurrence of [d] lies beyond a prefix free of [d]. *)
Lemma find_char_app_other (d : ascii) (a b : string) :
  has_char d a = false ->
  find (String d "") (a ++ b)
  = if find (String d "") b <? 0 then -1 else len a + find (String d "") b.
Proof.
  intros H. induction a as [|x a IH].
  - simpl append. pose proof (find_range (String d "") b).
    destruct (Z.ltb_spec (find (String d "") b) 0); unfold len; simpl; lia.
  - rewrite has_char_cons in H. apply orb_false_iff in H as [Hx Ha].
    simpl append. rewrite find_cons.
    rewrite startswith_char, (Ascii.eqb_sym _ x), Hx, (IH Ha), len_cons.
    pose proof (len_nonneg a).
    destruct (Z.ltb_spec (find (String d "") b) 0); simpl; [reflexivity|].
    destruct (Z.ltb_spec (len a + find (String d "") b) 0); lia.
Qed.

(** The last occurrence of a character. *)
Lemma rfind_char_absent (c : ascii) (s : string) :
  has_char c s = false -> rfind (String c "") s = -1.
Proof.
  intros H. pose proof (find_char_absent c s H).
  pose proof (rfind_neg_iff_find_neg (String c "") s).
  pose proof (rfind_range (String c "") s). lia.
Qed.

Lemma rfind_char_app (c : ascii) (a b : string) :
  has_char c b = false ->
  rfind (String c "") (a ++ String c b) = len a.
Proof.
  intros H. rewrite rfind_app_found.
  - rewrite rfind_cons. rewrite (rfind_char_absent _ _ H).
    rewrite startswith_char, Ascii.eqb_refl. simpl. lia.
  - rewrite rfind_cons. rewrite (rfind_char_absent _ _ H).
    rewrite startswith_char, Ascii.eqb_refl. simpl. lia.
Qed.

Lemma rfind_char_split (c : ascii) (s : string) :
  0 <= rfind (String c "") s ->
  exists a b, s = a ++ String c b /\ has_char c b = false
              /\ rfind (String c "") s = len a.
Proof.
  induction s as [|x s IH]; [simpl; lia|].
  rewrite rfind_cons. rewrite startswith_char.
  destruct (Z.leb_spec 0 (rfind (String c "") s)) as [Hs|Hs].
  - intros _. destruct (IH Hs) as (a & b & -> & Hb & Hf).
    exists (String x a), b. rewrite Hf, len_cons. repeat split. exact Hb.
  - destruct (Ascii.eqb_spec c x) as [->|Hne]; [|lia]. intros _.
    exists "", s. repeat split.
    destruct (has_char x s) eqn:E; [|reflexivity].
    apply find_char_present in E.
    pose proof (rfind_neg_iff_find_neg (String x "") s). lia.
Qed.

End StringFacts.


(** ** The parser: errors *)

Section ParserErrors.
Context {U : Url.UrlLib}.

Lemma other_error_ok {A : Type} (v : A) : other_error (Ok v).
Proof. discriminate. Qed.

Lemma other_error_bind {A B : Type} (r : result A) (k : A -> result B) :
  other_error r -> (forall v, other_error (k v)) -> other_error (bind r k).
Proof.
  destruct r as [v|e]; simpl; intros Hr Hk; [apply Hk|].
  unfold other_error in *. intros E. apply Hr. inversion E. reflexivity.
Qed.

Lemma urlparse_raises (url : string) (e : exn) :
  Url.urlparse url = Raise e -> e = ValueError.
Proof.
  unfold Url.urlparse, Url.split_netloc.
  destruct (startswith _ "//"); cbn [bind].
  - destruct (Url.break _ _) as [n r].
    destruct (_ || _); [intros [= <-]; reflexivity|].
    destruct (_ && _); [intros [= <-]; reflexivity|].
    cbn [bind]. destruct (Url.split_at "#" r) as [u f].
    destruct (Url.split_at "?" u). discriminate.
  - destruct (Url.split_at "#" _) as [u f].
    destruct (Url.split_at "?" u). discriminate.
Qed.

Lemma split_scheme_other_error (s : string) : other_error (split_scheme s).
Proof.
  unfold split_scheme, other_error.
  destruct (startswith s "moniker://").
  - destruct (Url.urlparse s) as [p|e] eqn:E; cbn [bind]; [discriminate|].
    apply urlparse_raises in E. subst. discriminate.
  - destruct (contains "://" s); [discriminate|].
    destruct (contains "?" s); [|discriminate].
    destruct (split1 "?" s) as [|? [|? [|]]]; discriminate.
Qed.

Lemma split_namespace_other_error (body : string) (validate : bool) :
  other_error (split_namespace body validate).
Proof.
  unfold split_namespace, other_error.
  destruct (_ && _); [|discriminate].
  destruct (_ && _); discriminate.
Qed.

Lemma split_version_other_error (remaining : string) (validate : bool) :
  other_error (split_version remaining validate).
Proof.
  unfold split_version, other_error.
  destruct (contains "@" remaining); [|discriminate].
  destruct (_ <? _); [|discriminate].
  destruct (_ && _); discriminate.
Qed.

Lemma check_segments_other_error (segs : list string) :
  other_error (check_segments segs).
Proof.
  induction segs as [|seg segs IH]; simpl; [discriminate|].
  destruct (validate_segment seg); simpl; [exact IH|discriminate].
Qed.

Lemma parse_path_other_error (p : string) (validate : bool) :
  other_error (parse_path p validate).
Proof.
  unfold parse_path.
  destruct (_ || _); [discriminate|].
  destruct (negb _); [discriminate|].
  apply other_error_bind; [|discriminate].
  destruct validate; [apply check_segments_other_error | discriminate].
Qed.

Lemma split_revision_other_error (remaining : string) :
  other_error (split_revision remaining).
Proof.
  unfold split_revision, other_error, int_of_digits.
  destruct (contains "/v" remaining); [|discriminate].
  destruct (rsplit1 "/v" remaining) as [|? [|? [|]]]; try discriminate.
  destruct (revision_match _); [|discriminate].
  destruct (_ <? _); discriminate.
Qed.

Lemma parse_tail_other_error (ns : option string) (remaining q : string)
    (validate : bool) :
  other_error (parse_tail ns remaining q validate).
Proof.
  unfold parse_tail.
  apply other_error_bind; [apply split_revision_other_error|].
  intros [rev rem].
  apply other_error_bind; [apply split_version_other_error|].
  intros [ver rem']. apply other_error_bind; [apply parse_path_other_error|].
  discriminate.
Qed.

Lemma parse_body_other_error (body q : string) (validate : bool) :
  other_error (parse_body body q validate).
Proof.
  unfold parse_body.
  apply other_error_bind; [apply split_namespace_other_error|].
  intros [ns rem]. apply parse_tail_other_error.
Qed.

Lemma parse_moniker_nonempty (s : string) (validate : bool) :
  s <> "" ->
  parse_moniker s validate
  = (let* (body, query_str) := split_scheme (strip s) in
     parse_body body query_str validate).
Proof. destruct s; [congruence|reflexivity]. Qed.

Lemma parse_body_empty (q : string) (validate : bool) :
  parse_body "" q validate = Ok (root_moniker (parse_params q)).
Proof. destruct validate; reflexivity. Qed.

Lemma strip_all_space (s : string) : all_chars is_space s = true -> strip s = "".
Proof.
  unfold strip, strip_by. induction s as [|c s IH]; [reflexivity|].
  simpl. intros H. apply andb_true_iff in H as [Hc Hs].
  rewrite Hc. exact (IH Hs).
Qed.

(** Only the empty string raises the empty-input error. *)
Lemma empty_error_iff (s : string) (validate : bool) :
  parse_moniker s validate = Raise (MonikerParseError empty_moniker_msg)
  <-> s = "".
Proof.
  split.
  - intros H. destruct (string_dec s "") as [|Hne]; [assumption|].
    exfalso. rewrite parse_moniker_nonempty in H by assumption.
    revert H. apply other_error_bind; [apply split_scheme_other_error|].
    intros [body q]. apply parse_body_other_error.
  - intros ->. reflexivity.
Qed.

(** An input whose body is empty parses to the root path, with the
    parameters of its query. *)
Lemma parse_moniker_empty_body (s q : string) (validate : bool) :
  s <> "" -> split_scheme (strip s) = Ok ("", q) ->
  parse_moniker s validate = Ok (root_moniker (parse_params q)).
Proof.
  intros Hs Hb. rewrite parse_moniker_nonempty, Hb by assumption.
  cbn [bind]. apply parse_body_empty.
Qed.

End ParserErrors.


(** ** The parser: namespace *)

Section ParserNamespace.
Context {U : Url.UrlLib}.

Lemma find_char_in_prefix (d : ascii) (a b : string) :
  has_char d a = true -> 0 <= find (String d "") (a ++ b) < len a.
Proof.
  intros H. apply find_char_present, find_char_split in H.
  destruct H as (a1 & a2 & -> & H1 & _).
  rewrite append_assoc. simpl append. rewrite (find_char_app d a1 (a2 ++ b) H1).
  rewrite len_app, len_cons. pose proof (len_nonneg a1). pose proof (len_nonneg a2).
  lia.
Qed.

(** The test of the namespace step holds exactly when the body starts with
    a text free of [@] and [/] that an [@] follows. *)
Lemma namespace_test_true (body ns rest : string) :
  namespace_prefix body ns rest ->
  find "@" body = len ns
  /\ (negb (find "@" body =? -1)
      && ((find "/" body =? -1) || (find "@" body <? find "/" body))) = true.
Proof.
  intros (-> & Hat & Hsl). simpl append.
  rewrite (find_char_app "@" ns rest Hat).
  split; [reflexivity|].
  rewrite (find_char_app_other "/" ns (String "@" rest) Hsl).
  rewrite find_cons, startswith_char. cbn [Ascii.eqb Bool.eqb andb].
  pose proof (len_nonneg ns). pose proof (find_range "/" rest).
  destruct (Z.ltb_spec (find "/" rest) 0); cbn [Z.ltb Z.compare].
  - destruct (Z.eqb_spec (len ns) (-1)); [lia|]. reflexivity.
  - destruct (Z.ltb_spec (find "/" rest + 1) 0); [lia|].
    destruct (Z.eqb_spec (len ns) (-1)); [lia|].
    destruct (Z.ltb_spec (len ns) (len ns + (find "/" rest + 1))); [|lia].
    apply orb_true_r.
Qed.

Lemma namespace_test_prefix (body : string) :
  (negb (find "@" body =? -1)
   && ((find "/" body =? -1) || (find "@" body <? find "/" body))) = true ->
  exists ns rest, namespace_prefix body ns rest.
Proof.
  intros H. apply andb_true_iff in H as [Hat Hsl].
  apply negb_true_iff, Z.eqb_neq in Hat.
  pose proof (find_range "@" body) as Hr.
  destruct (find_char_split "@" body ltac:(lia)) as (ns & rest & Hb & Hns & Hf).
  exists ns, rest. split; [exact Hb|]. split; [exact Hns|].
  destruct (has_char "/" ns) eqn:E; [|reflexivity]. exfalso.
  pose proof (find_char_in_prefix "/" ns (String "@" rest) E) as Hlt.
  rewrite <- Hb in Hlt. rewrite Hf in Hsl.
  apply orb_true_iff in Hsl as [Hsl|Hsl].
  - apply Z.eqb_eq in Hsl. lia.
  - apply Z.ltb_lt in Hsl. lia.
Qed.

Lemma split_namespace_prefix (body ns rest : string) (validate : bool) :
  namespace_prefix body ns rest ->
  split_namespace body validate
  = if validate && negb (validate_namespace ns)
    then Raise (MonikerParseError (invalid_namespace_msg ns))
    else Ok (Some ns, rest).
Proof.
  intros H. pose proof (namespace_test_true _ _ _ H) as [Hf Ht].
  unfold split_namespace. rewrite Ht, Hf.
  destruct H as (-> & _ & _).
  rewrite slice_to_app.
  replace (len ns + 1) with (len ns + len "@") by reflexivity.
  rewrite slice_from_app_sep. reflexivity.
Qed.

Lemma split_namespace_none (body : string) (validate : bool) :
  (forall ns rest, ~ namespace_prefix body ns rest) ->
  split_namespace body validate = Ok (None, body).
Proof.
  intros H. unfold split_namespace.
  destruct (negb _ && _) eqn:E; [|reflexivity].
  destruct (namespace_test_prefix body E) as (ns & rest & Hp).
  destruct (H ns rest Hp).
Qed.

(** The namespace handed to the last steps is the one returned. *)
Lemma parse_tail_namespace (ns : option string) (remaining q : string)
    (validate : bool) (m : Moniker) :
  parse_tail ns remaining q validate = Ok m -> namespace m = ns.
Proof.
  unfold parse_tail.
  destruct (split_revision remaining) as [[rev rem]|]; [|discriminate].
  cbn [bind].
  destruct (split_version rem validate) as [[ver rem']|]; [|discriminate].
  cbn [bind]. destruct (parse_path rem' validate); [|discriminate].
  cbn [bind]. intros [= <-]. reflexivity.
Qed.

(** C2. Let [body] be what the scheme step leaves of a non-empty input.
    When [body] starts with a text [ns] free of [@] and of [/] followed by
    an [@] (its first [@] comes before its first [/], or it has no [/]),
    the namespace is [ns], checked against the namespace grammar under
    [validate], and the parse goes on with the text after that [@];
    otherwise there is no namespace and the parse goes on with [body].
    So a parsed moniker has a namespace exactly in the first case, and
    "a@b/c" has namespace "a" whereas "a/b@c" has none and version "c". *)
Theorem namespace_disambiguation :
  (forall (s body q : string) (validate : bool),
      s <> "" -> split_scheme (strip s) = Ok (body, q) ->
      (forall ns rest,
          namespace_prefix body ns rest ->
          parse_moniker s validate
          = if validate && negb (validate_namespace ns)
            then Raise (MonikerParseError (invalid_namespace_msg ns))
            else parse_tail (Some ns) rest q validate)
      /\ ((forall ns rest, ~ namespace_prefix body ns rest) ->
          parse_moniker s validate = parse_tail None body q validate)
      /\ (forall m,
             parse_moniker s validate = Ok m ->
             forall ns, namespace m = Some ns
                        <-> exists rest, namespace_prefix body ns rest))
  /\ (forall validate,
         parse_moniker "a@b/c" validate
         = Ok {| path := {| segments := ["b"; "c"] |}; namespace := Some "a";
                 version := None; revision := None; params := [] |})
  /\ (forall validate,
         parse_moniker "a/b@c" validate
         = Ok {| path := {| segments := ["a"; "b"] |}; namespace := None;
                 version := Some "c"; revision := None; params := [] |}).
Proof.
  split; [|split; intros []; reflexivity].
  intros s body q validate Hs Hb.
  assert (Hyes : forall ns rest,
             namespace_prefix body ns rest ->
             parse_moniker s validate
             = if validate && negb (validate_namespace ns)
               then Raise (MonikerParseError (invalid_namespace_msg ns))
               else parse_tail (Some ns) rest q validate).
  { intros ns rest Hp. rewrite parse_moniker_nonempty, Hb by assumption.
    cbn [bind]. unfold parse_body. rewrite (split_namespace_prefix _ _ _ _ Hp).
    destruct (validate && negb (validate_namespace ns)); reflexivity. }
  assert (Hno : (forall ns rest, ~ namespace_prefix body ns rest) ->
                parse_moniker s validate = parse_tail None body q validate).
  { intros Hn. rewrite parse_moniker_nonempty, Hb by assumption.
    cbn [bind]. unfold parse_body. rewrite (split_namespace_none _ _ Hn).
    reflexivity. }
  split; [exact Hyes|split; [exact Hno|]].
  intros m Hm ns.
  destruct (negb (find "@" body =? -1)
            && ((find "/" body =? -1) || (find "@" body <? find "/" body)))
    eqn:E.
  - destruct (namespace_test_prefix body E) as (ns0 & rest0 & Hp).
    rewrite (Hyes _ _ Hp) in Hm.
    destruct (validate && negb (validate_namespace ns0)); [discriminate|].
    apply parse_tail_namespace in Hm. rewrite Hm. split.
    + intros [= <-]. exists rest0. exact Hp.
    + intros [rest Hp']. f_equal.
      pose proof (namespace_test_true _ _ _ Hp) as [H1 _].
      pose proof (namespace_test_true _ _ _ Hp') as [H2 _].
      destruct Hp as (-> & _ & _). destruct Hp' as (Hb' & _ & _).
      assert (Hl : len ns0 = len ns) by congruence.
      rewrite <- (slice_to_app ns0 ("@" ++ rest0)), Hb', Hl.
      apply slice_to_app.
  - assert (Hn : forall ns rest, ~ namespace_prefix body ns rest).
    { intros ns' rest' Hp. apply namespace_test_true in Hp as [_ Ht].
      congruence. }
    rewrite (Hno Hn) in Hm. apply parse_tail_namespace in Hm. rewrite Hm.
    split; [discriminate|]. intros [rest Hp]. destruct (Hn _ _ Hp).
Qed.

End ParserNamespace.


(** ** The regular expressions *)

Section Patterns.

Lemma ends_with_cons (c a : ascii) (s : string) :
  s <> "" -> ends_with c (String a s) = ends_with c s.
Proof. destruct s; [congruence|reflexivity]. Qed.

Lemma at_dollar_spec (s : string) :
  at_dollar s = true <-> s = "" \/ s = String LF "".
Proof.
  destruct s as [|c [|d s]]; simpl.
  - split; auto.
  - rewrite Ascii.eqb_eq. split; [intros ->; auto|intros [|[= ->]]; congruence].
  - split; [discriminate|intros [|]; discriminate].
Qed.

Lemma star_dollar_cons (cls : ascii -> bool) (c : ascii) (s : string) :
  star_dollar cls (String c s)
  = at_dollar (String c s) || (cls c && star_dollar cls s).
Proof. reflexivity. Qed.

(** A text matches [[cls]*$] when it is a run of [cls], or such a run and a
    final line feed. *)
Lemma star_dollar_all (cls : ascii -> bool) (s : string) :
  all_chars cls s = true -> star_dollar cls s = true.
Proof.
  induction s as [|c s IH]; [reflexivity|].
  simpl all_chars. intros H. apply andb_true_iff in H as [Hc Hs].
  rewrite star_dollar_cons, Hc, (IH Hs). apply orb_true_r.
Qed.

Lemma star_dollar_no_lf (cls : ascii -> bool) (s : string) :
  ends_with LF s = false -> star_dollar cls s = all_chars cls s.
Proof.
  induction s as [|c s IH]; [reflexivity|].
  intros H. rewrite star_dollar_cons. simpl all_chars.
  destruct s as [|d s].
  - simpl in H. simpl. rewrite H. destruct (cls c); reflexivity.
  - rewrite ends_with_cons in H by discriminate.
    rewrite (IH H). reflexivity.
Qed.

Lemma validate_segment_no_lf (s : string) :
  ends_with LF s = false -> validate_segment s = segment_grammar s.
Proof.
  intros H. unfold validate_segment, segment_grammar, SEGMENT_PATTERN.
  destruct s as [|c s]; [reflexivity|]. cbn [truthy negb].
  replace (star_dollar segment_rest s) with (all_chars segment_rest s).
  - destruct (Z.ltb_spec 128 (len (String c s))) as [Hl|Hl].
    + replace (len (String c s) <=? 128) with false
        by (symmetry; apply Z.leb_gt; lia).
      rewrite andb_false_r. reflexivity.
    + replace (len (String c s) <=? 128) with true
        by (symmetry; apply Z.leb_le; lia).
      rewrite andb_true_r. reflexivity.
  - destruct s as [|d s]; [reflexivity|].
    rewrite ends_with_cons in H by discriminate.
    symmetry. apply star_dollar_no_lf, H.
Qed.

Lemma VERSION_PATTERN_no_lf (v : string) :
  ends_with LF v = false -> VERSION_PATTERN v = version_grammar v.
Proof.
  intros H. unfold VERSION_PATTERN, version_grammar.
  destruct v as [|c v]; [reflexivity|]. simpl.
  destruct v as [|d v]; [reflexivity|].
  rewrite ends_with_cons in H by discriminate.
  rewrite <- (star_dollar_no_lf is_alnum _ H). reflexivity.
Qed.

Lemma ends_with_has_char (c : ascii) (s : string) :
  has_char c s = false -> ends_with c s = false.
Proof.
  induction s as [|a s IH]; [reflexivity|].
  rewrite has_char_cons. intros H. apply orb_false_iff in H as [Ha Hs].
  destruct s as [|d s]; [exact Ha|].
  rewrite ends_with_cons by discriminate. exact (IH Hs).
Qed.

End Patterns.

(** ** The parser: revision and version *)

Section ParserSuffixes.
Context {U : Url.UrlLib}.

(** The last occurrence of ["/v"]. *)
Lemma rfind_slash_v (before frag : string) :
  contains "/v" frag = false ->
  rfind "/v" (before ++ "/v" ++ frag) = len before.
Proof.
  intros H. rewrite contains_rfind in H. apply Z.leb_gt in H.
  assert (H0 : rfind "/v" ("/v" ++ frag) = 0).
  { simpl append. rewrite !rfind_cons.
    destruct (Z.leb_spec 0 (rfind "/v" frag)); [lia|]. reflexivity. }
  rewrite rfind_app_found; lia.
Qed.

Lemma split_revision_absent (remaining : string) :
  contains "/v" remaining = false ->
  split_revision remaining = Ok (None, remaining).
Proof. intros H. unfold split_revision. rewrite H. reflexivity. Qed.

(** The revision step at the last ["/v"]. *)
Lemma split_revision_last (before frag : string) :
  contains "/v" frag = false ->
  split_revision (before ++ "/v" ++ frag)
  = match revision_match frag with
    | Some digits =>
        let* revision := int_of_digits digits in Ok (Some revision, before)
    | None => Ok (None, before ++ "/v" ++ frag)
    end.
Proof.
  intros H. unfold split_revision, rsplit1.
  rewrite contains_rfind, (rfind_slash_v _ _ H).
  pose proof (len_nonneg before).
  destruct (Z.leb_spec 0 (len before)); [|lia].
  destruct (Z.ltb_spec (len before) 0); [lia|].
  rewrite slice_to_app, slice_from_app_sep. reflexivity.
Qed.

Lemma span_digits (d rest : string) :
  all_chars is_digit d = true ->
  match rest with String c _ => is_digit c | "" => false end = false ->
  span is_digit (d ++ rest) = (d, rest).
Proof.
  intros Hd Hr. induction d as [|c d IH].
  - destruct rest as [|c rest]; [reflexivity|]. simpl in *. rewrite Hr. reflexivity.
  - simpl in Hd. apply andb_true_iff in Hd as [Hc Hd].
    simpl. rewrite Hc, (IH Hd). reflexivity.
Qed.

Lemma span_spec (p : ascii -> bool) (s : string) :
  let (a, b) := span p s in
  s = a ++ b /\ all_chars p a = true
  /\ match b with String c _ => p c | "" => false end = false.
Proof.
  induction s as [|c s IH]; [repeat split|].
  simpl. destruct (p c) eqn:E.
  - destruct (span p s) as [a b]. destruct IH as (-> & Ha & Hb).
    simpl. rewrite E, Ha. repeat split. exact Hb.
  - repeat split. exact E.
Qed.

(** The fragment after ["/v"] is a revision when it is a non-empty run of
    digits, followed by nothing, by a line feed that ends the text, or by a
    question mark. *)
Lemma revision_match_spec (frag digits : string) :
  revision_match frag = Some digits
  <-> digits <> "" /\ all_chars is_digit digits = true
      /\ (frag = digits \/ frag = digits ++ String LF ""
          \/ exists t, frag = digits ++ "?" ++ t).
Proof.
  split.
  - unfold revision_match. pose proof (span_spec is_digit frag) as Hs.
    destruct (span is_digit frag) as [d rest]. destruct Hs as (-> & Hd & Hr).
    destruct (truthy d) eqn:Ht; [|discriminate]. cbn [andb].
    destruct (at_dollar rest || startswith rest "?") eqn:E; [|discriminate].
    intros [= <-]. apply truthy_true in Ht. split; [exact Ht|]. split; [exact Hd|].
    apply orb_true_iff in E as [E|E].
    + apply at_dollar_spec in E as [->| ->];
        [left; apply append_nil_r|right; left; reflexivity].
    + apply startswith_spec in E as [t ->]. right; right. exists t. reflexivity.
  - intros (Hne & Hd & Hf).
    assert (Ht : exists tail,
               frag = digits ++ tail
               /\ match tail with String c _ => is_digit c | "" => false end = false
               /\ (at_dollar tail || startswith tail "?") = true).
    { destruct Hf as [Hf|[Hf|[t Hf]]].
      - exists "". rewrite append_nil_r. repeat split. exact Hf.
      - exists (String LF ""). repeat split. exact Hf.
      - exists ("?" ++ t). split; [exact Hf|]. split; [reflexivity|].
        simpl. apply orb_true_r. }
    destruct Ht as (tail & -> & Hr & Hok).
    unfold revision_match. rewrite (span_digits _ _ Hd Hr), Hok.
    apply truthy_true in Hne. rewrite Hne. reflexivity.
Qed.

(** C3, where the code departs from it. The body "a/v2" followed by a line
    feed (the input goes on with "?x=1", so that stripping leaves the line
    feed in place) has the fragment "2" and a line feed after its last "/v":
    not a run of digits up to the end of the text. The code nevertheless
    takes it as revision 2 and parses the path "a", because [$] also matches
    before a final line feed. *)
Theorem revision_accepts_final_line_feed (validate : bool) :
  let input := "a/v2" ++ String LF "" ++ "?x=1" in
  split_scheme (strip input) = Ok ("a/v2" ++ String LF "", "x=1")
  /\ all_chars is_digit ("2" ++ String LF "") = false
  /\ split_revision ("a/v2" ++ String LF "") = Ok (Some 2, "a")
  /\ parse_moniker input validate
     = Ok {| path := {| segments := ["a"] |}; namespace := None;
             version := None; revision := Some 2;
             params := parse_params "x=1" |}.
Proof.
  cbv zeta. split; [reflexivity|]. split; [reflexivity|]. split; [reflexivity|].
  destruct validate; reflexivity.
Qed.

(** The version step at the last [@], when it follows the last [/]. *)
Lemma rfind_char_app_other (d : ascii) (a b : string) :
  has_char d b = false -> rfind (String d "") (a ++ b) = rfind (String d "") a.
Proof.
  intros H. induction a as [|x a IH].
  - simpl append. rewrite (rfind_char_absent _ _ H). reflexivity.
  - simpl append. rewrite !rfind_cons, IH, !startswith_char. reflexivity.
Qed.

Lemma rfind_char_lt (d : ascii) (a : string) : rfind (String d "") a < len a \/ a = "".
Proof.
  destruct a as [|x a]; [right; reflexivity|left].
  pose proof (rfind_range (String d "") (String x a)) as Hr.
  destruct (Z.leb_spec 0 (rfind (String d "") (String x a))) as [H|H].
  - destruct (rfind_char_split d _ H) as (a1 & a2 & -> & _ & ->).
    rewrite len_app, len_cons. pose proof (len_nonneg a2). lia.
  - rewrite len_cons. pose proof (len_nonneg a). lia.
Qed.

Lemma split_version_suffix (pre v : string) (validate : bool) :
  has_char "@" v = false -> has_char "/" v = false ->
  split_version (pre ++ "@" ++ v) validate
  = if validate && truthy v && negb (VERSION_PATTERN v)
    then Raise (MonikerParseError (invalid_version_msg v))
    else Ok (Some v, pre).
Proof.
  intros Hat Hsl. unfold split_version.
  rewrite contains_char, has_char_app. simpl append at 1.
  rewrite has_char_cons. cbn [Ascii.eqb Bool.eqb andb orb]. rewrite orb_true_r.
  simpl append. rewrite (rfind_char_app "@" pre v Hat).
  replace (String "@" v) with ("@" ++ v) by reflexivity.
  rewrite <- append_assoc, (rfind_char_app_other "/" (pre ++ "@") v Hsl).
  assert (Hlt : rfind "/" (pre ++ "@") < len pre).
  { pose proof (rfind_range "/" pre).
    destruct pre as [|x pre]; [reflexivity|].
    replace (rfind "/" (String x pre ++ "@")) with (rfind "/" (String x pre)).
    - destruct (rfind_char_lt "/" (String x pre)); [assumption|discriminate].
    - symmetry. apply rfind_char_app_other. reflexivity. }
  destruct (Z.ltb_spec (rfind "/" (pre ++ "@")) (len pre)); [|lia].
  rewrite append_assoc.
  replace (len pre + 1) with (len pre + len "@") by reflexivity.
  rewrite slice_from_app_sep, slice_to_app. reflexivity.
Qed.

End ParserSuffixes.


Section ParserVersion.
Context {U : Url.UrlLib}.

Lemma version_grammar_false (v : string) :
  v <> "" -> all_chars is_alnum v = false -> version_grammar v = false.
Proof. intros _ H. unfold version_grammar. rewrite H. apply andb_false_r. Qed.

(** C4, as the code has it. Take a non-empty input whose namespace step
    succeeds under validation and whose text after the revision step ends
    in an [@] and a text [v] free of [@] and [/].  When [v] is not empty,
    does not end in a line feed and is not a run of alphanumerics, parsing
    with validation raises the invalid-version error.  When [v] is empty
    the version check is skipped: the moniker is accepted with the empty
    version, provided its path is.  So "a/b@1.0" is refused and "a/b@" is
    accepted. *)
Theorem version_grammar_rejection :
  (forall (s body q rem0 pre v : string) (ns : option string) (rev : option Z),
      s <> "" -> split_scheme (strip s) = Ok (body, q) ->
      split_namespace body true = Ok (ns, rem0) ->
      split_revision rem0 = Ok (rev, pre ++ "@" ++ v) ->
      has_char "@" v = false -> has_char "/" v = false ->
      (v <> "" -> ends_with LF v = false -> all_chars is_alnum v = false ->
       parse_moniker s true = Raise (MonikerParseError (invalid_version_msg v)))
      /\ (v = "" ->
          parse_moniker s true
          = (let* p := parse_path pre true in
             Ok {| path := p; namespace := ns; version := Some "";
                   revision := rev; params := parse_params q |})))
  /\ parse_moniker "a/b@1.0" true
     = Raise (MonikerParseError (invalid_version_msg "1.0"))
  /\ parse_moniker "a/b@" true
     = Ok {| path := {| segments := ["a"; "b"] |}; namespace := None;
             version := Some ""; revision := None; params := [] |}.
Proof.
  split; [|split; reflexivity].
  intros s body q rem0 pre v ns rev Hs Hb Hns Hrev Hat Hsl.
  assert (Hp : parse_moniker s true
               = (let* (version, remaining) :=
                    (if true && truthy v && negb (VERSION_PATTERN v)
                     then Raise (MonikerParseError (invalid_version_msg v))
                     else Ok (Some v, pre)) in
                  let* p := parse_path remaining true in
                  Ok {| path := p; namespace := ns; version := version;
                        revision := rev; params := parse_params q |})).
  { rewrite parse_moniker_nonempty, Hb by assumption. cbn [bind].
    unfold parse_body. rewrite Hns. cbn [bind]. unfold parse_tail.
    rewrite Hrev. cbn [bind].
    rewrite (split_version_suffix pre v true Hat Hsl). reflexivity. }
  split.
  - intros Hne Hlf Hal. rewrite Hp.
    rewrite (VERSION_PATTERN_no_lf v Hlf), (version_grammar_false v Hne Hal).
    apply truthy_true in Hne. rewrite Hne. reflexivity.
  - intros ->. rewrite Hp. reflexivity.
Qed.

End ParserVersion.

(** ** The builder *)

Section Builder.

Lemma check_segments_find (segs : list string) :
  check_segments segs
  = match List.find (fun seg => negb (validate_segment seg)) segs with
    | Some seg => Raise (MonikerParseError (invalid_segment_msg seg))
    | None => Ok tt
    end.
Proof.
  induction segs as [|seg segs IH]; [reflexivity|].
  simpl. destruct (negb (validate_segment seg)); [reflexivity|exact IH].
Qed.

Lemma parse_path_clean (p : string) (validate : bool) :
  parse_path p validate
  = (let clean := strip_char "/" p in
     if negb (truthy clean) then Ok root
     else
       let* _ := (if validate then check_segments (split "/" clean) else Ok tt) in
       Ok {| segments := split "/" clean |}).
Proof.
  unfold parse_path. destruct (negb (truthy p) || String.eqb p "/") eqn:E;
    [|reflexivity].
  apply orb_true_iff in E as [E|E].
  - apply negb_true_iff, truthy_false in E. subst. reflexivity.
  - apply String.eqb_eq in E. subst. reflexivity.
Qed.

Lemma find_none_forall (segs : list string) :
  List.find (fun seg => negb (validate_segment seg)) segs = None ->
  Forall (fun seg => validate_segment seg = true) segs.
Proof.
  intros H. apply Forall_forall. intros seg Hin.
  pose proof (find_none _ _ H seg Hin) as Hn. simpl in Hn.
  apply negb_false_iff in Hn. exact Hn.
Qed.

(** The characters of the pieces are characters of the whole. *)
Lemma has_char_lstrip (p : ascii -> bool) (d : ascii) (s : string) :
  has_char d s = false -> has_char d (lstrip p s) = false.
Proof.
  induction s as [|c s IH]; [reflexivity|].
  intros H. simpl. destruct (p c); [|exact H].
  rewrite has_char_cons in H. apply orb_false_iff in H as [_ H]. exact (IH H).
Qed.

Lemma has_char_rstrip (p : ascii -> bool) (d : ascii) (s : string) :
  has_char d s = false -> has_char d (rstrip p s) = false.
Proof.
  induction s as [|c s IH]; [reflexivity|].
  rewrite has_char_cons. intros H. apply orb_false_iff in H as [Hc Hs].
  specialize (IH Hs). simpl. destruct (rstrip p s) as [|x r].
  - destruct (p c); [reflexivity|]. rewrite has_char_cons, Hc. reflexivity.
  - rewrite has_char_cons, Hc, IH. reflexivity.
Qed.

Lemma has_char_split (c d : ascii) (s seg : string) :
  has_char d s = false -> In seg (split c s) -> has_char d seg = false.
Proof.
  revert seg. induction s as [|a s IH]; intros seg H Hin.
  - simpl in Hin. destruct Hin as [<-|[]]. reflexivity.
  - rewrite has_char_cons in H. apply orb_false_iff in H as [Ha Hs].
    simpl in Hin. destruct (Ascii.eqb a c).
    + destruct Hin as [<-|Hin]; [reflexivity|]. exact (IH seg Hs Hin).
    + destruct (split c s) as [|w ws] eqn:E.
      * destruct Hin as [<-|[]]. rewrite has_char_cons, Ha. reflexivity.
      * destruct Hin as [<-|Hin].
        -- rewrite has_char_cons, Ha. apply (IH w Hs). left. reflexivity.
        -- apply (IH seg Hs). right. exact Hin.
Qed.

(** C5, as the code has it. [build_moniker] validates the path and nothing
    else: it returns the root for a path that is empty once its outer
    slashes are stripped, raises the invalid-segment error for the first
    segment that fails [validate_segment], and otherwise returns the
    segments with the namespace, version, revision and parameters exactly as
    given.  Every segment of a returned moniker passes [validate_segment],
    and when the path text holds no line feed every segment matches the
    segment grammar. *)
Theorem build_validates_path_only (path : string) (ns ver : option string)
    (rev : option Z) (ps : QueryParams) :
  build_moniker path ns ver rev ps
  = (let clean := strip_char "/" path in
     if negb (truthy clean)
     then Ok {| Types.path := root; namespace := ns; version := ver;
                revision := rev; params := ps |}
     else match List.find (fun seg => negb (validate_segment seg))
                  (split "/" clean) with
          | Some seg => Raise (MonikerParseError (invalid_segment_msg seg))
          | None => Ok {| Types.path := {| segments := split "/" clean |};
                          namespace := ns; version := ver; revision := rev;
                          params := ps |}
          end)
  /\ (forall m : Moniker,
         build_moniker path ns ver rev ps = Ok m ->
         namespace m = ns /\ version m = ver /\ revision m = rev
         /\ params m = ps
         /\ Forall (fun seg => validate_segment seg = true)
              (segments (Types.path m))
         /\ (has_char LF path = false ->
             Forall (fun seg => segment_grammar seg = true)
               (segments (Types.path m)))).
Proof.
  assert (Heq : build_moniker path ns ver rev ps
                = (let clean := strip_char "/" path in
                   if negb (truthy clean)
                   then Ok {| Types.path := root; namespace := ns; version := ver;
                              revision := rev; params := ps |}
                   else match List.find (fun seg => negb (validate_segment seg))
                                (split "/" clean) with
                        | Some seg =>
                            Raise (MonikerParseError (invalid_segment_msg seg))
                        | None =>
                            Ok {| Types.path := {| segments := split "/" clean |};
                                  namespace := ns; version := ver;
                                  revision := rev; params := ps |}
                        end)).
  { unfold build_moniker. rewrite parse_path_clean. cbv zeta.
    destruct (negb (truthy (strip_char "/" path)));
      [destruct ps; reflexivity|].
    rewrite check_segments_find.
    destruct (List.find _ _); destruct ps; reflexivity. }
  split; [exact Heq|].
  intros m Hm. rewrite Heq in Hm. cbv zeta in Hm.
  destruct (negb (truthy (strip_char "/" path))).
  - injection Hm as <-. simpl. repeat split; constructor.
  - destruct (List.find _ _) eqn:E; [discriminate|].
    injection Hm as <-. simpl.
    pose proof (find_none_forall _ E) as Hv.
    repeat split; [exact Hv|]. intros Hlf.
    apply Forall_forall. intros seg Hin.
    rewrite <- validate_segment_no_lf.
    + rewrite Forall_forall in Hv. exact (Hv seg Hin).
    + apply ends_with_has_char. eapply has_char_split; [|exact Hin].
      unfold strip_char, strip_by. apply has_char_rstrip, has_char_lstrip, Hlf.
Qed.

End Builder.


(** ** Character classes *)

Section CharacterClasses.

Ltac by_cases c :=
  destruct c as [[] [] [] [] [] [] [] []]; cbv; intros;
  first [reflexivity | discriminate].

Lemma digit_is_safe (c : ascii) : is_digit c = true -> safe_char c = true.
Proof. by_cases c. Qed.

Lemma alnum_is_safe (c : ascii) : is_alnum c = true -> safe_char c = true.
Proof. by_cases c. Qed.

Lemma segment_rest_is_safe (c : ascii) : segment_rest c = true -> safe_char c = true.
Proof. by_cases c. Qed.

Lemma namespace_rest_is_safe (c : ascii) :
  namespace_rest c = true -> safe_char c = true.
Proof. by_cases c. Qed.

Lemma alpha_is_alnum (c : ascii) : is_alpha c = true -> is_alnum c = true.
Proof. by_cases c. Qed.

Lemma alnum_is_segment_rest (c : ascii) : is_alnum c = true -> segment_rest c = true.
Proof. by_cases c. Qed.

Lemma safe_is_body (c : ascii) : safe_char c = true -> body_char c = true.
Proof. by_cases c. Qed.

Lemma safe_is_query (c : ascii) : safe_char c = true -> query_char c = true.
Proof. by_cases c. Qed.

Lemma body_not_space (c : ascii) : body_char c = true -> negb (is_space c) = true.
Proof. by_cases c. Qed.

Lemma query_not_space (c : ascii) : query_char c = true -> negb (is_space c) = true.
Proof. by_cases c. Qed.

Lemma body_not_unsafe (c : ascii) :
  body_char c = true -> negb (Url.unsafe_url_char c) = true.
Proof. by_cases c. Qed.

Lemma query_not_unsafe (c : ascii) :
  query_char c = true -> negb (Url.unsafe_url_char c) = true.
Proof. by_cases c. Qed.

End CharacterClasses.


(** ** Stripping, splitting and joining *)

Section StripSplitJoin.

Lemma lstrip_id (p : ascii -> bool) (s : string) :
  match s with String c _ => p c | "" => false end = false -> lstrip p s = s.
Proof. destruct s as [|c s]; simpl; [reflexivity|]. intros ->. reflexivity. Qed.

Lemma rstrip_id (p : ascii -> bool) (s : string) :
  all_chars (fun c => negb (p c)) s = true -> rstrip p s = s.
Proof.
  induction s as [|c s IH]; [reflexivity|].
  simpl. intros H. apply andb_true_iff in H as [Hc Hs].
  rewrite (IH Hs). apply negb_true_iff in Hc. rewrite Hc.
  destruct s; reflexivity.
Qed.

Lemma strip_by_id (p : ascii -> bool) (s : string) :
  all_chars (fun c => negb (p c)) s = true -> strip_by p s = s.
Proof.
  intros H. unfold strip_by. rewrite lstrip_id; [apply rstrip_id, H|].
  destruct s as [|c s]; [reflexivity|]. simpl in H.
  apply andb_true_iff in H as [Hc _]. apply negb_true_iff, Hc.
Qed.

Lemma remove_chars_id (p : ascii -> bool) (s : string) :
  all_chars (fun c => negb (p c)) s = true -> remove_chars p s = s.
Proof.
  induction s as [|c s IH]; [reflexivity|].
  simpl. intros H. apply andb_true_iff in H as [Hc Hs].
  apply negb_true_iff in Hc. rewrite Hc, (IH Hs). reflexivity.
Qed.

Lemma replace_char_id (c d : ascii) (s : string) :
  has_char c s = false -> replace_char c d s = s.
Proof.
  induction s as [|a s IH]; [reflexivity|].
  rewrite has_char_cons. intros H. apply orb_false_iff in H as [Ha Hs].
  simpl. rewrite Ha, (IH Hs). reflexivity.
Qed.

(** [split] undoes [join] on pieces free of the separator. *)
Lemma split_absent (c : ascii) (s : string) :
  has_char c s = false -> split c s = [s].
Proof.
  induction s as [|a s IH]; [reflexivity|].
  rewrite has_char_cons. intros H. apply orb_false_iff in H as [Ha Hs].
  simpl. rewrite Ha, (IH Hs). reflexivity.
Qed.

Lemma split_app_sep (c : ascii) (a b : string) :
  has_char c a = false -> split c (a ++ String c b) = a :: split c b.
Proof.
  induction a as [|x a IH]; intros H.
  - simpl. rewrite Ascii.eqb_refl. reflexivity.
  - rewrite has_char_cons in H. apply orb_false_iff in H as [Hx Ha].
    simpl. rewrite Hx, (IH Ha). reflexivity.
Qed.

Lemma join_cons (sep x : string) (y : string) (l : list string) :
  join sep (x :: y :: l) = x ++ sep ++ join sep (y :: l).
Proof. reflexivity. Qed.

Lemma sep_app (c : ascii) (b : string) : String c "" ++ b = String c b.
Proof. reflexivity. Qed.

Lemma split_join (c : ascii) (l : list string) :
  l <> [] ->
  Forall (fun s => has_char c s = false) l ->
  split c (join (String c "") l) = l.
Proof.
  intros Hne H. induction H as [|x l Hx Hl IH]; [congruence|].
  destruct l as [|y l].
  - simpl. apply split_absent, Hx.
  - rewrite join_cons, sep_app.
    rewrite (split_app_sep c x _ Hx), IH by discriminate. reflexivity.
Qed.

Lemma split_nonempty (c : ascii) (s : string) : split c s <> [].
Proof.
  destruct s as [|a s]; simpl; [discriminate|].
  destruct (Ascii.eqb a c); [discriminate|].
  destruct (split c s); discriminate.
Qed.

Lemma split_app_any (c : ascii) (a b : string) :
  split c (a ++ String c b) = (split c a ++ split c b)%list.
Proof.
  induction a as [|x a IH]; simpl.
  - rewrite Ascii.eqb_refl. reflexivity.
  - destruct (Ascii.eqb x c); rewrite IH; [reflexivity|].
    pose proof (split_nonempty c a) as Hn.
    destruct (split c a) as [|w ws]; [congruence|reflexivity].
Qed.

Lemma all_chars_join (p : ascii -> bool) (sep : string) (l : list string) :
  all_chars p sep = true ->
  Forall (fun s => all_chars p s = true) l ->
  all_chars p (join sep l) = true.
Proof.
  intros Hsep H. induction H as [|x l Hx Hl IH]; [reflexivity|].
  destruct l as [|y l]; [exact Hx|].
  rewrite join_cons, !all_chars_app, Hx, Hsep, IH. reflexivity.
Qed.

Lemma join_nonempty (sep x : string) (l : list string) :
  x <> "" -> join sep (x :: l) <> "".
Proof.
  intros Hx. destruct l as [|y l]; [exact Hx|].
  rewrite join_cons. destruct x; [congruence|discriminate].
Qed.

(** The last piece of a joined text is what follows its last separator. *)
Lemma join_last (c : ascii) (l : list string) (before t : string) :
  l <> [] ->
  Forall (fun s => has_char c s = false) l ->
  join (String c "") l = before ++ String c t ->
  has_char c t = false ->
  List.last l "" = t /\ (2 <= List.length l)%nat.
Proof.
  intros Hne H E Ht.
  pose proof (split_join c l Hne H) as Hs.
  rewrite E, split_app_any, (split_absent c t Ht) in Hs.
  rewrite <- Hs. split.
  - apply last_last.
  - rewrite length_app. simpl.
    pose proof (split_nonempty c before).
    destruct (split c before); [congruence|simpl; lia].
Qed.

End StripSplitJoin.


(** ** Integers and their text *)

Section IntegerText.

Lemma string_of_uint_digits (u : Decimal.uint) :
  all_chars is_digit (NilEmpty.string_of_uint u) = true.
Proof. induction u; simpl; try reflexivity; exact IHu. Qed.

Lemma to_int_nonneg (r : Z) :
  0 <= r -> exists u, Z.to_int r = Decimal.Pos u /\ u <> Decimal.Nil.
Proof.
  destruct r as [|p|p]; intros H.
  - exists (Decimal.D0 Decimal.Nil). split; [reflexivity|discriminate].
  - exists (Pos.to_uint p). split; [reflexivity|].
    apply DecimalPos.Unsigned.to_uint_nonnil.
  - lia.
Qed.

(** The text of an integer that is not negative is a non-empty run of
    digits, and reads back as that integer. *)
Lemma decimal_text_digits (r : Z) :
  0 <= r -> all_chars is_digit (decimal_text r) = true /\ decimal_text r <> "".
Proof.
  intros H. destruct (to_int_nonneg r H) as (u & Hu & Hn).
  unfold decimal_text. rewrite Hu. simpl. unfold NilZero.string_of_uint.
  destruct u; try congruence; split;
    try (apply (string_of_uint_digits (_ u))); simpl; discriminate.
Qed.

Lemma decimal_value_text (r : Z) : 0 <= r -> decimal_value (decimal_text r) = r.
Proof.
  intros H. destruct (to_int_nonneg r H) as (u & Hu & Hn).
  unfold decimal_value, decimal_text. rewrite Hu. simpl.
  rewrite (NilZero.usu u Hn).
  change (Z.of_uint u) with (Z.of_int (Decimal.Pos u)).
  rewrite <- Hu. apply DecimalZ.of_to.
Qed.

Lemma revision_match_decimal (r : Z) :
  0 <= r -> revision_match (decimal_text r) = Some (decimal_text r).
Proof.
  intros H. destruct (decimal_text_digits r H) as [Hd Hn].
  apply revision_match_spec. auto.
Qed.

(** A run of digits is the text of a decimal number, leading zeros
    included. *)
Lemma digits_uint (t : string) :
  all_chars is_digit t = true ->
  exists u, NilEmpty.uint_of_string t = Some u.
Proof.
  induction t as [|c t IH]; [exists Decimal.Nil; reflexivity|].
  simpl all_chars. intros H. apply andb_true_iff in H as [Hc Ht].
  destruct (IH Ht) as [u Hu]. cbn [NilEmpty.uint_of_string]. rewrite Hu.
  destruct c as [[] [] [] [] [] [] [] []]; try discriminate Hc;
    eexists; reflexivity.
Qed.

Lemma length_string_of_uint (u : Decimal.uint) :
  String.length (NilEmpty.string_of_uint u) = Decimal.nb_digits u.
Proof. induction u; simpl; congruence. Qed.

(** The text of the number that a run of digits denotes is the run without
    its leading zeros. *)
Lemma decimal_text_value (t : string) :
  all_chars is_digit t = true -> t <> "" ->
  exists u,
    t = NilEmpty.string_of_uint u /\ u <> Decimal.Nil
    /\ decimal_text (decimal_value t) = NilEmpty.string_of_uint (Decimal.unorm u).
Proof.
  intros Hd Hne. destruct (digits_uint t Hd) as [u Hu].
  pose proof (NilEmpty.sus t u Hu) as Ht.
  assert (Hnil : u <> Decimal.Nil) by (intros ->; simpl in Ht; congruence).
  exists u. split; [symmetry; exact Ht|]. split; [exact Hnil|].
  unfold decimal_value, decimal_text.
  assert (Hz : NilZero.uint_of_string t = Some u)
    by (destruct t; [congruence|exact Hu]).
  rewrite Hz. unfold Z.of_uint.
  assert (Hto : Z.to_int (Z.of_N (Pos.of_uint u)) = Decimal.Pos (Decimal.unorm u)).
  { rewrite <- DecimalPos.Unsigned.to_of. destruct (Pos.of_uint u); reflexivity. }
  rewrite Hto. cbn [NilZero.string_of_int].
  unfold NilZero.string_of_uint, Decimal.unorm.
  destruct (Decimal.nzhead u); reflexivity.
Qed.

Lemma decimal_value_nonneg (d : string) : 0 <= decimal_value d.
Proof.
  unfold decimal_value. destruct (NilZero.uint_of_string d) as [u|]; [|lia].
  unfold Z.of_uint. apply N2Z.is_nonneg.
Qed.

(** The number read from a run of digits has no more digits than the run. *)
Lemma decimal_value_length (t : string) :
  all_chars is_digit t = true -> t <> "" ->
  len (decimal_text (decimal_value t)) <= len t.
Proof.
  intros Hd Hne. destruct (decimal_text_value t Hd Hne) as (u & Ht & Hnil & ->).
  rewrite Ht. unfold len. rewrite !length_string_of_uint.
  apply inj_le, DecimalFacts.nb_digits_unorm, Hnil.
Qed.

Lemma int_of_digits_short (s : string) :
  len s <= MAX_STR_DIGITS -> int_of_digits s = Ok (decimal_value s).
Proof.
  intros H. unfold int_of_digits.
  destruct (Z.ltb_spec MAX_STR_DIGITS (len s)); [lia|reflexivity].
Qed.

Lemma int_of_digits_long (s : string) :
  MAX_STR_DIGITS < len s -> int_of_digits s = Raise ValueError.
Proof.
  intros H. unfold int_of_digits.
  destruct (Z.ltb_spec MAX_STR_DIGITS (len s)); [reflexivity|lia].
Qed.

Lemma int_of_digits_raises (s : string) (e : exn) :
  int_of_digits s = Raise e -> e = ValueError /\ MAX_STR_DIGITS < len s.
Proof.
  unfold int_of_digits. destruct (Z.ltb_spec MAX_STR_DIGITS (len s)) as [H|H];
    [intros [= <-]; auto|discriminate].
Qed.

(** What [int] reads from a run of digits can be printed. *)
Lemma int_of_digits_fits (s : string) (r : Z) :
  all_chars is_digit s = true -> s <> "" ->
  int_of_digits s = Ok r -> 0 <= r /\ fits r = true.
Proof.
  intros Hd Hne. unfold int_of_digits.
  destruct (Z.ltb_spec MAX_STR_DIGITS (len s)) as [H|H]; [discriminate|].
  intros [= <-]. pose proof (decimal_value_nonneg s) as Hn.
  split; [exact Hn|]. unfold fits. rewrite Z.abs_eq by exact Hn.
  apply Z.leb_le. pose proof (decimal_value_length s Hd Hne). lia.
Qed.

(** A run of digits that does not start with a zero is the text of the
    number it denotes. *)
Lemma decimal_value_canonical (t : string) :
  all_chars is_digit t = true ->
  match t with String c _ => negb (Ascii.eqb c "0") | "" => false end = true ->
  decimal_text (decimal_value t) = t.
Proof.
  intros Hd Hc. assert (Hne : t <> "") by (intros ->; discriminate).
  destruct (decimal_text_value t Hd Hne) as (u & Ht & Hnil & ->).
  rewrite Ht in Hc. rewrite Ht. f_equal.
  destruct u; try reflexivity; [congruence|discriminate Hc].
Qed.

Lemma fits_decimal_value (t : string) :
  all_chars is_digit t = true ->
  match t with String c _ => negb (Ascii.eqb c "0") | "" => false end = true ->
  fits (decimal_value t) = (len t <=? MAX_STR_DIGITS).
Proof.
  intros Hd Hc. unfold fits.
  rewrite Z.abs_eq by apply decimal_value_nonneg.
  rewrite (decimal_value_canonical t Hd Hc). reflexivity.
Qed.

(** A number that fits, printed and read back. *)
Lemma int_of_digits_decimal_text (r : Z) :
  0 <= r -> fits r = true -> int_of_digits (decimal_text r) = Ok r.
Proof.
  intros Hr Hf. unfold fits in Hf. rewrite Z.abs_eq in Hf by exact Hr.
  apply Z.leb_le in Hf. rewrite int_of_digits_short by exact Hf.
  rewrite decimal_value_text by exact Hr. reflexivity.
Qed.

End IntegerText.


(** ** urlparse on a canonical text *)

Section UrlFacts.
Context {U : Url.UrlLib}.

Lemma break_spec (p : ascii -> bool) (s : string) :
  let (n, r) := Url.break p s in
  s = n ++ r /\ all_chars (fun c => negb (p c)) n = true.
Proof.
  induction s as [|c s IH]; [split; reflexivity|].
  simpl. destruct (p c) eqn:E; [split; reflexivity|].
  destruct (Url.break p s) as [a b]. destruct IH as [-> Ha].
  simpl. rewrite E, Ha. split; reflexivity.
Qed.

(** A prefix free of [c] of a text whose first [c] is known stops before
    that [c]. *)
Lemma app_eq_app_absent (c : ascii) (a b n r : string) :
  a ++ String c b = n ++ r -> has_char c n = false ->
  exists r1, r = r1 ++ String c b /\ a = n ++ r1.
Proof.
  revert a. induction n as [|x n IH]; intros a E H.
  - exists a. split; [symmetry; exact E|reflexivity].
  - rewrite has_char_cons in H. apply orb_false_iff in H as [Hx Hn].
    destruct a as [|y a]; simpl in E; injection E as Ey E.
    + subst. rewrite Ascii.eqb_refl in Hx. discriminate.
    + subst. destruct (IH a E Hn) as (r1 & -> & ->). exists r1. split; reflexivity.
Qed.

Lemma split_at_absent (c : ascii) (s : string) :
  has_char c s = false -> Url.split_at (String c "") s = (s, "").
Proof.
  intros H. unfold Url.split_at, split1.
  rewrite (find_char_absent c s H). reflexivity.
Qed.

Lemma split_at_present (c : ascii) (a b : string) :
  has_char c a = false -> Url.split_at (String c "") (a ++ String c b) = (a, b).
Proof.
  intros H. unfold Url.split_at, split1.
  rewrite (find_char_app c a b H). pose proof (len_nonneg a).
  destruct (Z.ltb_spec (len a) 0); [lia|].
  rewrite slice_to_app. rewrite <- sep_app, slice_from_app_sep. reflexivity.
Qed.

Lemma drop_scheme_moniker (x : string) :
  Url.drop_scheme ("moniker://" ++ x) = "//" ++ x.
Proof.
  unfold Url.drop_scheme.
  assert (Hf : find ":" ("moniker://" ++ x) = 7) by reflexivity.
  rewrite Hf.
  change ("moniker://" ++ x) with ("moniker" ++ ("://" ++ x)) at 2.
  change 7 with (len "moniker") at 2. rewrite slice_to_app.
  change ("moniker://" ++ x) with ("moniker:" ++ ("//" ++ x)) at 2.
  change (7 + 1) with (len "moniker:"). rewrite slice_from_app.
  reflexivity.
Qed.

Lemma body_char_absent (c : ascii) (s : string) :
  all_chars body_char s = true -> body_char c = false -> has_char c s = false.
Proof. apply all_chars_has_char. Qed.

Lemma query_char_absent (c : ascii) (s : string) :
  all_chars query_char s = true -> query_char c = false -> has_char c s = false.
Proof. apply all_chars_has_char. Qed.

(** [urlparse] gives back the body and the query of a canonical text. *)
Lemma urlparse_canonical (base qs : string) (has_query : bool) :
  all_chars body_char base = true -> all_chars query_char qs = true ->
  exists p,
    Url.urlparse ("moniker://" ++ base ++ (if has_query then "?" ++ qs else ""))
    = Ok p
    /\ Url.netloc p ++ Url.path p = base
    /\ Url.query p = (if has_query then qs else "").
Proof.
  intros Hb Hq. set (tail := if has_query then "?" ++ qs else "").
  assert (Htail : forall c, body_char c = false -> query_char c = false ->
                            Ascii.eqb "?" c = false ->
                            has_char c (base ++ tail) = false).
  { intros c H1 H2 H3. rewrite has_char_app, (body_char_absent c base Hb H1).
    subst tail. destruct has_query; [|reflexivity].
    rewrite <- sep_app at 1. simpl append. rewrite has_char_cons, H3.
    apply (query_char_absent c qs Hq H2). }
  unfold Url.urlparse.
  assert (H1 : lstrip Url.c0_or_space ("moniker://" ++ base ++ tail)
               = "moniker://" ++ base ++ tail) by reflexivity.
  rewrite H1.
  rewrite remove_chars_id.
  2:{ rewrite all_chars_app. apply andb_true_iff. split; [reflexivity|].
      rewrite all_chars_app. apply andb_true_iff. split.
      - apply (all_chars_impl body_char); [apply body_not_unsafe|exact Hb].
      - subst tail. destruct has_query; [|reflexivity].
        simpl. apply (all_chars_impl query_char); [apply query_not_unsafe|exact Hq]. }
  rewrite drop_scheme_moniker. unfold Url.split_netloc.
  assert (H2 : startswith ("//" ++ base ++ tail) "//" = true) by reflexivity.
  rewrite H2. change 2 with (len "//"). rewrite slice_from_app.
  pose proof (break_spec Url.netloc_end (base ++ tail)) as Hbr.
  destruct (Url.break Url.netloc_end (base ++ tail)) as [n r].
  destruct Hbr as [Hnr Hn].
  assert (Hc : forall c, has_char c (base ++ tail) = false ->
                         has_char c n = false /\ has_char c r = false).
  { intros c H. rewrite Hnr, has_char_app in H. apply orb_false_iff in H. exact H. }
  destruct (Hc "["%char (Htail "["%char eq_refl eq_refl eq_refl)) as [Hl _].
  destruct (Hc "]"%char (Htail "]"%char eq_refl eq_refl eq_refl)) as [Hr _].
  destruct (Hc "#"%char (Htail "#"%char eq_refl eq_refl eq_refl)) as [_ Hh].
  rewrite Hl, Hr. cbn [andb orb negb bind].
  rewrite (split_at_absent "#" r Hh).
  assert (Hqn : has_char "?" n = false).
  { apply (all_chars_has_char _ _ _ Hn). reflexivity. }
  subst tail. destruct has_query.
  - rewrite <- sep_app in Hnr. simpl append in Hnr.
    destruct (app_eq_app_absent "?" base qs n r Hnr Hqn) as (r1 & -> & Hbase).
    assert (Hr1 : has_char "?" r1 = false).
    { pose proof (body_char_absent "?" base Hb eq_refl) as H.
      rewrite Hbase, has_char_app in H. apply orb_false_iff in H. apply H. }
    rewrite (split_at_present "?" r1 qs Hr1).
    eexists. split; [reflexivity|]. simpl. split; [symmetry; exact Hbase|reflexivity].
  - rewrite append_nil_r in Hnr.
    assert (Hqr : has_char "?" r = false).
    { pose proof (body_char_absent "?" base Hb eq_refl) as H.
      rewrite Hnr, has_char_app in H. apply orb_false_iff in H. apply H. }
    rewrite (split_at_absent "?" r Hqr).
    eexists. split; [reflexivity|]. simpl. split; [symmetry; exact Hnr|reflexivity].
Qed.

Lemma strip_canonical (base qs : string) (has_query : bool) :
  all_chars body_char base = true -> all_chars query_char qs = true ->
  strip ("moniker://" ++ base ++ (if has_query then "?" ++ qs else ""))
  = "moniker://" ++ base ++ (if has_query then "?" ++ qs else "").
Proof.
  intros Hb Hq. apply strip_by_id.
  rewrite all_chars_app. apply andb_true_iff. split; [reflexivity|].
  rewrite all_chars_app. apply andb_true_iff. split.
  - apply (all_chars_impl body_char); [apply body_not_space|exact Hb].
  - destruct has_query; [|reflexivity].
    simpl. apply (all_chars_impl query_char); [apply query_not_space|exact Hq].
Qed.

(** The scheme step gives back the body and the query of a canonical text. *)
Lemma split_scheme_canonical (base qs : string) (has_query : bool) :
  all_chars body_char base = true -> all_chars query_char qs = true ->
  split_scheme ("moniker://" ++ base ++ (if has_query then "?" ++ qs else ""))
  = Ok (base, if has_query then qs else "").
Proof.
  intros Hb Hq. unfold split_scheme.
  assert (H : startswith ("moniker://" ++ base
                          ++ (if has_query then "?" ++ qs else "")) "moniker://"
              = true) by reflexivity.
  rewrite H.
  destruct (urlparse_canonical base qs has_query Hb Hq) as (p & -> & Hbody & Hquery).
  cbn [bind]. rewrite Hbody, Hquery. reflexivity.
Qed.

End UrlFacts.


(** ** The query of a canonical text *)

Section QueryFacts.
Context {U : Url.UrlLib} {L : Url.UrlLibLaws U}.

Lemma safe_text_absent (c : ascii) (s : string) :
  safe_text s = true -> safe_char c = false -> has_char c s = false.
Proof. apply all_chars_has_char. Qed.

Lemma parse_field_text (kv : string * string) :
  safe_text (fst kv) = true -> safe_text (snd kv) = true ->
  Url.parse_field (field_text kv) = kv.
Proof.
  destruct kv as [k v]. simpl fst; simpl snd. intros Hk Hv.
  unfold Url.parse_field, field_text. simpl fst; simpl snd.
  rewrite sep_app, (split_at_present "=" k v (safe_text_absent "="%char k Hk eq_refl)).
  rewrite !replace_char_id by (apply safe_text_absent; [assumption|reflexivity]).
  rewrite !Url.unquote_plain by (apply safe_text_absent; [assumption|reflexivity]).
  reflexivity.
Qed.

Lemma field_text_chars (kv : string * string) :
  safe_text (fst kv) = true -> safe_text (snd kv) = true ->
  all_chars query_char (field_text kv) = true
  /\ has_char "&" (field_text kv) = false /\ field_text kv <> "".
Proof.
  intros Hk Hv. unfold field_text.
  split; [|split].
  - rewrite !all_chars_app.
    rewrite (all_chars_impl _ _ _ safe_is_query Hk),
      (all_chars_impl _ _ _ safe_is_query Hv). reflexivity.
  - rewrite !has_char_app, (safe_text_absent "&"%char _ Hk eq_refl),
      (safe_text_absent "&"%char _ Hv eq_refl). reflexivity.
  - destruct (fst kv); discriminate.
Qed.

Lemma distinct_NoDup (l : list string) : distinct l = true -> NoDup l.
Proof.
  induction l as [|k l IH]; [constructor|].
  simpl. intros H. apply andb_true_iff in H as [Hk Hl].
  constructor; [|exact (IH Hl)].
  intros Hin. apply negb_true_iff in Hk.
  assert (existsb (String.eqb k) l = true); [|congruence].
  apply existsb_exists. exists k. split; [exact Hin|apply String.eqb_refl].
Qed.

Lemma add_value_fresh (k v : string) (d : list (string * list string)) :
  ~ In k (map fst d) -> Url.add_value k v d = (d ++ [(k, [v])])%list.
Proof.
  induction d as [|[k' vs] d IH]; [reflexivity|].
  simpl. intros H. destruct (String.eqb_spec k' k) as [->|Hne].
  - exfalso. apply H. left. reflexivity.
  - rewrite IH by tauto. reflexivity.
Qed.

Lemma dict_set_fresh (k v : string) (d : QueryParams) :
  ~ In k (map fst d) -> dict_set k v d = (d ++ [(k, v)])%list.
Proof.
  induction d as [|[k' v'] d IH]; [reflexivity|].
  simpl. intros H. destruct (String.eqb_spec k' k) as [->|Hne].
  - exfalso. apply H. left. reflexivity.
  - rewrite IH by tauto. reflexivity.
Qed.

Lemma fold_add_value (ps : list (string * string))
    (acc : list (string * list string)) :
  NoDup (map fst acc ++ map fst ps) ->
  fold_left (fun d nv => Url.add_value (fst nv) (snd nv) d) ps acc
  = (acc ++ map (fun kv => (fst kv, [snd kv])) ps)%list.
Proof.
  revert acc. induction ps as [|[k v] ps IH]; intros acc H.
  - simpl. rewrite app_nil_r. reflexivity.
  - simpl fold_left. simpl fst; simpl snd. rewrite add_value_fresh.
    + rewrite IH.
      * rewrite <- app_assoc. reflexivity.
      * rewrite map_app. simpl. rewrite <- app_assoc. exact H.
    + simpl in H. apply NoDup_remove_2 in H. intros Hin. apply H.
      apply in_or_app. left. exact Hin.
Qed.

Lemma fold_dict_set (ps : list (string * string)) (acc : QueryParams) :
  NoDup (map fst acc ++ map fst ps) ->
  fold_left
    (fun params (kvs : string * list string) =>
       match snd kvs with
       | v :: _ => dict_set (fst kvs) v params
       | [] => params
       end)
    (map (fun kv => (fst kv, [snd kv])) ps) acc
  = (acc ++ ps)%list.
Proof.
  revert acc. induction ps as [|[k v] ps IH]; intros acc H.
  - simpl. rewrite app_nil_r. reflexivity.
  - simpl. rewrite dict_set_fresh.
    + rewrite IH.
      * rewrite <- app_assoc. reflexivity.
      * rewrite map_app. simpl. rewrite <- app_assoc. exact H.
    + simpl in H. apply NoDup_remove_2 in H. intros Hin. apply H.
      apply in_or_app. left. exact Hin.
Qed.

Lemma forallb_safe (ps : QueryParams) :
  forallb (fun kv => safe_text (fst kv) && safe_text (snd kv)) ps = true ->
  Forall (fun kv => safe_text (fst kv) = true /\ safe_text (snd kv) = true) ps.
Proof.
  intros H. apply Forall_forall. intros kv Hin.
  rewrite forallb_forall in H. apply andb_true_iff, H, Hin.
Qed.

Lemma query_text_chars (ps : QueryParams) :
  Forall (fun kv => safe_text (fst kv) = true /\ safe_text (snd kv) = true) ps ->
  all_chars query_char (join "&" (map field_text ps)) = true.
Proof.
  intros H. apply all_chars_join; [reflexivity|].
  apply Forall_map. revert H. apply Forall_impl. intros kv [Hk Hv].
  apply (field_text_chars kv Hk Hv).
Qed.

(** The parameters of a canonical query are read back in order. *)
Lemma parse_params_query_text (ps : QueryParams) :
  ps <> [] ->
  Forall (fun kv => safe_text (fst kv) = true /\ safe_text (snd kv) = true) ps ->
  NoDup (map fst ps) ->
  parse_params (join "&" (map field_text ps)) = ps.
Proof.
  intros Hne Hs Hd.
  assert (Hitems : Forall (fun s => has_char "&" s = false) (map field_text ps)).
  { apply Forall_map. revert Hs. apply Forall_impl. intros kv [Hk Hv].
    apply (field_text_chars kv Hk Hv). }
  assert (Htruthy : truthy (join "&" (map field_text ps)) = true).
  { destruct ps as [|kv ps]; [congruence|]. apply truthy_true.
    simpl map. apply join_nonempty.
    inversion Hs as [|? ? [Hk Hv] ?]; subst. apply (field_text_chars kv Hk Hv). }
  unfold parse_params. rewrite Htruthy.
  unfold Url.parse_qs, Url.parse_qsl. rewrite Htruthy. cbn [negb].
  rewrite (split_join "&" (map field_text ps));
    [|destruct ps; [congruence|discriminate]|exact Hitems].
  assert (Hf : filter truthy (map field_text ps) = map field_text ps).
  { apply forallb_filter_id. apply forallb_forall. intros s Hin.
    apply in_map_iff in Hin as (kv & <- & Hin).
    rewrite Forall_forall in Hs. destruct (Hs kv Hin) as [Hk Hv].
    apply truthy_true, (field_text_chars kv Hk Hv). }
  rewrite Hf, map_map.
  assert (Hm : map (fun kv => Url.parse_field (field_text kv)) ps = ps).
  { clear -Hs L. induction Hs as [|kv ps [Hk Hv] _ IH]; [reflexivity|].
    simpl. rewrite IH, (parse_field_text kv Hk Hv). reflexivity. }
  rewrite Hm, fold_add_value by exact Hd.
  simpl app. rewrite fold_dict_set by exact Hd. reflexivity.
Qed.

End QueryFacts.


(** ** The steps of the parser on canonical pieces *)

Section CanonicalPieces.
Context {U : Url.UrlLib}.

(** *** What the grammars give *)

Lemma segment_grammar_safe (s : string) :
  segment_grammar s = true -> safe_text s = true /\ s <> "".
Proof.
  destruct s as [|c s]; [discriminate|]. simpl. intros H.
  apply andb_true_iff in H as [H _]. apply andb_true_iff in H as [Hc Hs].
  split; [|discriminate]. unfold safe_text. simpl.
  rewrite (alnum_is_safe c Hc).
  apply (all_chars_impl _ _ _ segment_rest_is_safe Hs).
Qed.

Lemma namespace_grammar_safe (s : string) :
  namespace_grammar s = true -> safe_text s = true /\ s <> "".
Proof.
  destruct s as [|c s]; [discriminate|]. simpl. intros H.
  apply andb_true_iff in H as [H _]. apply andb_true_iff in H as [Hc Hs].
  split; [|discriminate]. unfold safe_text. simpl.
  rewrite (alnum_is_safe c (alpha_is_alnum c Hc)).
  apply (all_chars_impl _ _ _ namespace_rest_is_safe Hs).
Qed.

Lemma version_grammar_safe (s : string) :
  version_grammar s = true -> safe_text s = true /\ s <> "".
Proof.
  unfold version_grammar. intros H. apply andb_true_iff in H as [Ht Hs].
  split; [|apply truthy_true, Ht].
  apply (all_chars_impl _ _ _ alnum_is_safe Hs).
Qed.

Lemma safe_no_lf (s : string) : safe_text s = true -> ends_with LF s = false.
Proof.
  intros H. apply ends_with_has_char.
  apply (all_chars_has_char _ _ _ H). reflexivity.
Qed.

Lemma validate_segment_grammar (s : string) :
  segment_grammar s = true -> validate_segment s = true.
Proof.
  intros H. rewrite validate_segment_no_lf; [exact H|].
  apply safe_no_lf, segment_grammar_safe, H.
Qed.

Lemma validate_namespace_grammar (s : string) :
  namespace_grammar s = true -> validate_namespace s = true.
Proof.
  intros H. destruct s as [|c s]; [discriminate|].
  simpl in H. apply andb_true_iff in H as [H Hl].
  apply andb_true_iff in H as [Hc Hs].
  unfold validate_namespace, NAMESPACE_PATTERN. cbn [truthy negb].
  apply Z.leb_le in Hl.
  destruct (Z.ltb_spec 64 (len (String c s))); [lia|].
  rewrite Hc, (star_dollar_all _ _ Hs). reflexivity.
Qed.

Lemma VERSION_PATTERN_grammar (s : string) :
  version_grammar s = true -> VERSION_PATTERN s = true.
Proof.
  intros H. rewrite VERSION_PATTERN_no_lf; [exact H|].
  apply safe_no_lf, version_grammar_safe, H.
Qed.

(** *** Texts that meet *)

(** When the part after the [c] of the left text is free of [c] on the
    right, that [c] lies in the right prefix. *)
Lemma app_eq_app_absent_r (c : ascii) (a b n r : string) :
  a ++ String c b = n ++ r -> has_char c r = false ->
  exists b1, n = a ++ String c b1 /\ b = b1 ++ r.
Proof.
  revert n. induction a as [|y a IH]; intros n E H.
  - destruct n as [|x n]; simpl in E.
    + subst r. rewrite has_char_cons, Ascii.eqb_refl in H. discriminate.
    + injection E as <- ->. exists n. split; reflexivity.
  - destruct n as [|x n]; simpl in E.
    + subst r. rewrite has_char_cons, has_char_app, has_char_cons,
        Ascii.eqb_refl, !orb_true_r in H. discriminate.
    + injection E as <- E. destruct (IH n E H) as (b1 & -> & ->).
      exists b1. split; reflexivity.
Qed.

(** The last character of a text. *)
Lemma app_last_char (c d : ascii) (a b z : string) :
  a ++ String c "" = b ++ String d z -> d <> c ->
  exists z', z = z' ++ String c "".
Proof.
  revert b. induction a as [|y a IH]; intros b E H.
  - destruct b as [|x b]; simpl in E.
    + injection E as -> _. congruence.
    + injection E as _ E. destruct b; discriminate.
  - destruct b as [|x b]; simpl in E.
    + injection E as _ <-. exists a. reflexivity.
    + injection E as _ E. exact (IH b E H).
Qed.

(** *** The last occurrence of a text *)

Lemma contains_suffix (sub x t : string) :
  contains sub (x ++ t) = false -> contains sub t = false.
Proof.
  unfold contains. induction x as [|c x IH]; [auto|].
  simpl append. rewrite find_cons. intros H. apply IH.
  pose proof (find_range sub (x ++ t)).
  destruct (startswith (String c (x ++ t)) sub); [discriminate|].
  destruct (Z.ltb_spec (find sub (x ++ t)) 0).
  - apply Z.leb_gt. lia.
  - apply Z.leb_gt in H. lia.
Qed.

Lemma rfind_decompose (c0 : ascii) (sub' s : string) :
  0 <= rfind (String c0 sub') s ->
  exists before frag,
    s = before ++ String c0 sub' ++ frag
    /\ contains (String c0 sub') frag = false.
Proof.
  induction s as [|c s IH]; [simpl; lia|].
  rewrite rfind_cons.
  destruct (Z.leb_spec 0 (rfind (String c0 sub') s)) as [H|H].
  - intros _. destruct (IH H) as (before & frag & -> & Hf).
    exists (String c before), frag. split; [reflexivity|exact Hf].
  - destruct (startswith (String c s) (String c0 sub')) eqn:E; [|lia].
    intros _. apply startswith_spec in E as [t E].
    exists "", t. split; [exact E|].
    simpl in E. injection E as _ ->.
    apply (contains_suffix _ sub' t). rewrite contains_rfind.
    apply Z.leb_gt. exact H.
Qed.

Lemma startswith_cons (a c : ascii) (sub s : string) :
  startswith (String c s) (String a sub) = Ascii.eqb a c && startswith s sub.
Proof. reflexivity. Qed.

Lemma contains_slash_absent (b : ascii) (s : string) :
  has_char "/" s = false -> contains (String "/" (String b "")) s = false.
Proof.
  unfold contains. induction s as [|c s IH]; [reflexivity|].
  rewrite has_char_cons. intros H. apply orb_false_iff in H as [Hc Hs].
  rewrite find_cons, startswith_cons, (Ascii.eqb_sym "/" c), Hc.
  cbn [andb]. specialize (IH Hs). apply Z.leb_gt in IH.
  destruct (Z.ltb_spec (find (String "/" (String b "")) s) 0); [reflexivity|lia].
Qed.

(** *** The revision step *)

Lemma revision_match_none (frag : string) :
  has_char "?" frag = false -> has_char LF frag = false ->
  (frag = "" \/ all_chars is_digit frag = false) ->
  revision_match frag = None.
Proof.
  intros Hq Hlf Hd. destruct (revision_match frag) as [d|] eqn:E; [|reflexivity].
  exfalso. apply revision_match_spec in E as (Hne & Hdig & [E|[E|[t E]]]).
  - subst d. destruct Hd; congruence.
  - rewrite E, has_char_app, has_char_cons, Ascii.eqb_refl, orb_true_r in Hlf.
    discriminate.
  - rewrite E, has_char_app in Hq. simpl append in Hq.
    rewrite has_char_cons, Ascii.eqb_refl, orb_true_r in Hq. discriminate.
Qed.

Lemma split_revision_none (remaining : string) :
  (forall before frag,
      remaining = before ++ "/v" ++ frag -> contains "/v" frag = false ->
      revision_match frag = None) ->
  split_revision remaining = Ok (None, remaining).
Proof.
  intros H. destruct (contains "/v" remaining) eqn:E;
    [|apply split_revision_absent, E].
  rewrite contains_rfind in E. apply Z.leb_le in E.
  destruct (rfind_decompose "/" "v" remaining E) as (before & frag & -> & Hf).
  rewrite (split_revision_last before frag Hf), (H before frag eq_refl Hf).
  reflexivity.
Qed.

Lemma split_revision_suffix (before : string) (r : Z) :
  0 <= r -> fits r = true ->
  split_revision (before ++ "/v" ++ decimal_text r) = Ok (Some r, before).
Proof.
  intros H Hf. destruct (decimal_text_digits r H) as [Hd _].
  rewrite split_revision_last.
  - rewrite (revision_match_decimal r H), (int_of_digits_decimal_text r H Hf).
    reflexivity.
  - apply contains_slash_absent. apply (all_chars_has_char _ _ _ Hd). reflexivity.
Qed.

(** *** The namespace step without a namespace *)

Lemma split_namespace_no_at (body : string) (validate : bool) :
  has_char "@" body = false -> split_namespace body validate = Ok (None, body).
Proof.
  intros H. unfold split_namespace. rewrite (find_char_absent "@" body H).
  reflexivity.
Qed.

Lemma split_namespace_slash_first (s1 x : string) (validate : bool) :
  has_char "@" s1 = false -> has_char "/" s1 = false ->
  split_namespace (s1 ++ String "/" x) validate = Ok (None, s1 ++ String "/" x).
Proof.
  intros Hat Hsl. unfold split_namespace.
  rewrite (find_char_app "/" s1 x Hsl).
  rewrite (find_char_app_other "@" s1 (String "/" x) Hat).
  rewrite find_cons, startswith_char. cbn [Ascii.eqb Bool.eqb andb].
  pose proof (len_nonneg s1). pose proof (find_range "@" x).
  destruct (Z.ltb_spec (find "@" x) 0); [reflexivity|].
  destruct (Z.ltb_spec (find "@" x + 1) 0); [lia|].
  replace (len s1 + (find "@" x + 1) <? len s1) with false
    by (symmetry; apply Z.ltb_ge; lia).
  replace (len s1 =? -1) with false by (symmetry; apply Z.eqb_neq; lia).
  rewrite andb_false_r. reflexivity.
Qed.

(** *** The path step *)

Lemma rstrip_app (p : ascii -> bool) (a b : string) :
  b <> "" -> rstrip p b = b -> rstrip p (a ++ b) = a ++ b.
Proof.
  intros Hne Hb. induction a as [|x a IH]; [exact Hb|].
  simpl. rewrite IH. destruct (a ++ b) eqn:E; [|reflexivity].
  destruct a; [simpl in E; congruence|discriminate].
Qed.

Lemma rstrip_join (p : ascii -> bool) (sep : string) (l : list string) :
  Forall (fun s => s <> "" /\ all_chars (fun c => negb (p c)) s = true) l ->
  rstrip p (join sep l) = join sep l.
Proof.
  intros H. induction H as [|x l [Hx Hp] Hl IH]; [reflexivity|].
  destruct l as [|y l]; [apply rstrip_id, Hp|].
  rewrite join_cons, <- append_assoc. apply rstrip_app; [|exact IH].
  inversion Hl as [|? ? [Hy _] _]; subst. apply join_nonempty, Hy.
Qed.

Lemma check_segments_ok (segs : list string) :
  Forall (fun s => segment_grammar s = true) segs -> check_segments segs = Ok tt.
Proof.
  intros H. induction H as [|s l Hs Hl IH]; [reflexivity|].
  simpl. rewrite (validate_segment_grammar s Hs). exact IH.
Qed.

Lemma parse_path_join (segs : list string) :
  Forall (fun s => segment_grammar s = true) segs ->
  parse_path (join "/" segs) true = Ok {| segments := segs |}.
Proof.
  intros H. destruct segs as [|s segs]; [reflexivity|].
  assert (Hsafe : Forall (fun s => safe_text s = true /\ s <> "") (s :: segs)).
  { revert H. apply Forall_impl. intros x. apply segment_grammar_safe. }
  assert (Hslash : Forall (fun s => has_char "/" s = false) (s :: segs)).
  { revert Hsafe. apply Forall_impl. intros x [Hx _].
    apply (all_chars_has_char _ _ _ Hx). reflexivity. }
  assert (Hstrip : strip_char "/" (join "/" (s :: segs)) = join "/" (s :: segs)).
  { unfold strip_char, strip_by. rewrite lstrip_id.
    - apply rstrip_join. revert Hsafe. apply Forall_impl. intros x [Hx Hne].
      split; [exact Hne|]. revert Hx. apply all_chars_impl.
      intros c Hc. destruct (Ascii.eqb_spec "/" c) as [<-|]; [discriminate|reflexivity].
    - inversion H as [|? ? Hs _]; subst.
      destruct s as [|c s]; [discriminate|].
      assert (Hc : is_alnum c = true).
      { simpl in Hs. apply andb_true_iff in Hs as [Hs _].
        apply andb_true_iff in Hs as [Hs _]. exact Hs. }
      assert (Hne : Ascii.eqb "/" c = false).
      { destruct (Ascii.eqb_spec "/" c) as [<-|]; [discriminate|reflexivity]. }
      destruct segs; exact Hne. }
  rewrite parse_path_clean. cbv zeta. rewrite Hstrip.
  assert (Hne : truthy (join "/" (s :: segs)) = true).
  { apply truthy_true, join_nonempty.
    inversion Hsafe as [|? ? [_ Hs] _]; subst. exact Hs. }
  rewrite Hne. cbn [negb].
  rewrite (split_join "/" (s :: segs)) by (discriminate || exact Hslash).
  rewrite (check_segments_ok _ H). reflexivity.
Qed.

End CanonicalPieces.


(** ** Round trip *)

Section RoundTrip.
Context {U : Url.UrlLib} {L : Url.UrlLibLaws U}.

Lemma well_formed_spec (m : Moniker) :
  well_formed m = true ->
  Forall (fun s => segment_grammar s = true) (segments (path m))
  /\ (forall n, namespace m = Some n -> namespace_grammar n = true)
  /\ (forall v, version m = Some v -> version_grammar v = true)
  /\ (forall r, revision m = Some r -> 0 <= r)
  /\ (namespace m = None -> version m <> None ->
      (2 <= List.length (segments (path m)))%nat)
  /\ (version m = None -> revision m = None ->
      (2 <= List.length (segments (path m)))%nat ->
      revision_like (List.last (segments (path m)) "") = false)
  /\ Forall (fun kv => safe_text (fst kv) = true /\ safe_text (snd kv) = true)
       (params m)
  /\ NoDup (map fst (params m)).
Proof.
  unfold well_formed. intros H.
  repeat (apply andb_true_iff in H; destruct H as [H ?]).
  split; [apply Forall_forall; rewrite forallb_forall in H; exact H|].
  split; [intros n E; rewrite E in *; assumption|].
  split; [intros v E; rewrite E in *; assumption|].
  split; [intros r E; rewrite E in *; apply Z.leb_le; assumption|].
  split.
  { intros En Ev. rewrite En in *. destruct (version m); [|congruence].
    apply Nat.leb_le. assumption. }
  split.
  { intros Ev Er Hl. rewrite Ev, Er in *.
    destruct (segments (path m)) as [|a [|b l]]; simpl in Hl; try lia.
    apply negb_true_iff. assumption. }
  split; [apply forallb_safe; assumption|apply distinct_NoDup; assumption].
Qed.

Lemma base_join (ns ver : option string) (rev : option Z) (p : string) :
  join ""
    (app (match ns with Some n => [n ++ "@"] | None => [] end)
       (app [p]
          (app (match ver with Some v => ["@" ++ v] | None => [] end)
               (match rev with Some r => ["/v" ++ decimal_text r] | None => [] end))))
  = match ns with Some n => n ++ "@" | None => "" end
    ++ p
    ++ match ver with Some v => "@" ++ v | None => "" end
    ++ match rev with Some r => "/v" ++ decimal_text r | None => "" end.
Proof.
  destruct ns, ver, rev; cbn [join String.concat app append];
    rewrite ?append_nil_r; reflexivity.
Qed.

Lemma revision_part_fits (rev : option Z) :
  match rev with Some r => fits r | None => true end = true ->
  revision_part rev
  = Ok (match rev with Some r => ["/v" ++ decimal_text r] | None => [] end).
Proof.
  destruct rev as [r|]; [|reflexivity]. intros H.
  unfold revision_part. rewrite str_of_int_spec, H. reflexivity.
Qed.

Lemma revision_part_unfit (r : Z) :
  fits r = false -> revision_part (Some r) = Raise ValueError.
Proof. intros H. unfold revision_part. rewrite str_of_int_spec, H. reflexivity. Qed.

Lemma moniker_str_canonical (m : Moniker) :
  well_formed m = true -> revision_fits m = true ->
  moniker_str m = Ok (moniker_text m).
Proof.
  intros H Hf. apply well_formed_spec in H as (_ & Hn & Hv & _).
  unfold moniker_str, moniker_text, body_text, namespace_text, version_text,
    revision_text, query_text.
  rewrite (revision_part_fits (revision m) Hf). cbn [bind].
  assert (En : match namespace m with
               | Some n => if truthy n then [n ++ "@"] else []
               | None => []
               end
               = match namespace m with Some n => [n ++ "@"] | None => [] end).
  { destruct (namespace m) as [n|]; [|reflexivity].
    destruct (namespace_grammar_safe n (Hn n eq_refl)) as [_ Hne].
    apply truthy_true in Hne. rewrite Hne. reflexivity. }
  assert (Ev : match version m with
               | Some v => if truthy v then ["@" ++ v] else []
               | None => []
               end
               = match version m with Some v => ["@" ++ v] | None => [] end).
  { destruct (version m) as [v|]; [|reflexivity].
    destruct (version_grammar_safe v (Hv v eq_refl)) as [_ Hne].
    apply truthy_true in Hne. rewrite Hne. reflexivity. }
  rewrite En, Ev, base_join.
  destruct (params m); [rewrite append_nil_r|]; reflexivity.
Qed.

(** A revision of more than 4300 digits cannot be printed. *)
Lemma moniker_str_unfit (m : Moniker) :
  revision_fits m = false -> moniker_str m = Raise ValueError.
Proof.
  unfold revision_fits, moniker_str. destruct (revision m) as [r|]; [|discriminate].
  intros H. rewrite (revision_part_unfit r H). reflexivity.
Qed.

Lemma path_text_chars (segs : list string) :
  Forall (fun s => segment_grammar s = true) segs ->
  all_chars body_char (join "/" segs) = true
  /\ has_char "@" (join "/" segs) = false.
Proof.
  intros H.
  assert (Hs : all_chars (fun c => safe_char c || Ascii.eqb c "/") (join "/" segs)
               = true).
  { apply all_chars_join; [reflexivity|].
    revert H. apply Forall_impl. intros s Hs.
    destruct (segment_grammar_safe s Hs) as [Hsafe _].
    revert Hsafe. apply all_chars_impl. intros c ->. reflexivity. }
  split.
  - revert Hs. apply all_chars_impl. intros c Hc. unfold body_char.
    apply orb_true_iff in Hc as [->| ->]; [reflexivity|apply orb_true_r].
  - apply (all_chars_has_char _ _ _ Hs). reflexivity.
Qed.

Lemma safe_body (s : string) : safe_text s = true -> all_chars body_char s = true.
Proof. apply all_chars_impl, safe_is_body. Qed.

Lemma body_text_chars (m : Moniker) :
  well_formed m = true -> all_chars body_char (body_text m) = true.
Proof.
  intros H. apply well_formed_spec in H as (Hs & Hn & Hv & Hr & _).
  unfold body_text, namespace_text, version_text, revision_text, path_str.
  rewrite !all_chars_app.
  destruct (path_text_chars _ Hs) as [-> _].
  assert (E1 : all_chars body_char
                 match namespace m with Some n => n ++ "@" | None => "" end = true).
  { destruct (namespace m) as [n|]; [|reflexivity].
    rewrite all_chars_app, (safe_body n); [reflexivity|].
    apply namespace_grammar_safe, Hn. reflexivity. }
  assert (E2 : all_chars body_char
                 match version m with Some v => "@" ++ v | None => "" end = true).
  { destruct (version m) as [v|]; [|reflexivity].
    rewrite all_chars_app, (safe_body v); [reflexivity|].
    apply version_grammar_safe, Hv. reflexivity. }
  assert (E3 : all_chars body_char
                 match revision m with
                 | Some r => "/v" ++ decimal_text r
                 | None => ""
                 end = true).
  { destruct (revision m) as [r|]; [|reflexivity].
    rewrite all_chars_app, (safe_body (decimal_text r)); [reflexivity|].
    destruct (decimal_text_digits r (Hr r eq_refl)) as [Hd _].
    revert Hd. apply all_chars_impl, digit_is_safe. }
  rewrite E1, E2, E3. reflexivity.
Qed.

(** The namespace step on a canonical body. *)
Lemma split_namespace_canonical (m : Moniker) :
  well_formed m = true ->
  split_namespace (body_text m) true
  = Ok (namespace m, path_str (path m) ++ version_text m ++ revision_text m).
Proof.
  intros H. apply well_formed_spec in H as (Hs & Hn & Hv & Hr & Hd & _).
  unfold body_text, namespace_text.
  destruct (namespace m) as [n|] eqn:En.
  - destruct (namespace_grammar_safe n (Hn n eq_refl)) as [Hsafe _].
    rewrite (split_namespace_prefix _ n
               (path_str (path m) ++ version_text m ++ revision_text m)).
    + rewrite (validate_namespace_grammar n (Hn n eq_refl)). reflexivity.
    + split; [apply append_assoc|]. split;
        apply (all_chars_has_char _ _ _ Hsafe); reflexivity.
  - change ("" ++ ?x) with x. unfold version_text.
    destruct (version m) as [v|] eqn:Ev.
    + specialize (Hd eq_refl ltac:(discriminate)).
      unfold path_str. destruct (segments (path m)) as [|s1 [|s2 l]] eqn:E;
        simpl in Hd; try lia.
      rewrite join_cons, sep_app, append_assoc. simpl append at 1.
      inversion Hs as [|? ? H1 _]; subst.
      destruct (segment_grammar_safe s1 H1) as [Hsafe _].
      apply split_namespace_slash_first;
        apply (all_chars_has_char _ _ _ Hsafe); reflexivity.
    + apply split_namespace_no_at. simpl append.
      rewrite has_char_app. unfold path_str.
      destruct (path_text_chars _ Hs) as [_ ->].
      unfold revision_text. destruct (revision m) as [r|]; [|reflexivity].
      rewrite has_char_app. simpl.
      destruct (decimal_text_digits r (Hr r eq_refl)) as [Hdig _].
      apply (all_chars_has_char _ _ _ Hdig). reflexivity.
Qed.

(** The revision step on what follows the namespace. *)
Lemma split_revision_canonical (m : Moniker) :
  well_formed m = true -> revision_fits m = true ->
  split_revision (path_str (path m) ++ version_text m ++ revision_text m)
  = Ok (revision m, path_str (path m) ++ version_text m).
Proof.
  intros H Hfit. pose proof (body_text_chars m H) as Hchars.
  apply well_formed_spec in H as (Hs & Hn & Hv & Hr & Hd & Hl & _).
  unfold body_text in Hchars. rewrite all_chars_app in Hchars.
  apply andb_true_iff in Hchars as [_ Hchars].
  unfold revision_text, revision_fits in *. destruct (revision m) as [r|] eqn:Er.
  - rewrite <- append_assoc.
    apply split_revision_suffix; [apply Hr; reflexivity|exact Hfit].
  - rewrite append_nil_r in *. apply split_revision_none.
    intros before frag E Hf.
    assert (Hfrag : all_chars body_char frag = true).
    { rewrite E, !all_chars_app in Hchars.
      apply andb_true_iff in Hchars as [_ Hc].
      apply andb_true_iff in Hc as [_ Hc]. exact Hc. }
    apply revision_match_none;
      try (apply (all_chars_has_char _ _ _ Hfrag); reflexivity).
    unfold version_text in E. destruct (version m) as [v|] eqn:Ev.
    + (* the version follows the last "/v" *)
      right.
      destruct (version_grammar_safe v (Hv v eq_refl)) as [Hsafe _].
      assert (Hv' : has_char "/" v = false)
        by (apply (all_chars_has_char _ _ _ Hsafe); reflexivity).
      symmetry in E. rewrite <- (append_assoc (path_str (path m)) "@" v) in E.
      destruct (app_eq_app_absent_r "/" before ("v" ++ frag)
                  (path_str (path m) ++ "@") v E Hv') as (b1 & E1 & E2).
      destruct (app_last_char "@" "/" _ _ _ E1 ltac:(discriminate)) as [z' ->].
      destruct z' as [|x z']; simpl in E2; [discriminate|].
      injection E2 as _ ->.
      rewrite !all_chars_app. simpl. rewrite andb_false_r. reflexivity.
    + rewrite append_nil_r in E.
      destruct (has_char "/" frag) eqn:Hsl.
      * right. destruct (all_chars is_digit frag) eqn:Hdig; [|reflexivity].
        rewrite (all_chars_has_char _ _ _ Hdig) in Hsl; [discriminate|reflexivity].
      * change ("/v" ++ frag) with (String "/" ("v" ++ frag)) in E.
        assert (Hne : segments (path m) <> []).
        { intros E0. unfold path_str in E. rewrite E0 in E. simpl in E.
          destruct before; discriminate. }
        assert (Hslash : Forall (fun s => has_char "/" s = false)
                           (segments (path m))).
        { revert Hs. apply Forall_impl. intros s Hs.
          destruct (segment_grammar_safe s Hs) as [Hsafe _].
          apply (all_chars_has_char _ _ _ Hsafe). reflexivity. }
        destruct (join_last "/" (segments (path m)) before ("v" ++ frag)
                    Hne Hslash E) as [Hlast Hlen].
        { simpl. rewrite has_char_cons. exact Hsl. }
        specialize (Hl eq_refl eq_refl Hlen). rewrite Hlast in Hl.
        simpl in Hl. destruct frag as [|c frag]; [left; reflexivity|right].
        simpl in Hl. exact Hl.
Qed.

(** The version step on what is left. *)
Lemma split_version_canonical (m : Moniker) :
  well_formed m = true ->
  split_version (path_str (path m) ++ version_text m) true
  = Ok (version m, path_str (path m)).
Proof.
  intros H. apply well_formed_spec in H as (Hs & _ & Hv & _).
  unfold version_text. destruct (version m) as [v|] eqn:Ev.
  - destruct (version_grammar_safe v (Hv v eq_refl)) as [Hsafe Hne].
    rewrite split_version_suffix
      by (apply (all_chars_has_char _ _ _ Hsafe); reflexivity).
    rewrite (VERSION_PATTERN_grammar v (Hv v eq_refl)), andb_false_r.
    reflexivity.
  - rewrite append_nil_r. unfold split_version.
    rewrite contains_char. unfold path_str.
    destruct (path_text_chars _ Hs) as [_ ->]. reflexivity.
Qed.

Lemma parse_params_canonical (m : Moniker) :
  well_formed m = true ->
  parse_params (if match params m with [] => false | _ => true end
                then query_text m else "")
  = params m.
Proof.
  intros H. apply well_formed_spec in H as (_ & _ & _ & _ & _ & _ & Hp & Hd).
  destruct (params m) as [|kv ps] eqn:E; [reflexivity|].
  unfold query_text. rewrite E.
  apply parse_params_query_text; [discriminate|exact Hp|exact Hd].
Qed.

(** A well-formed moniker whose revision can be printed is what its text
    parses to. *)
Lemma parse_moniker_text (m : Moniker) :
  well_formed m = true -> revision_fits m = true ->
  parse_moniker (moniker_text m) true = Ok m.
Proof.
  intros H Hf. unfold moniker_text.
  pose proof (body_text_chars m H) as Hb.
  assert (Hq : all_chars query_char (query_text m) = true).
  { apply query_text_chars. apply well_formed_spec in H. apply H. }
  rewrite parse_moniker_nonempty by discriminate.
  set (hq := match params m with [] => false | _ => true end).
  rewrite (strip_canonical (body_text m) (query_text m) hq Hb Hq).
  rewrite (split_scheme_canonical (body_text m) (query_text m) hq Hb Hq).
  cbn [bind]. unfold parse_body.
  rewrite (split_namespace_canonical m H). cbn [bind]. unfold parse_tail.
  rewrite (split_revision_canonical m H Hf). cbn [bind].
  rewrite (split_version_canonical m H).
  cbn [bind]. unfold path_str.
  rewrite parse_path_join by (apply well_formed_spec in H; apply H).
  cbn [bind]. subst hq. rewrite (parse_params_canonical m H).
  destruct m as [[segs] ns ver rev ps]. reflexivity.
Qed.

End RoundTrip.


Section RoundTripResults.
Context {U : Url.UrlLib} {L : Url.UrlLibLaws U}.

(** The revision that the parser reads is not negative and can be
    printed. *)
Lemma split_revision_some (remaining rest : string) (r : Z) :
  split_revision remaining = Ok (Some r, rest) -> 0 <= r /\ fits r = true.
Proof.
  unfold split_revision. destruct (contains "/v" remaining); [|discriminate].
  destruct (rsplit1 "/v" remaining) as [|a [|b [|]]]; try discriminate.
  destruct (revision_match b) as [digits|] eqn:E; [|discriminate].
  apply revision_match_spec in E as (Hne & Hd & _).
  destruct (int_of_digits digits) as [n|] eqn:En; [|discriminate].
  cbn [bind]. intros [= <- _]. exact (int_of_digits_fits digits n Hd Hne En).
Qed.

Lemma parse_moniker_revision (s : string) (validate : bool) (m : Moniker) :
  parse_moniker s validate = Ok m ->
  revision_fits m = true /\ (forall r, revision m = Some r -> 0 <= r).
Proof.
  intros H. destruct (string_dec s "") as [->|Hne]; [discriminate|].
  rewrite parse_moniker_nonempty in H by exact Hne.
  destruct (split_scheme (strip s)) as [[body q]|]; [|discriminate].
  cbn [bind] in H. unfold parse_body in H.
  destruct (split_namespace body validate) as [[ns rem0]|]; [|discriminate].
  cbn [bind] in H. unfold parse_tail in H.
  destruct (split_revision rem0) as [[rev rem1]|] eqn:Er; [|discriminate].
  cbn [bind] in H.
  destruct (split_version rem1 validate) as [[ver rem2]|]; [|discriminate].
  cbn [bind] in H.
  destruct (parse_path rem2 validate) as [p|]; [|discriminate].
  cbn [bind] in H. injection H as <-. unfold revision_fits. cbn [revision].
  destruct rev as [r|]; [|split; [reflexivity|discriminate]].
  destruct (split_revision_some _ _ _ Er) as [H0 Hf].
  split; [exact Hf|]. intros r' [= <-]. exact H0.
Qed.

(** C1, as the code has it. Take a well-formed moniker (every component
    matches its grammar, the revision is not negative, a version on a path of
    fewer than two segments comes with a namespace, a path ending in a
    segment made of [v] and digits carries a version or a revision, the
    parameters have distinct keys and unreserved characters) whose revision
    has at most 4300 digits and whose parameters are keyword arguments
    ([**params] holds none of the names path, namespace, version,
    revision). It is produced by [build_moniker] from its own components,
    its text is printed, and parsing that text with validation returns the
    moniker, field for field; so does parsing the text of any such moniker
    that [build_moniker] returns. *)
Theorem build_round_trip (m : Moniker) :
  well_formed m = true -> revision_fits m = true ->
  keyword_params (params m) = true ->
  build_moniker (path_str (path m)) (namespace m) (version m) (revision m)
    (params m) = Ok m
  /\ moniker_str m = Ok (moniker_text m)
  /\ (let* text := moniker_str m in parse_moniker text true) = Ok m
  /\ (forall (p : string) (ns ver : option string) (rev : option Z)
             (ps : QueryParams),
         keyword_params ps = true ->
         build_moniker p ns ver rev ps = Ok m ->
         (let* text := moniker_str m in parse_moniker text true)
         = build_moniker p ns ver rev ps).
Proof.
  intros H Hf Hk.
  assert (Hrt : (let* text := moniker_str m in parse_moniker text true) = Ok m).
  { rewrite (moniker_str_canonical m H Hf). cbn [bind].
    apply parse_moniker_text; assumption. }
  split; [|split; [|split]].
  - unfold build_moniker, path_str.
    rewrite parse_path_join by (apply well_formed_spec in H; apply H).
    cbn [bind]. destruct m as [[segs] ns ver rev [|kv ps]]; reflexivity.
  - apply moniker_str_canonical; assumption.
  - exact Hrt.
  - intros p ns ver rev ps _ ->. exact Hrt.
Qed.

(** C9, as the code has it. When the moniker that an input parses to is
    well formed, normalizing the input gives the text of that moniker, and
    normalizing that text again gives it back. *)
Theorem normalize_idempotent (s : string) (m : Moniker) :
  parse_moniker s true = Ok m -> well_formed m = true ->
  normalize_moniker s = moniker_str m
  /\ moniker_str m = Ok (moniker_text m)
  /\ (let* n := normalize_moniker s in normalize_moniker n) = normalize_moniker s.
Proof.
  intros Hp Hw. destruct (parse_moniker_revision s true m Hp) as [Hf _].
  pose proof (moniker_str_canonical m Hw Hf) as Ht.
  assert (Hn : normalize_moniker s = moniker_str m).
  { unfold normalize_moniker. rewrite Hp. reflexivity. }
  split; [exact Hn|]. split; [exact Ht|]. rewrite Hn, Ht. cbn [bind].
  unfold normalize_moniker. rewrite (parse_moniker_text m Hw Hf). cbn [bind].
  exact Ht.
Qed.

End RoundTripResults.

(** ** The properties on concrete inputs *)

Lemma unquote_ascii_plain (s : string) :
  has_char "%" s = false -> Url.unquote_ascii s = s.
Proof.
  induction s as [|c s IH]; [reflexivity|].
  rewrite has_char_cons. intros H. apply orb_false_iff in H as [Hc Hs].
  assert (E : Url.unquote_ascii (String c s)
              = if Ascii.eqb c "%"
                then Url.unquote_ascii (String c s)
                else String c (Url.unquote_ascii s)).
  { destruct (Ascii.eqb c "%") eqn:E; [reflexivity|].
    simpl. rewrite E. reflexivity. }
  rewrite E, Hc, (IH Hs). reflexivity.
Qed.

Lemma ascii_urllib_laws : Url.UrlLibLaws Url.ascii_urllib.
Proof. constructor. exact unquote_ascii_plain. Qed.

Lemma build_round_trip_witness :
  well_formed example_moniker = true
  /\ keyword_params (params example_moniker) = true
  /\ moniker_str example_moniker = Ok ("moniker://" ++ example_text)
  /\ parse_moniker (U := Url.ascii_urllib) ("moniker://" ++ example_text) true
     = Ok example_moniker.
Proof.
  split; [reflexivity|]. split; [reflexivity|]. split; [reflexivity|].
  exact (proj1 (proj2 (proj2 (@build_round_trip Url.ascii_urllib
                                ascii_urllib_laws example_moniker
                                eq_refl eq_refl eq_refl)))).
Defined.

(** C1 as stated fails: [build_moniker] accepts the path "a" with the
    version "1"; the text of that moniker is "moniker://a@1", which parses
    to the namespace "a" and the path "1", with no version. *)
Lemma build_round_trip_fails :
  build_moniker "a" None (Some "1") None []
  = Ok {| path := {| segments := ["a"] |}; namespace := None;
          version := Some "1"; revision := None; params := [] |}
  /\ moniker_str {| path := {| segments := ["a"] |}; namespace := None;
                    version := Some "1"; revision := None; params := [] |}
     = Ok "moniker://a@1"
  /\ parse_moniker (U := Url.ascii_urllib) "moniker://a@1" true
     = Ok {| path := {| segments := ["1"] |}; namespace := Some "a";
             version := None; revision := None; params := [] |}
  /\ parse_moniker (U := Url.ascii_urllib) "moniker://a@1" true
     <> build_moniker "a" None (Some "1") None [].
Proof. repeat split. discriminate. Qed.

Lemma normalize_idempotent_witness :
  parse_moniker (U := Url.ascii_urllib) example_text true = Ok example_moniker
  /\ well_formed example_moniker = true
  /\ normalize_moniker (U := Url.ascii_urllib) example_text
     = Ok ("moniker://" ++ example_text)
  /\ normalize_moniker (U := Url.ascii_urllib) ("moniker://" ++ example_text)
     = Ok ("moniker://" ++ example_text).
Proof.
  split; [reflexivity|]. split; [reflexivity|].
  pose proof (@normalize_idempotent Url.ascii_urllib ascii_urllib_laws
                example_text example_moniker eq_refl eq_refl) as (H1 & H2 & H3).
  rewrite H2 in H1. split; [exact H1|]. rewrite H1 in H3. exact H3.
Defined.

(** C9 as stated fails: "a/v007/" is accepted; it normalizes to
    "moniker://a/v007", and that text normalizes to "moniker://a/v7". *)
Lemma normalize_not_idempotent :
  parse_moniker (U := Url.ascii_urllib) "a/v007/" true
  = Ok {| path := {| segments := ["a"; "v007"] |}; namespace := None;
          version := None; revision := None; params := [] |}
  /\ normalize_moniker (U := Url.ascii_urllib) "a/v007/" = Ok "moniker://a/v007"
  /\ normalize_moniker (U := Url.ascii_urllib) "moniker://a/v007"
     = Ok "moniker://a/v7"
  /\ (let* n := normalize_moniker (U := Url.ascii_urllib) "a/v007/" in
      normalize_moniker (U := Url.ascii_urllib) n)
     <> normalize_moniker (U := Url.ascii_urllib) "a/v007/".
Proof. repeat split. discriminate. Qed.


(** C4 as stated fails: in "a/b@" the last [@] follows the last [/] and
    the text after it is empty, hence no run of one or more alphanumerics;
    the input is accepted under validation, with the empty version. *)
Lemma empty_version_accepted :
  split_scheme (U := Url.ascii_urllib) (strip "a/b@") = Ok ("a/b@", "")
  /\ split_namespace "a/b@" true = Ok (None, "a/b@")
  /\ split_revision "a/b@" = Ok (None, "a/b" ++ "@" ++ "")
  /\ version_grammar "" = false
  /\ parse_moniker (U := Url.ascii_urllib) "a/b@" true
     = Ok {| path := {| segments := ["a"; "b"] |}; namespace := None;
             version := Some ""; revision := None; params := [] |}
  /\ is_parse_error (parse_moniker (U := Url.ascii_urllib) "a/b@" true) = false.
Proof. repeat split. Qed.

(** C5 as stated fails: [build_moniker] returns a moniker whose namespace
    and version match neither their patterns nor their grammars. *)
Lemma build_keeps_invalid_components :
  build_moniker "a" (Some "1 x") (Some "no good") None []
  = Ok {| path := {| segments := ["a"] |}; namespace := Some "1 x";
          version := Some "no good"; revision := None; params := [] |}
  /\ validate_namespace "1 x" = false
  /\ namespace_grammar "1 x" = false
  /\ VERSION_PATTERN "no good" = false
  /\ version_grammar "no good" = false.
Proof. repeat split. Qed.

(** X1. The revision step as the code performs it. Without ["/v"] the text is
    left as it is. Otherwise the text splits at its last ["/v"]: when the
    fragment after it is a non-empty run of digits followed by nothing, by
    one final line feed or by a question mark, those digits are the
    revision and the text before the ["/v"] remains, unless the run has
    more than 4300 digits, which raises [ValueError]; in every other case
    there is no revision and the text is left as it is. So "a/v2" gives
    revision 2 and "a", and "a/vx" gives no revision and "a/vx". *)
Theorem revision_step (remaining : string) :
  (contains "/v" remaining = false ->
   split_revision remaining = Ok (None, remaining))
  /\ (forall before frag : string,
         remaining = before ++ "/v" ++ frag -> contains "/v" frag = false ->
         split_revision remaining
         = match revision_match frag with
           | Some digits =>
               if len digits <=? MAX_STR_DIGITS
               then Ok (Some (decimal_value digits), before)
               else Raise ValueError
           | None => Ok (None, remaining)
           end)
  /\ (forall frag digits : string,
         revision_match frag = Some digits
         <-> digits <> "" /\ all_chars is_digit digits = true
             /\ (frag = digits \/ frag = digits ++ String LF ""
                 \/ exists t, frag = digits ++ "?" ++ t))
  /\ split_revision "a/v2" = Ok (Some 2, "a")
  /\ split_revision "a/vx" = Ok (None, "a/vx").
Proof.
  split; [apply split_revision_absent|].
  split.
  { intros before frag -> Hf. rewrite (split_revision_last _ _ Hf).
    destruct (revision_match frag) as [digits|]; [|reflexivity].
    unfold int_of_digits. rewrite Z.ltb_antisym.
    destruct (len digits <=? MAX_STR_DIGITS); reflexivity. }
  split; [apply revision_match_spec|].
  split; reflexivity.
Qed.

Lemma revision_step_witness :
  contains "/v" "3" = false
  /\ split_revision ("holdings/fund" ++ "/v" ++ "3")
     = Ok (Some 3, "holdings/fund").
Proof.
  split; [reflexivity|].
  exact (proj1 (proj2 (revision_step ("holdings/fund" ++ "/v" ++ "3")))
           "holdings/fund" "3" eq_refl eq_refl).
Defined.

Lemma namespace_disambiguation_witness :
  namespace_prefix "official@rates/usd" "official" "rates/usd"
  /\ parse_moniker (U := Url.ascii_urllib) "official@rates/usd" true
     = Ok {| path := {| segments := ["rates"; "usd"] |};
             namespace := Some "official"; version := None; revision := None;
             params := [] |}.
Proof.
  assert (Hp : namespace_prefix "official@rates/usd" "official" "rates/usd")
    by (repeat split).
  split; [exact Hp|].
  exact (proj1 (proj1 (@namespace_disambiguation Url.ascii_urllib)
                  "official@rates/usd" "official@rates/usd" "" true
                  ltac:(discriminate) eq_refl)
           "official" "rates/usd" Hp).
Defined.

Lemma version_grammar_rejection_witness :
  split_revision "a/b@1.0" = Ok (None, "a/b" ++ "@" ++ "1.0")
  /\ all_chars is_alnum "1.0" = false
  /\ parse_moniker (U := Url.ascii_urllib) "a/b@1.0" true
     = Raise (MonikerParseError (invalid_version_msg "1.0")).
Proof.
  split; [reflexivity|]. split; [reflexivity|].
  exact (proj1 (proj1 (@version_grammar_rejection Url.ascii_urllib)
                  "a/b@1.0" "a/b@1.0" "" "a/b@1.0" "a/b" "1.0" None None
                  ltac:(discriminate) eq_refl eq_refl eq_refl eq_refl eq_refl)
           ltac:(discriminate) eq_refl eq_refl).
Defined.



(** ** The path algebra *)

Section PathAlgebra.

Lemma segments_eqb_eq (a b : list string) : segments_eqb a b = true <-> a = b.
Proof.
  unfold segments_eqb. destruct (list_eq_dec string_dec a b); split;
    congruence.
Qed.

Lemma path_eq (a b : MonikerPath) : segments a = segments b -> a = b.
Proof. destruct a, b. simpl. congruence. Qed.

(** [a] is an ancestor of [b] when the segments of [b] are those of [a]
    followed by at least one more. *)
Lemma is_ancestor_of_spec (a b : MonikerPath) :
  is_ancestor_of a b = true
  <-> exists rest, rest <> [] /\ segments b = (segments a ++ rest)%list.
Proof.
  unfold is_ancestor_of, path_len. split.
  - destruct (Z.leb_spec (Z.of_nat (List.length (segments b)))
                (Z.of_nat (List.length (segments a)))) as [|Hlt];
      [discriminate|].
    intros H. apply segments_eqb_eq in H.
    exists (skipn (List.length (segments a)) (segments b)). split.
    + intros E. pose proof (length_skipn (List.length (segments a)) (segments b)) as Hl.
      rewrite E in Hl. simpl in Hl. lia.
    + rewrite <- H at 1. symmetry. apply firstn_skipn.
  - intros (rest & Hne & E). rewrite E, length_app.
    destruct rest as [|r rest]; [congruence|]. simpl List.length.
    destruct (Z.leb_spec (Z.of_nat (List.length (segments a) + S (List.length rest)))
                (Z.of_nat (List.length (segments a)))); [lia|].
    apply segments_eqb_eq.
    rewrite firstn_app, Nat.sub_diag, firstn_all. simpl. apply app_nil_r.
Qed.

(** X3. [is_ancestor_of] is a strict order on paths: no path is its own
    ancestor, an ancestor of an ancestor is an ancestor, and two paths are
    never ancestors of each other; [is_descendant_of] is its converse, and
    the root is an ancestor of every other path. *)
Theorem is_ancestor_of_strict_order (a b c : MonikerPath) :
  is_ancestor_of a a = false
  /\ (is_ancestor_of a b = true -> is_ancestor_of b c = true ->
      is_ancestor_of a c = true)
  /\ (is_ancestor_of a b = true -> is_ancestor_of b a = false)
  /\ is_descendant_of a b = is_ancestor_of b a
  /\ (is_ancestor_of root a = true <-> a <> root).
Proof.
  split; [|split; [|split; [|split]]].
  - unfold is_ancestor_of. rewrite Z.leb_refl. reflexivity.
  - intros Hab Hbc. apply is_ancestor_of_spec in Hab as (r1 & Hr1 & E1).
    apply is_ancestor_of_spec in Hbc as (r2 & Hr2 & E2).
    apply is_ancestor_of_spec. exists (r1 ++ r2)%list. split.
    + destruct r1; [congruence|discriminate].
    + rewrite E2, E1, app_assoc. reflexivity.
  - intros Hab. apply is_ancestor_of_spec in Hab as (r1 & Hr1 & E1).
    unfold is_ancestor_of, path_len. rewrite E1, length_app.
    destruct (Z.leb_spec (Z.of_nat (List.length (segments a)))
                (Z.of_nat (List.length (segments a) + List.length r1)));
      [reflexivity|lia].
  - reflexivity.
  - rewrite is_ancestor_of_spec. simpl. split.
    + intros (rest & Hne & E) ->. simpl in E. congruence.
    + intros H. exists (segments a). split; [|reflexivity].
      intros E. apply H. apply path_eq. exact E.
Qed.

Lemma is_ancestor_of_strict_order_witness :
  is_ancestor_of {| segments := ["x"] |} {| segments := ["x"; "y"] |} = true
  /\ is_ancestor_of {| segments := ["x"; "y"] |} {| segments := ["x"; "y"; "z"] |}
     = true
  /\ is_ancestor_of {| segments := ["x"] |} {| segments := ["x"; "y"; "z"] |} = true.
Proof.
  split; [reflexivity|]. split; [reflexivity|].
  exact (proj1 (proj2 (is_ancestor_of_strict_order
                         {| segments := ["x"] |} {| segments := ["x"; "y"] |}
                         {| segments := ["x"; "y"; "z"] |}))
           eq_refl eq_refl).
Defined.

Lemma nth_map_seq {A : Type} (f : nat -> A) (d : A) (start n i : nat) :
  (i < n)%nat -> nth i (map f (seq start n)) d = f (start + i)%nat.
Proof.
  revert start i. induction n as [|n IH]; intros start i Hi; [lia|].
  destruct i as [|i]; simpl.
  - rewrite Nat.add_0_r. reflexivity.
  - rewrite IH by lia. f_equal. lia.
Qed.

(** X2. The ancestors of a path are exactly its strict ancestors other than
    the root (which [is_ancestor_of] counts and [ancestors] leaves out),
    each once, from the shortest to the longest: there is one fewer than
    the path has segments (none for the root), the i-th (from 0) holds the
    first i+1 segments, and the last one, if any, is the parent. *)
Theorem ancestors_characterized (p : MonikerPath) :
  (forall a : MonikerPath,
      In a (ancestors p) <-> is_ancestor_of a p = true /\ a <> root)
  /\ List.length (ancestors p) = (List.length (segments p) - 1)%nat
  /\ (forall i : nat,
         (i < List.length (ancestors p))%nat ->
         nth i (ancestors p) root = {| segments := firstn (S i) (segments p) |})
  /\ NoDup (ancestors p)
  /\ parent p = match ancestors p with
                | [] => None
                | _ :: _ => Some (List.last (ancestors p) root)
                end.
Proof.
  assert (Hlen : List.length (ancestors p) = (List.length (segments p) - 1)%nat).
  { unfold ancestors. rewrite length_map, length_seq. reflexivity. }
  assert (Hnth : forall i : nat,
             (i < List.length (ancestors p))%nat ->
             nth i (ancestors p) root
             = {| segments := firstn (S i) (segments p) |}).
  { intros i Hi. rewrite Hlen in Hi. unfold ancestors.
    rewrite nth_map_seq by exact Hi. reflexivity. }
  split; [|split; [exact Hlen|split; [exact Hnth|split]]].
  - intros a. unfold ancestors. rewrite in_map_iff. split.
    + intros (i & <- & Hi). apply in_seq in Hi. split.
      * apply is_ancestor_of_spec. simpl.
        exists (skipn i (segments p)). split.
        -- intros E. pose proof (length_skipn i (segments p)) as Hl.
           rewrite E in Hl. simpl in Hl. lia.
        -- symmetry. apply firstn_skipn.
      * intros E. apply (f_equal segments) in E. simpl in E.
        apply (f_equal (@List.length string)) in E.
        rewrite length_firstn in E. simpl in E. lia.
    + intros [Ha Hne]. apply is_ancestor_of_spec in Ha as (rest & Hr & E).
      exists (List.length (segments a)). split.
      * apply path_eq. simpl. rewrite E, firstn_app, Nat.sub_diag, firstn_all.
        simpl. apply app_nil_r.
      * apply in_seq. rewrite E, length_app.
        assert (segments a <> []) by (intros E0; apply Hne, path_eq; exact E0).
        destruct (segments a); [congruence|].
        destruct rest; [congruence|]. simpl. lia.
  - unfold ancestors. apply NoDup_map_NoDup_ForallPairs; [|apply seq_NoDup].
    intros i j Hi Hj E. apply in_seq in Hi. apply in_seq in Hj.
    apply (f_equal segments) in E. simpl in E.
    apply (f_equal (@List.length string)) in E.
    rewrite !length_firstn in E. lia.
  - unfold parent, path_len.
    destruct (Z.leb_spec (Z.of_nat (List.length (segments p))) 1) as [Hle|Hgt].
    + destruct (ancestors p) eqn:E; [reflexivity|].
      simpl in Hlen. lia.
    + assert (E : ancestors p
                  = (map (fun i => {| segments := firstn i (segments p) |})
                       (seq 1 (List.length (segments p) - 2))
                     ++ [{| segments := removelast (segments p) |}])%list).
      { unfold ancestors.
        replace (List.length (segments p) - 1)%nat
          with (S (List.length (segments p) - 2)) by lia.
        rewrite seq_S, map_app. cbn [map]. f_equal. f_equal. apply path_eq.
        cbn [segments]. rewrite removelast_firstn_len.
        replace (1 + (List.length (segments p) - 2))%nat
          with (Nat.pred (List.length (segments p))) by lia.
        reflexivity. }
      rewrite E, last_last.
      destruct (map _ _ ++ _)%list eqn:E'; [|reflexivity].
      destruct (map (fun i => {| segments := firstn i (segments p) |})
                  (seq 1 (List.length (segments p) - 2))); discriminate.
Qed.

(** X4. A child ends in the segment given and has the path it was made
    from as an ancestor; its parent is that path, except for a child of
    the root, which has no parent (the parent of a one-segment path is
    [None], not the root); and its ancestors are those of that path and
    that path itself, the root left out. *)
Theorem child_parent_leaf (p : MonikerPath) (s : string) :
  leaf (child p s) = Some s
  /\ is_ancestor_of p (child p s) = true
  /\ parent (child p s) = (if path_bool p then Some p else None)
  /\ ancestors (child p s)
     = (if path_bool p then ancestors p ++ [p] else [])%list
  /\ domain (child p s) = (if path_bool p then domain p else Some s)
  /\ path_str (child p s)
     = (if path_bool p then path_str p ++ "/" ++ s else s).
Proof.
  destruct p as [segs]. unfold child, path_bool, path_len. simpl segments.
  split; [|split; [|split; [|split; [|split]]]].
  - unfold leaf. simpl. destruct (segs ++ [s])%list eqn:E.
    + destruct segs; discriminate.
    + rewrite <- E, last_last. reflexivity.
  - apply is_ancestor_of_spec. exists [s]. split; [discriminate|reflexivity].
  - unfold parent, path_len. simpl. rewrite length_app. simpl.
    destruct segs as [|x l]; [reflexivity|].
    simpl List.length.
    destruct (Z.leb_spec (Z.of_nat (S (List.length l) + 1)) 1); [lia|].
    rewrite removelast_last. reflexivity.
  - unfold ancestors. simpl. rewrite length_app. simpl.
    destruct segs as [|x l]; [reflexivity|]. simpl List.length.
    replace (S (List.length l) + 1 - 1)%nat with (S (List.length l - 0)) by lia.
    rewrite seq_S, map_app. cbn [Z.ltb Z.of_nat Z.compare].
    replace (S (List.length l) - 1)%nat with (List.length l - 0)%nat by lia.
    f_equal.
    + apply map_ext_in. intros i Hi. apply in_seq in Hi. apply path_eq. simpl.
      destruct i; [lia|]. simpl.
      rewrite firstn_app. replace (i - List.length l)%nat with O by lia.
      simpl. rewrite app_nil_r. reflexivity.
    + simpl. f_equal. apply path_eq. simpl. f_equal.
      rewrite Nat.sub_0_r. rewrite firstn_app, Nat.sub_diag, firstn_all.
      apply app_nil_r.
  - unfold domain. simpl. destruct segs; reflexivity.
  - unfold path_str. simpl. destruct segs as [|x l]; [reflexivity|].
    cbn [Z.ltb Z.of_nat Z.compare List.length].
    clear. revert x. induction l as [|y l IH]; intros x; [reflexivity|].
    change ((x :: y :: l) ++ [s])%list with (x :: (y :: l) ++ [s])%list.
    change (((y :: l) ++ [s])%list) with (y :: (l ++ [s]))%list.
    rewrite !join_cons.
    change (y :: (l ++ [s]))%list with ((y :: l) ++ [s])%list.
    rewrite IH, !append_assoc. reflexivity.
Qed.

End PathAlgebra.


(** ** Paths and their text *)

Section PathText.

Lemma join_split (c : ascii) (s : string) :
  join (String c "") (split c s) = s.
Proof.
  induction s as [|a s IH]; [reflexivity|].
  simpl split. pose proof (split_nonempty c s) as Hne.
  destruct (split c s) as [|w ws] eqn:E; [congruence|].
  destruct (Ascii.eqb_spec a c) as [->|Hac].
  - rewrite join_cons, IH. reflexivity.
  - destruct ws as [|y ws].
    + simpl in IH. simpl. rewrite IH. reflexivity.
    + rewrite <- IH, !join_cons. reflexivity.
Qed.

Lemma split_pieces_free (c : ascii) (s seg : string) :
  In seg (split c s) -> has_char c seg = false.
Proof.
  revert seg. induction s as [|a s IH]; intros seg Hin.
  - destruct Hin as [<-|[]]. reflexivity.
  - simpl in Hin. destruct (Ascii.eqb a c) eqn:Ea.
    + destruct Hin as [<-|Hin]; [reflexivity|]. exact (IH seg Hin).
    + destruct (split c s) as [|w ws] eqn:E.
      * destruct Hin as [<-|[]]. rewrite has_char_cons, Ea. reflexivity.
      * destruct Hin as [<-|Hin].
        -- rewrite has_char_cons, Ea. apply IH. left. reflexivity.
        -- apply IH. right. exact Hin.
Qed.

Lemma rstrip_first (p : ascii -> bool) (c : ascii) (s : string) :
  p c = false -> exists r, rstrip p (String c s) = String c r.
Proof.
  intros Hc. simpl. destruct (rstrip p s); rewrite ?Hc; eauto.
Qed.

Lemma rstrip_cons (p : ascii -> bool) (c : ascii) (s : string) :
  rstrip p (String c s)
  = match rstrip p s with
    | "" => if p c then "" else String c ""
    | String x r => String c (String x r)
    end.
Proof. reflexivity. Qed.

Lemma rstrip_idempotent (p : ascii -> bool) (s : string) :
  rstrip p (rstrip p s) = rstrip p s.
Proof.
  induction s as [|c s IH]; [reflexivity|].
  rewrite rstrip_cons. destruct (rstrip p s) as [|x r] eqn:E.
  - destruct (p c) eqn:Hc; [reflexivity|].
    rewrite rstrip_cons. simpl. rewrite Hc. reflexivity.
  - rewrite rstrip_cons, IH. reflexivity.
Qed.

Lemma lstrip_first (p : ascii -> bool) (s : string) :
  match lstrip p s with String c _ => p c | "" => false end = false.
Proof.
  induction s as [|c s IH]; [reflexivity|].
  simpl. destruct (p c) eqn:Hc; [exact IH|]. simpl. exact Hc.
Qed.

Lemma strip_by_idempotent (p : ascii -> bool) (s : string) :
  strip_by p (strip_by p s) = strip_by p s.
Proof.
  unfold strip_by. pose proof (lstrip_first p s) as Hf.
  destruct (lstrip p s) as [|c t] eqn:E; [reflexivity|].
  destruct (rstrip_first p c t Hf) as [r Hr]. rewrite Hr.
  simpl lstrip. rewrite Hf. rewrite <- Hr. apply rstrip_idempotent.
Qed.

Lemma parse_path_unvalidated (s : string) :
  parse_path s false
  = Ok (if negb (truthy (strip_char "/" s)) then root
        else {| segments := split "/" (strip_char "/" s) |}).
Proof.
  rewrite parse_path_clean. cbv zeta.
  destruct (negb (truthy (strip_char "/" s))); reflexivity.
Qed.

(** What a successful [parse_path] returns. *)
Lemma parse_path_ok (s : string) (validate : bool) (p : MonikerPath) :
  parse_path s validate = Ok p ->
  path_str p = strip_char "/" s
  /\ parse_path s false = Ok p
  /\ (validate = true ->
      Forall (fun seg => validate_segment seg = true) (segments p)).
Proof.
  intros Hp. rewrite parse_path_unvalidated. rewrite parse_path_clean in Hp.
  cbv zeta in Hp.
  destruct (negb (truthy (strip_char "/" s))) eqn:E.
  - injection Hp as <-. apply negb_true_iff, truthy_false in E.
    rewrite E. repeat split. constructor.
  - destruct validate.
    + rewrite check_segments_find in Hp.
      destruct (List.find _ _) eqn:Ef; [discriminate|].
      injection Hp as <-. unfold path_str. simpl. rewrite join_split.
      repeat split. intros _. apply find_none_forall, Ef.
    + injection Hp as <-. unfold path_str. simpl. rewrite join_split.
      repeat split. discriminate.
Qed.

(** X5. The text of a parsed path. Without validation [parse_path] never
    raises. Whenever it returns a path, the text of that path is the input
    with its outer slashes stripped, and parsing that text again returns
    the same path. With validation, every segment of the returned path
    passes [validate_segment], the unvalidated parse returns the same
    path, and a failure names the first segment that fails. *)
Theorem parse_path_text (s : string) (validate : bool) :
  is_ok (parse_path s false) = true
  /\ (forall p : MonikerPath,
         parse_path s validate = Ok p ->
         path_str p = strip_char "/" s
         /\ parse_path (path_str p) validate = Ok p
         /\ parse_path s false = Ok p
         /\ (validate = true ->
             Forall (fun seg => validate_segment seg = true) (segments p)))
  /\ (forall e : exn,
         parse_path s validate = Raise e ->
         validate = true
         /\ exists seg,
              List.find (fun seg => negb (validate_segment seg))
                (split "/" (strip_char "/" s)) = Some seg
              /\ e = MonikerParseError (invalid_segment_msg seg)).
Proof.
  split; [rewrite parse_path_unvalidated; reflexivity|].
  split.
  - intros p Hp.
    pose proof (parse_path_ok s validate p Hp) as Hstr.
    destruct Hstr as (Hs & Hf & Hv). repeat split; try assumption.
    rewrite Hs. rewrite parse_path_clean in *. cbv zeta in *.
    unfold strip_char in *. rewrite strip_by_idempotent. exact Hp.
  - intros e He. rewrite parse_path_clean in He. cbv zeta in He.
    destruct (negb (truthy (strip_char "/" s))); [discriminate|].
    destruct validate; [|discriminate]. split; [reflexivity|].
    rewrite check_segments_find in He.
    destruct (List.find _ _) as [seg|]; [|discriminate].
    injection He as <-. exists seg. split; reflexivity.
Qed.

Lemma parse_path_text_witness :
  parse_path "/rates/usd/" true = Ok {| segments := ["rates"; "usd"] |}
  /\ path_str {| segments := ["rates"; "usd"] |} = strip_char "/" "/rates/usd/"
  /\ parse_path "rates/usd" true = Ok {| segments := ["rates"; "usd"] |}.
Proof.
  split; [reflexivity|].
  pose proof (proj1 (proj2 (parse_path_text "/rates/usd/" true))
                {| segments := ["rates"; "usd"] |} eq_refl) as (H1 & H2 & _).
  exact (conj H1 H2).
Defined.

Lemma filter_truthy_id (l : list string) :
  Forall (fun s => s <> "") l -> filter truthy l = l.
Proof.
  intros H. apply forallb_filter_id, forallb_forall. intros s Hin.
  rewrite Forall_forall in H. apply truthy_true, H, Hin.
Qed.

(** X6. [from_string] is the unvalidated [parse_path] with the empty
    pieces dropped: its result never holds an empty segment nor a segment
    with a slash, it agrees with [parse_path] whenever the validated parse
    succeeds, and it gives back every path whose segments are non-empty
    and free of slashes from the text of that path. *)
Theorem from_string_parse_path (s : string) :
  (forall p : MonikerPath,
      parse_path s false = Ok p ->
      from_string s = {| segments := filter truthy (segments p) |})
  /\ Forall (fun seg => seg <> "" /\ has_char "/" seg = false)
       (segments (from_string s))
  /\ (forall p : MonikerPath, parse_path s true = Ok p -> from_string s = p)
  /\ (forall p : MonikerPath,
         Forall (fun seg => seg <> "" /\ has_char "/" seg = false) (segments p) ->
         from_string (path_str p) = p).
Proof.
  assert (Hfs : from_string s
                = {| segments := filter truthy (split "/" (strip_char "/" s)) |}
                  \/ (from_string s = root /\ strip_char "/" s = "")).
  { unfold from_string. destruct (negb (truthy s) || String.eqb s "/") eqn:E;
      [|left; reflexivity].
    right. split; [reflexivity|]. apply orb_true_iff in E as [E|E].
    - apply negb_true_iff, truthy_false in E. subst. reflexivity.
    - apply String.eqb_eq in E. subst. reflexivity. }
  assert (Hgen : forall p, parse_path s false = Ok p ->
                           from_string s = {| segments := filter truthy (segments p) |}).
  { intros p Hp. rewrite parse_path_unvalidated in Hp. injection Hp as <-.
    destruct Hfs as [->|[-> E]].
    - destruct (negb (truthy (strip_char "/" s))) eqn:Et; [|reflexivity].
      apply negb_true_iff, truthy_false in Et. rewrite Et. reflexivity.
    - rewrite E. reflexivity. }
  split; [exact Hgen|]. split; [|split].
  - destruct Hfs as [->|[-> _]]; [|constructor].
    simpl. apply Forall_forall. intros seg Hin. apply filter_In in Hin as [Hin Ht].
    split; [apply truthy_true, Ht|]. exact (split_pieces_free _ _ _ Hin).
  - intros p Hp.
    destruct (parse_path_ok s true p Hp) as (_ & Hf & Hv).
    rewrite (Hgen p Hf). apply path_eq. simpl. apply filter_truthy_id.
    specialize (Hv eq_refl). revert Hv. apply Forall_impl.
    intros seg Hseg ->. discriminate.
  - clear Hfs Hgen. intros p Hp. destruct p as [segs]. simpl in Hp.
    unfold path_str. simpl. destruct segs as [|x l]; [reflexivity|].
    assert (Hne : join "/" (x :: l) <> "").
    { apply join_nonempty. inversion Hp as [|? ? [Hx _] _]; subst. exact Hx. }
    assert (Hstrip : strip_char "/" (join "/" (x :: l)) = join "/" (x :: l)).
    { unfold strip_char, strip_by. rewrite lstrip_id.
      - apply rstrip_join. revert Hp. apply Forall_impl. intros seg [Hs Hc].
        split; [exact Hs|]. unfold has_char in Hc.
        apply negb_false_iff in Hc. revert Hc. apply all_chars_impl.
        intros c Hc. rewrite Ascii.eqb_sym. exact Hc.
      - inversion Hp as [|? ? [Hx Hc] _]; subst.
        destruct x as [|c x]; [congruence|].
        rewrite has_char_cons in Hc. apply orb_false_iff in Hc as [Hc _].
        rewrite Ascii.eqb_sym in Hc. destruct l; exact Hc. }
    unfold from_string.
    assert (Hs : String.eqb (join "/" (x :: l)) "/" = false).
    { apply String.eqb_neq. intros E. rewrite E in Hstrip. simpl in Hstrip.
      rewrite <- Hstrip in E. discriminate. }
    apply truthy_true in Hne. rewrite Hne, Hs. cbn [negb orb].
    apply path_eq. cbn [segments]. rewrite Hstrip, (split_join "/" (x :: l)).
    + apply filter_truthy_id. revert Hp. apply Forall_impl. intros seg [H _]. exact H.
    + discriminate.
    + revert Hp. apply Forall_impl. intros seg [_ H]. exact H.
Qed.

Lemma from_string_parse_path_witness :
  parse_path "a//b" false = Ok {| segments := ["a"; ""; "b"] |}
  /\ from_string "a//b" = {| segments := ["a"; "b"] |}.
Proof.
  split; [reflexivity|].
  exact (proj1 (from_string_parse_path "a//b")
           {| segments := ["a"; ""; "b"] |} eq_refl).
Defined.

End PathText.


(** ** The parser, step by step *)

Section ParserSteps.
Context {U : Url.UrlLib}.

(** A successful parse went through every step. *)
Lemma parse_moniker_ok_steps (s : string) (validate : bool) (m : Moniker) :
  parse_moniker s validate = Ok m ->
  s <> ""
  /\ exists body q ns rem0 rev rem1 ver rem2 p,
       split_scheme (strip s) = Ok (body, q)
       /\ split_namespace body validate = Ok (ns, rem0)
       /\ split_revision rem0 = Ok (rev, rem1)
       /\ split_version rem1 validate = Ok (ver, rem2)
       /\ parse_path rem2 validate = Ok p
       /\ m = {| path := p; namespace := ns; version := ver;
                 revision := rev; params := parse_params q |}.
Proof.
  intros H. destruct (string_dec s "") as [->|Hne]; [discriminate|].
  split; [exact Hne|]. rewrite parse_moniker_nonempty in H by exact Hne.
  destruct (split_scheme (strip s)) as [[body q]|] eqn:Es; [|discriminate].
  cbn [bind] in H. unfold parse_body in H.
  destruct (split_namespace body validate) as [[ns rem0]|] eqn:En;
    [|discriminate].
  cbn [bind] in H. unfold parse_tail in H.
  destruct (split_revision rem0) as [[rev rem1]|] eqn:Er; [|discriminate].
  cbn [bind] in H.
  destruct (split_version rem1 validate) as [[ver rem2]|] eqn:Ev; [|discriminate].
  cbn [bind] in H.
  destruct (parse_path rem2 validate) as [p|] eqn:Ep; [|discriminate].
  cbn [bind] in H. injection H as <-.
  exists body, q, ns, rem0, rev, rem1, ver, rem2, p.
  repeat split; assumption.
Qed.

Lemma parse_moniker_of_steps (s body q rem0 rem1 rem2 : string) (validate : bool)
    (ns ver : option string) (rev : option Z) (p : MonikerPath) :
  s <> "" ->
  split_scheme (strip s) = Ok (body, q) ->
  split_namespace body validate = Ok (ns, rem0) ->
  split_revision rem0 = Ok (rev, rem1) ->
  split_version rem1 validate = Ok (ver, rem2) ->
  parse_path rem2 validate = Ok p ->
  parse_moniker s validate
  = Ok {| path := p; namespace := ns; version := ver;
          revision := rev; params := parse_params q |}.
Proof.
  intros Hne Hs Hn Hr Hv Hp. rewrite parse_moniker_nonempty, Hs by exact Hne.
  cbn [bind]. unfold parse_body. rewrite Hn. cbn [bind]. unfold parse_tail.
  rewrite Hr. cbn [bind]. rewrite Hv. cbn [bind]. rewrite Hp. reflexivity.
Qed.

(** The steps without validation. *)
Lemma split_namespace_lenient (body : string) :
  is_ok (split_namespace body false) = true
  /\ forall x, split_namespace body true = Ok x -> split_namespace body false = Ok x.
Proof.
  unfold split_namespace. destruct (negb _ && _); [|split; [reflexivity|auto]].
  cbn [andb]. split; [reflexivity|].
  intros x. destruct (negb (validate_namespace _)); [discriminate|auto].
Qed.

Lemma split_namespace_strict (body : string) (x : option string * string) :
  split_namespace body false = Ok x ->
  split_namespace body true = Ok x
  \/ exists n, split_namespace body true
               = Raise (MonikerParseError (invalid_namespace_msg n)).
Proof.
  unfold split_namespace. destruct (negb _ && _); [|auto].
  cbn [andb]. destruct (negb (validate_namespace _)); [|auto].
  intros _. right. eexists. reflexivity.
Qed.

Lemma split_version_lenient (remaining : string) :
  is_ok (split_version remaining false) = true
  /\ forall x, split_version remaining true = Ok x ->
               split_version remaining false = Ok x.
Proof.
  unfold split_version.
  destruct (contains "@" remaining); [|split; [reflexivity|auto]].
  destruct (_ <? _); [|split; [reflexivity|auto]].
  cbn [andb]. split; [reflexivity|].
  intros x. destruct (truthy _ && negb _); [discriminate|auto].
Qed.

Lemma split_revision_raises (remaining : string) (e : exn) :
  split_revision remaining = Raise e -> e = ValueError.
Proof.
  unfold split_revision. destruct (contains "/v" remaining); [|discriminate].
  destruct (rsplit1 "/v" remaining) as [|a [|b [|]]]; try discriminate.
  destruct (revision_match b) as [digits|]; [|discriminate].
  destruct (int_of_digits digits) eqn:E; [discriminate|].
  cbn [bind]. intros [= <-]. apply (int_of_digits_raises _ _ E).
Qed.

(** Without validation, past the scheme step, the revision step decides. *)
Lemma parse_lenient_revision (s body q rem0 : string) (ns : option string) :
  s <> "" -> split_scheme (strip s) = Ok (body, q) ->
  split_namespace body false = Ok (ns, rem0) ->
  match split_revision rem0 with
  | Ok _ => is_ok (parse_moniker s false) = true
  | Raise e => parse_moniker s false = Raise e
  end.
Proof.
  intros Hne Hs Hn. rewrite parse_moniker_nonempty, Hs by exact Hne.
  cbn [bind]. unfold parse_body. rewrite Hn. cbn [bind]. unfold parse_tail.
  destruct (split_revision rem0) as [[rev rem1]|e]; [|reflexivity].
  cbn [bind]. pose proof (proj1 (split_version_lenient rem1)) as Hv.
  destruct (split_version rem1 false) as [[ver rem2]|]; [|discriminate].
  cbn [bind]. rewrite parse_path_unvalidated. reflexivity.
Qed.

(** X7. Validation only rejects. Whatever parses with validation parses
    without it to the same moniker. Without validation a non-empty input
    that gets through the scheme step is accepted, unless its revision
    step raises (a run of more than 4300 digits), which is then the
    failure. A failure without validation is a failure with validation:
    the same one, or the [ValueError] of the revision step gives way to the
    invalid-namespace error, which validation raises first. *)
Theorem validation_only_rejects (s : string) :
  (forall m : Moniker,
      parse_moniker s true = Ok m -> parse_moniker s false = Ok m)
  /\ (forall (body q rem0 : string) (ns : option string),
         s <> "" -> split_scheme (strip s) = Ok (body, q) ->
         split_namespace body false = Ok (ns, rem0) ->
         (is_ok (split_revision rem0) = true ->
          is_ok (parse_moniker s false) = true)
         /\ (is_ok (split_revision rem0) = false ->
             split_revision rem0 = Raise ValueError
             /\ parse_moniker s false = Raise ValueError))
  /\ (forall e : exn,
         parse_moniker s false = Raise e ->
         parse_moniker s true = Raise e
         \/ (e = ValueError
             /\ exists n, parse_moniker s true
                          = Raise (MonikerParseError (invalid_namespace_msg n)))).
Proof.
  split; [|split].
  - intros m H. apply parse_moniker_ok_steps in H
      as (Hne & body & q & ns & rem0 & rev & rem1 & ver & rem2 & p
          & Hs & Hn & Hr & Hv & Hp & ->).
    apply parse_moniker_of_steps
      with (body := body) (rem0 := rem0) (rem1 := rem1) (rem2 := rem2);
      try assumption.
    + apply split_namespace_lenient, Hn.
    + apply split_version_lenient, Hv.
    + apply (parse_path_ok rem2 true p Hp).
  - intros body q rem0 ns Hne Hs Hn.
    pose proof (parse_lenient_revision s body q rem0 ns Hne Hs Hn) as H.
    destruct (split_revision rem0) as [x|e] eqn:Er.
    + split; [intros _; exact H|discriminate].
    + split; [discriminate|]. intros _.
      rewrite (split_revision_raises _ _ Er) in *. split; [reflexivity|exact H].
  - intros e H. destruct (string_dec s "") as [->|Hne]; [left; exact H|].
    destruct (split_scheme (strip s)) as [[body q]|e'] eqn:Hs.
    + pose proof (proj1 (split_namespace_lenient body)) as Hok.
      destruct (split_namespace body false) as [[ns rem0]|] eqn:Hn;
        [|discriminate].
      pose proof (parse_lenient_revision s body q rem0 ns Hne Hs Hn) as Hl.
      destruct (split_revision rem0) as [x|e0] eqn:Er.
      * rewrite H in Hl. discriminate.
      * rewrite H in Hl. injection Hl as ->.
        pose proof (split_revision_raises _ _ Er) as ->.
        destruct (split_namespace_strict body _ Hn) as [Hn'|[n Hn']].
        -- left. rewrite parse_moniker_nonempty, Hs by exact Hne.
           cbn [bind]. unfold parse_body. rewrite Hn'. cbn [bind].
           unfold parse_tail. rewrite Er. reflexivity.
        -- right. split; [reflexivity|]. exists n.
           rewrite parse_moniker_nonempty, Hs by exact Hne.
           cbn [bind]. unfold parse_body. rewrite Hn'. reflexivity.
    + left. rewrite parse_moniker_nonempty in * by exact Hne.
      rewrite Hs in *. exact H.
Qed.

End ParserSteps.


(** ** Query parameters with repeated names *)

Section QueryRepeats.
Context {U : Url.UrlLib}.

Lemma existsb_eqb_In (k : string) (l : list string) :
  existsb (String.eqb k) l = true <-> In k l.
Proof.
  rewrite existsb_exists. split.
  - intros (x & Hin & E). apply String.eqb_eq in E. subst. exact Hin.
  - intros Hin. exists k. split; [exact Hin|apply String.eqb_refl].
Qed.

Lemma first_occurrences_seen (seen seen' : list string)
    (fields : list (string * string)) :
  (forall k, In k seen <-> In k seen') ->
  first_occurrences seen fields = first_occurrences seen' fields.
Proof.
  revert seen seen'. induction fields as [|[k v] fields IH]; intros seen seen' H;
    [reflexivity|].
  simpl. assert (E : existsb (String.eqb k) seen = existsb (String.eqb k) seen').
  { apply eq_true_iff_eq. rewrite !existsb_eqb_In. apply H. }
  rewrite E. destruct (existsb _ seen').
  - apply IH, H.
  - f_equal. apply IH. intros x. simpl. rewrite H. reflexivity.
Qed.

Lemma first_occurrences_keys (seen : list string)
    (fields : list (string * string)) :
  NoDup (map fst (first_occurrences seen fields))
  /\ forall k, In k (map fst (first_occurrences seen fields)) ->
               ~ In k seen /\ In k (map fst fields).
Proof.
  revert seen. induction fields as [|[k v] fields IH]; intros seen.
  - split; [constructor|]. intros k [].
  - simpl. destruct (existsb (String.eqb k) seen) eqn:E.
    + destruct (IH seen) as [Hn Hk]. split; [exact Hn|].
      intros x Hx. destruct (Hk x Hx). tauto.
    + destruct (IH (k :: seen)) as [Hn Hk]. split.
      * simpl. constructor; [|exact Hn]. intros Hin.
        apply Hk in Hin. simpl in Hin. tauto.
      * intros x [<-|Hx].
        -- split; [|left; reflexivity]. intros Hin.
           apply existsb_eqb_In in Hin. simpl in Hin. congruence.
        -- destruct (Hk x Hx) as [Hs Hf]. simpl in Hs. tauto.
Qed.

Lemma first_occurrences_get (seen : list string)
    (fields : list (string * string)) (k : string) :
  dict_get k (first_occurrences seen fields)
  = if existsb (String.eqb k) seen then None else dict_get k fields.
Proof.
  revert seen. induction fields as [|[k' v] fields IH]; intros seen.
  - simpl. destruct (existsb _ _); reflexivity.
  - simpl. destruct (existsb (String.eqb k') seen) eqn:E.
    + rewrite IH. destruct (String.eqb_spec k' k) as [->|Hne]; [|reflexivity].
      rewrite E. reflexivity.
    + simpl. destruct (String.eqb_spec k' k) as [->|Hne].
      * rewrite E. reflexivity.
      * rewrite IH. simpl. destruct (String.eqb_spec k k'); [congruence|].
        reflexivity.
Qed.

(** The first value of every name of a [parse_qs] result. *)
Lemma add_value_known (k v : string) (d : list (string * list string)) :
  In k (map fst d) ->
  Forall (fun kvs => snd kvs <> []) d ->
  map fst (Url.add_value k v d) = map fst d
  /\ first_values (Url.add_value k v d) = first_values d
  /\ Forall (fun kvs => snd kvs <> []) (Url.add_value k v d).
Proof.
  induction d as [|[k' vs] d IH]; [intros []|].
  intros Hin Hd. inversion Hd as [|? ? Hvs Hd']; subst. simpl in Hvs.
  simpl. destruct (String.eqb_spec k' k) as [->|Hne].
  - simpl. repeat split.
    + destruct vs; [congruence|reflexivity].
    + constructor; [|exact Hd']. simpl. destruct vs; discriminate.
  - destruct Hin as [E|Hin]; [simpl in E; congruence|].
    destruct (IH Hin Hd') as (H1 & H2 & H3). simpl.
    rewrite H1. unfold first_values in *. simpl. rewrite H2.
    repeat split. constructor; assumption.
Qed.

Lemma first_values_app (d d' : list (string * list string)) :
  first_values (d ++ d') = (first_values d ++ first_values d')%list.
Proof. unfold first_values. apply flat_map_app. Qed.

Lemma fold_add_value_first (fields : list (string * string))
    (acc : list (string * list string)) :
  NoDup (map fst acc) ->
  Forall (fun kvs => snd kvs <> []) acc ->
  let d := fold_left (fun d nv => Url.add_value (fst nv) (snd nv) d) fields acc in
  NoDup (map fst d)
  /\ first_values d
     = (first_values acc ++ first_occurrences (map fst acc) fields)%list.
Proof.
  revert acc. induction fields as [|[k v] fields IH]; intros acc Hn Hd; cbv zeta.
  - simpl. rewrite app_nil_r. split; [exact Hn|reflexivity].
  - cbn [fold_left fst snd first_occurrences].
    destruct (existsb (String.eqb k) (map fst acc)) eqn:E.
    + apply existsb_eqb_In in E.
      destruct (add_value_known k v acc E Hd) as (H1 & H2 & H3).
      specialize (IH (Url.add_value k v acc)). cbv zeta in IH.
      rewrite H1, H2 in IH. apply IH; assumption.
    + assert (Hk : ~ In k (map fst acc)).
      { intros Hin. apply existsb_eqb_In in Hin. congruence. }
      rewrite add_value_fresh by exact Hk.
      specialize (IH (acc ++ [(k, [v])])%list). cbv zeta in IH.
      rewrite map_app, first_values_app in IH. simpl in IH.
      destruct IH as [I1 I2].
      * apply NoDup_app; [exact Hn|repeat constructor; intros []|].
        intros x Hx [<-|[]]. exact (Hk Hx).
      * apply Forall_app. split; [exact Hd|]. repeat constructor. discriminate.
      * split; [exact I1|]. rewrite I2, <- app_assoc. simpl. do 2 f_equal.
        apply first_occurrences_seen. intros x. rewrite in_app_iff. simpl.
        tauto.
Qed.

Lemma fold_dict_set_first (d : list (string * list string)) (acc : QueryParams) :
  NoDup (map fst acc ++ map fst d) ->
  fold_left
    (fun params (kvs : string * list string) =>
       match snd kvs with
       | v :: _ => dict_set (fst kvs) v params
       | [] => params
       end) d acc
  = (acc ++ first_values d)%list.
Proof.
  revert acc. induction d as [|[k vs] d IH]; intros acc H.
  - simpl. rewrite app_nil_r. reflexivity.
  - cbn [fold_left fst snd]. simpl map in H.
    pose proof (NoDup_remove_1 _ _ _ H) as H1.
    pose proof (NoDup_remove_2 _ _ _ H) as H2.
    destruct vs as [|v vs].
    + rewrite IH by exact H1. reflexivity.
    + rewrite dict_set_fresh.
      * rewrite IH.
        -- rewrite <- app_assoc. reflexivity.
        -- rewrite map_app, <- app_assoc. exact H.
      * intros Hin. apply H2, in_or_app. left. exact Hin.
Qed.

(** [parse_params] keeps the first field of every name. *)
Lemma parse_params_first (q : string) :
  parse_params q = first_occurrences [] (Url.parse_qsl q).
Proof.
  unfold parse_params. destruct q as [|c q]; [reflexivity|].
  cbn [truthy]. unfold Url.parse_qs.
  destruct (fold_add_value_first (Url.parse_qsl (String c q)) [])
    as [Hn Hf]; [constructor|constructor|].
  rewrite fold_dict_set_first by exact Hn. exact Hf.
Qed.

(** X8. When a name occurs more than once in a query, the first value
    wins: [parse_params] returns the first field of every name, in the order
    in which the names first occur, so no key occurs twice in the result and
    looking a key up gives the first field of that name, or the default when
    no field has it. *)
Theorem parse_params_first_wins (q : string) :
  parse_params q = first_occurrences [] (Url.parse_qsl q)
  /\ NoDup (map fst (parse_params q))
  /\ (forall k : string,
         dict_get k (parse_params q) = dict_get k (Url.parse_qsl q))
  /\ (forall (k : string) (default : option string),
         params_get (parse_params q) k default
         = match dict_get k (Url.parse_qsl q) with
           | Some v => Some v
           | None => default
           end)
  /\ (forall k : string,
         params_contains (parse_params q) k = true
         <-> In k (map fst (Url.parse_qsl q))).
Proof.
  rewrite parse_params_first.
  assert (Hget : forall k, dict_get k (first_occurrences [] (Url.parse_qsl q))
                           = dict_get k (Url.parse_qsl q)).
  { intros k. apply first_occurrences_get. }
  split; [reflexivity|]. split; [apply first_occurrences_keys|].
  split; [exact Hget|].
  split; [intros k default; unfold params_get; rewrite Hget; reflexivity|].
  intros k. unfold params_contains. rewrite Hget. clear Hget.
  induction (Url.parse_qsl q) as [|[k' v] l IH]; simpl; [split; [discriminate|tauto]|].
  destruct (String.eqb_spec k' k) as [->|Hne]; [tauto|].
  rewrite IH. split; [tauto|]. intros [E|H]; [congruence|exact H].
Qed.

End QueryRepeats.


(** ** What the parser accepts and how it fails *)

Section ParserOutcomes.
Context {U : Url.UrlLib}.

Lemma split_namespace_validated (body rest n : string) :
  split_namespace body true = Ok (Some n, rest) -> validate_namespace n = true.
Proof.
  unfold split_namespace. destruct (negb _ && _); [|discriminate].
  cbn [andb]. destruct (validate_namespace _) eqn:E; [|discriminate].
  simpl. intros [= <- _]. exact E.
Qed.

Lemma split_version_validated (remaining rest v : string) :
  split_version remaining true = Ok (Some v, rest) ->
  v = "" \/ VERSION_PATTERN v = true.
Proof.
  unfold split_version. destruct (contains "@" remaining); [|discriminate].
  destruct (_ <? _); [|discriminate]. cbn [andb].
  destruct (truthy _) eqn:Et.
  - destruct (VERSION_PATTERN _) eqn:E; [|discriminate].
    simpl. intros [= <- _]. right. exact E.
  - simpl. intros [= <- _]. left. apply truthy_false, Et.
Qed.

(** X9. What a validated parse returns: every segment passes
    [validate_segment], a namespace passes [validate_namespace], a version
    is empty or matches the version pattern, a revision is not negative and
    no parameter name occurs twice. *)
Theorem validated_result_invariant (s : string) (m : Moniker) :
  parse_moniker s true = Ok m ->
  Forall (fun seg => validate_segment seg = true) (segments (path m))
  /\ (forall n, namespace m = Some n -> validate_namespace n = true)
  /\ (forall v, version m = Some v -> v = "" \/ VERSION_PATTERN v = true)
  /\ (forall r, revision m = Some r -> 0 <= r)
  /\ NoDup (map fst (params m)).
Proof.
  intros H. pose proof (proj2 (parse_moniker_revision s true m H)) as Hrev.
  apply parse_moniker_ok_steps in H
    as (_ & body & q & ns & rem0 & rev & rem1 & ver & rem2 & p
        & _ & Hn & _ & Hv & Hp & ->).
  cbn [path namespace version revision params] in *. repeat split.
  - apply (parse_path_ok rem2 true p Hp). reflexivity.
  - intros n ->. exact (split_namespace_validated _ _ _ Hn).
  - intros v ->. exact (split_version_validated _ _ _ Hv).
  - exact Hrev.
  - rewrite parse_params_first. apply first_occurrences_keys.
Qed.

Lemma split1_found (sep s : string) :
  contains sep s = true ->
  split1 sep s = [slice_to s (find sep s); slice_from s (find sep s + len sep)].
Proof.
  unfold contains, split1. intros H. apply Z.leb_le in H.
  destruct (Z.ltb_spec (find sep s) 0); [lia|reflexivity].
Qed.

Lemma split_scheme_raises (t : string) (e : exn) :
  split_scheme t = Raise e ->
  (startswith t "moniker://" = true /\ e = ValueError
   /\ Url.urlparse t = Raise ValueError)
  \/ (startswith t "moniker://" = false /\ contains "://" t = true
      /\ e = MonikerParseError (invalid_scheme_msg t)).
Proof.
  unfold split_scheme. destruct (startswith t "moniker://").
  - destruct (Url.urlparse t) eqn:E; [discriminate|].
    cbn [bind]. intros [= <-]. left. split; [reflexivity|].
    rewrite (urlparse_raises _ _ E). split; reflexivity.
  - destruct (contains "://" t).
    + intros [= <-]. right. repeat split.
    + destruct (contains "?" t) eqn:Eq; [|discriminate].
      rewrite split1_found by exact Eq. discriminate.
Qed.

(** X10. How [parse_moniker] fails. The empty text raises the
    empty-moniker error; a text with the [moniker://] prefix that
    [urlparse] refuses raises the plain [ValueError] of the library, not a
    [MonikerParseError]; another scheme raises the invalid-scheme error
    with the stripped text; a revision step that raises (a run of more
    than 4300 digits) gives a plain [ValueError] too; every other failure
    needs validation and names the namespace, the version or the segment
    that failed. *)
Theorem parse_moniker_failures (s : string) (validate : bool) (e : exn) :
  parse_moniker s validate = Raise e ->
  (s = "" /\ e = MonikerParseError empty_moniker_msg)
  \/ (startswith (strip s) "moniker://" = true /\ e = ValueError
      /\ Url.urlparse (strip s) = Raise ValueError)
  \/ (startswith (strip s) "moniker://" = false
      /\ contains "://" (strip s) = true
      /\ e = MonikerParseError (invalid_scheme_msg (strip s)))
  \/ (e = ValueError
      /\ exists (body q rem0 : string) (ns : option string),
           split_scheme (strip s) = Ok (body, q)
           /\ split_namespace body validate = Ok (ns, rem0)
           /\ split_revision rem0 = Raise ValueError)
  \/ (validate = true
      /\ exists x : string,
           e = MonikerParseError (invalid_namespace_msg x)
           \/ e = MonikerParseError (invalid_version_msg x)
           \/ e = MonikerParseError (invalid_segment_msg x)).
Proof.
  intros H. destruct (string_dec s "") as [->|Hne].
  { left. split; [reflexivity|]. injection H as <-. reflexivity. }
  right. rewrite parse_moniker_nonempty in H by exact Hne.
  destruct (split_scheme (strip s)) as [[body q]|e'] eqn:Es.
  - right. right. cbn [bind] in H. unfold parse_body in H.
    destruct (split_namespace body validate) as [[ns rem0]|e'] eqn:En.
    + cbn [bind] in H. unfold parse_tail in H.
      destruct (split_revision rem0) as [[rev rem1]|e'] eqn:Er.
      * right. cbn [bind] in H. unfold split_version in H.
        assert (Hpath : forall ver rem2,
                   (let* p := parse_path rem2 validate in
                    Ok {| path := p; namespace := ns; version := ver;
                          revision := rev; params := parse_params q |})
                   = Raise e ->
                   validate = true
                   /\ exists x : string,
                        e = MonikerParseError (invalid_namespace_msg x)
                        \/ e = MonikerParseError (invalid_version_msg x)
                        \/ e = MonikerParseError (invalid_segment_msg x)).
        { intros ver rem2 Hp.
          destruct (parse_path rem2 validate) as [p|e'] eqn:Ep; [discriminate|].
          cbn [bind] in Hp. injection Hp as ->.
          rewrite parse_path_clean in Ep. cbv zeta in Ep.
          destruct (negb (truthy (strip_char "/" rem2))); [discriminate|].
          destruct validate; [|discriminate]. split; [reflexivity|].
          rewrite check_segments_find in Ep.
          destruct (List.find _ _) as [seg|]; [|discriminate].
          injection Ep as <-. exists seg. right. right. reflexivity. }
        destruct (contains "@" rem1); [|exact (Hpath _ _ H)].
        destruct (_ <? _); [|exact (Hpath _ _ H)].
        destruct validate; [|exact (Hpath _ _ H)]. cbn [andb] in H.
        destruct (truthy _ && negb _); [|exact (Hpath _ _ H)].
        cbn [bind] in H. injection H as <-. split; [reflexivity|].
        eexists. right. left. reflexivity.
      * left. cbn [bind] in H. injection H as <-.
        pose proof (split_revision_raises _ _ Er) as ->.
        split; [reflexivity|]. exists body, q, rem0, ns.
        split; [reflexivity|]. split; [exact En|exact Er].
    + right. cbn [bind] in H. injection H as <-.
      unfold split_namespace in En. destruct (negb _ && _); [|discriminate].
      destruct validate; [|discriminate]. cbn [andb] in En.
      destruct (negb (validate_namespace _)); [|discriminate].
      injection En as <-. split; [reflexivity|]. eexists. left. reflexivity.
  - cbn [bind] in H. injection H as ->.
    destruct (split_scheme_raises _ _ Es) as [H|H]; [left|right; left]; exact H.
Qed.

End ParserOutcomes.

Lemma validated_result_invariant_witness :
  parse_moniker (U := Url.ascii_urllib) ("moniker://" ++ example_text) true
  = Ok example_moniker
  /\ Forall (fun seg => validate_segment seg = true)
       (segments (path example_moniker))
  /\ NoDup (map fst (params example_moniker)).
Proof.
  split; [reflexivity|].
  pose proof (@validated_result_invariant Url.ascii_urllib
                ("moniker://" ++ example_text) example_moniker eq_refl)
    as (H1 & _ & _ & _ & H2).
  exact (conj H1 H2).
Defined.

Lemma parse_moniker_failures_witness :
  parse_moniker (U := Url.ascii_urllib) "moniker://[" true = Raise ValueError
  /\ startswith (strip "moniker://[") "moniker://" = true.
Proof.
  split; [reflexivity|].
  destruct (@parse_moniker_failures Url.ascii_urllib "moniker://[" true
              ValueError eq_refl)
    as [[H _]|[[H _]|[(_ & _ & H)|[(_ & b & q & r & n & H & _)|(_ & x & H)]]]].
  - discriminate H.
  - exact H.
  - discriminate H.
  - discriminate H.
  - destruct H as [H|[H|H]]; discriminate H.
Defined.


(** ** The scheme prefix *)

Section SchemePrefix.
Context {U : Url.UrlLib}.

Lemma contains_first_absent (c : ascii) (r s : string) :
  has_char c s = false -> contains (String c r) s = false.
Proof.
  unfold contains. induction s as [|a s IH]; [reflexivity|].
  rewrite has_char_cons. intros H. apply orb_false_iff in H as [Hc Hs].
  rewrite find_cons, startswith_cons, (Ascii.eqb_sym c a), Hc.
  cbn [andb]. specialize (IH Hs). apply Z.leb_gt in IH.
  destruct (Z.ltb_spec (find (String c r) s) 0); [reflexivity|lia].
Qed.

Lemma startswith_first_absent (c : ascii) (r s : string) :
  has_char c s = false -> startswith s (String c r) = false.
Proof.
  destruct s as [|a s]; [reflexivity|].
  rewrite has_char_cons, startswith_cons. intros H.
  apply orb_false_iff in H as [Hc _]. rewrite (Ascii.eqb_sym c a), Hc.
  reflexivity.
Qed.

(** The scheme step on a text of the grammar that has no scheme. *)
Lemma split_scheme_bare (base qs : string) (has_query : bool) :
  all_chars body_char base = true -> all_chars query_char qs = true ->
  split_scheme (base ++ (if has_query then "?" ++ qs else ""))
  = Ok (base, if has_query then qs else "").
Proof.
  intros Hb Hq. unfold split_scheme.
  assert (Hbc : forall c, body_char c = false -> query_char c = false ->
                          Ascii.eqb "?" c = false ->
                          has_char c (base ++ (if has_query then "?" ++ qs else ""))
                          = false).
  { intros c H1 H2 H3. rewrite has_char_app.
    rewrite (all_chars_has_char body_char c base Hb H1).
    destruct has_query; [|reflexivity].
    simpl append. rewrite has_char_cons, H3.
    exact (all_chars_has_char query_char c qs Hq H2). }
  assert (Hcolon : has_char ":" (base ++ (if has_query then "?" ++ qs else ""))
                   = false) by (apply Hbc; reflexivity).
  assert (Hstart : startswith (base ++ (if has_query then "?" ++ qs else ""))
                     "moniker://" = false).
  { destruct (startswith _ "moniker://") eqn:E; [|reflexivity].
    apply startswith_spec in E as [t E]. rewrite E in Hcolon.
    discriminate Hcolon. }
  rewrite Hstart, (contains_first_absent ":" _ _ Hcolon).
  assert (Hqb : has_char "?" base = false)
    by (apply (all_chars_has_char body_char); [exact Hb|reflexivity]).
  destruct has_query.
  - rewrite contains_char, has_char_app. simpl append.
    rewrite has_char_cons, Ascii.eqb_refl, orb_true_r.
    unfold split1. rewrite (find_char_app "?" base qs Hqb).
    destruct (Z.ltb_spec (len base) 0) as [Hneg|_];
      [unfold len in Hneg; lia|].
    rewrite slice_to_app.
    change (String "?" qs) with ("?" ++ qs).
    rewrite (slice_from_app_sep base "?" qs). reflexivity.
  - rewrite append_nil_r, contains_char, Hqb. reflexivity.
Qed.

(** X11. The [moniker://] prefix is optional: a non-empty text made of the
    characters of the grammar, with or without a query, parses to the same
    result (the same moniker or the same error) with the prefix as without
    it. *)
Theorem scheme_prefix_optional (base qs : string) (has_query validate : bool) :
  all_chars body_char base = true -> all_chars query_char qs = true ->
  base ++ (if has_query then "?" ++ qs else "") <> "" ->
  parse_moniker ("moniker://" ++ base ++ (if has_query then "?" ++ qs else ""))
    validate
  = parse_moniker (base ++ (if has_query then "?" ++ qs else "")) validate.
Proof.
  intros Hb Hq Hne.
  rewrite (parse_moniker_nonempty ("moniker://" ++ _)) by discriminate.
  rewrite (parse_moniker_nonempty (base ++ _)) by exact Hne.
  rewrite strip_canonical, split_scheme_canonical by assumption.
  assert (Hs : strip (base ++ (if has_query then "?" ++ qs else ""))
               = base ++ (if has_query then "?" ++ qs else "")).
  { apply strip_by_id. rewrite all_chars_app. apply andb_true_iff. split.
    - apply (all_chars_impl body_char); [apply body_not_space|exact Hb].
    - destruct has_query; [|reflexivity].
      simpl. apply (all_chars_impl query_char); [apply query_not_space|exact Hq]. }
  rewrite Hs, split_scheme_bare by assumption. reflexivity.
Qed.

End SchemePrefix.

(** ** The validators, one against the other *)

Section Validators.

Ltac by_cases c :=
  destruct c as [[] [] [] [] [] [] [] []]; cbv; intros;
  first [reflexivity | discriminate].

Lemma namespace_rest_is_segment_rest (c : ascii) :
  namespace_rest c = true -> segment_rest c = true.
Proof. by_cases c. Qed.

Lemma star_dollar_impl (p q : ascii -> bool) (s : string) :
  (forall c, p c = true -> q c = true) ->
  star_dollar p s = true -> star_dollar q s = true.
Proof.
  intros Hpq. induction s as [|c s IH]; [reflexivity|].
  rewrite !star_dollar_cons. intros H. apply orb_true_iff in H as [H|H].
  - rewrite H. reflexivity.
  - apply andb_true_iff in H as [Hc Hs]. rewrite (Hpq c Hc), (IH Hs).
    apply orb_true_r.
Qed.

(** X12. The validators are nested: a text accepted as a namespace is
    accepted as a path segment, and so is a text of at most 128 characters
    that matches the version pattern; a text with a dot, which a segment
    may hold, is neither a namespace nor a version. *)
Theorem validators_nested (s : string) :
  (validate_namespace s = true -> validate_segment s = true)
  /\ (VERSION_PATTERN s = true -> len s <= 128 -> validate_segment s = true)
  /\ (has_char "." s = true ->
      validate_namespace s = false /\ VERSION_PATTERN s = false).
Proof.
  split; [|split].
  - unfold validate_namespace, validate_segment.
    destruct s as [|c s]; [discriminate|]. cbn [truthy negb].
    destruct (Z.ltb_spec 64 (len (String c s))) as [|Hl]; [discriminate|].
    destruct (Z.ltb_spec 128 (len (String c s))) as [Hl'|_]; [lia|].
    unfold NAMESPACE_PATTERN, SEGMENT_PATTERN. intros H.
    apply andb_true_iff in H as [Hc Hs].
    rewrite (alpha_is_alnum c Hc).
    exact (star_dollar_impl _ _ s namespace_rest_is_segment_rest Hs).
  - unfold validate_segment. destruct s as [|c s]; [discriminate|].
    cbn [truthy negb]. intros H Hl.
    destruct (Z.ltb_spec 128 (len (String c s))) as [Hl'|_]; [lia|].
    unfold VERSION_PATTERN, SEGMENT_PATTERN in *.
    apply andb_true_iff in H as [Hc Hs]. rewrite Hc.
    exact (star_dollar_impl _ _ s alnum_is_segment_rest Hs).
  - intros Hdot.
    assert (Hstar : forall p, p "."%char = false ->
                      forall t, has_char "." t = true -> star_dollar p t = false).
    { intros p Hp t. induction t as [|a t IH]; [discriminate|].
      rewrite has_char_cons, star_dollar_cons. intros H.
      destruct (Ascii.eqb_spec a ".") as [->|Hne].
      - rewrite Hp. cbn [andb]. rewrite orb_false_r.
        destruct t; reflexivity.
      - cbn [orb] in H. rewrite (IH H), andb_false_r, orb_false_r.
        destruct t as [|b t]; [discriminate H|reflexivity]. }
    destruct s as [|c s]; [discriminate|].
    rewrite has_char_cons in Hdot.
    unfold validate_namespace, NAMESPACE_PATTERN, VERSION_PATTERN.
    cbn [truthy negb].
    destruct (Ascii.eqb_spec c ".") as [->|Hne].
    + split; [destruct (_ <? _)|]; reflexivity.
    + cbn [orb] in Hdot.
      rewrite (Hstar namespace_rest eq_refl s Hdot).
      rewrite (Hstar is_alnum eq_refl s Hdot).
      rewrite !andb_false_r. split; [destruct (_ <? _)|]; reflexivity.
Qed.

End Validators.

Lemma scheme_prefix_optional_witness :
  parse_moniker (U := Url.ascii_urllib) ("moniker://" ++ example_text) true
  = parse_moniker (U := Url.ascii_urllib) example_text true.
Proof.
  exact (@scheme_prefix_optional Url.ascii_urllib
           "user@analytics.risk/views/my-watchlist@20260115/v3"
           "format=json&limit=10" true true eq_refl eq_refl
           ltac:(discriminate)).
Defined.


(** ** The text of a moniker and its parts *)

Section MonikerText.



Ltac by_cases c :=
  destruct c as [[] [] [] [] [] [] [] []]; cbv; intros;
  first [reflexivity | discriminate].

Lemma isdigit_alnum_digit (c : ascii) :
  isdigit_char c = true -> is_alnum c || Ascii.eqb c LF = true ->
  is_digit c = true.
Proof. by_cases c. Qed.

Lemma digit_isdigit (c : ascii) : is_digit c = true -> isdigit_char c = true.
Proof. by_cases c. Qed.

Lemma star_dollar_chars (cls : ascii -> bool) (s : string) :
  star_dollar cls s = true ->
  all_chars (fun c => cls c || Ascii.eqb c LF) s = true.
Proof.
  induction s as [|c s IH]; [reflexivity|].
  rewrite star_dollar_cons. intros H. apply orb_true_iff in H as [H|H].
  - apply at_dollar_spec in H as [H|H]; [discriminate|].
    injection H as -> ->. simpl. rewrite orb_true_r. reflexivity.
  - apply andb_true_iff in H as [Hc Hs]. simpl. rewrite Hc, (IH Hs). reflexivity.
Qed.

Lemma all_chars_both (p q r : ascii -> bool) (s : string) :
  (forall c, p c = true -> q c = true -> r c = true) ->
  all_chars p s = true -> all_chars q s = true -> all_chars r s = true.
Proof.
  intros H. induction s as [|c s IH]; [reflexivity|].
  simpl. intros Hp Hq. apply andb_true_iff in Hp as [Hp1 Hp2].
  apply andb_true_iff in Hq as [Hq1 Hq2].
  rewrite (H c Hp1 Hq1), (IH Hp2 Hq2). reflexivity.
Qed.

(** On a text that matches the version pattern, [str.isdigit] holds of
    decimal digits only. *)
Lemma isdigit_version (v : string) :
  v = "" \/ VERSION_PATTERN v = true ->
  truthy v && isdigit v = truthy v && all_chars is_digit v.
Proof.
  intros [->|H]; [reflexivity|]. unfold isdigit.
  destruct v as [|c v]; [discriminate|]. cbn [truthy andb].
  assert (Hc : all_chars (fun c => is_alnum c || Ascii.eqb c LF) (String c v)
               = true).
  { unfold VERSION_PATTERN in H. apply andb_true_iff in H as [H1 H2].
    simpl. rewrite H1. apply (star_dollar_chars _ _ H2). }
  destruct (all_chars isdigit_char (String c v)) eqn:E.
  - symmetry. exact (all_chars_both _ _ _ _ isdigit_alnum_digit E Hc).
  - destruct (all_chars is_digit (String c v)) eqn:E'; [|reflexivity].
    rewrite (all_chars_impl _ _ _ digit_isdigit E') in E. discriminate.
Qed.

End MonikerText.

Section VersionDate.
Context {U : Url.UrlLib}.

(** X14. The date of a validated moniker: [version_date] returns the
    version exactly when it is eight decimal digits; no calendar check is
    made. *)
Theorem version_date_validated (s : string) (m : Moniker) :
  parse_moniker s true = Ok m ->
  version_date m
  = match version m with
    | Some v => if (len v =? 8) && all_chars is_digit v then Some v else None
    | None => None
    end.
Proof.
  intros H. apply parse_moniker_ok_steps in H
    as (_ & body & q & ns & rem0 & rev & rem1 & ver & rem2 & p
        & _ & _ & _ & Hv & _ & ->).
  unfold version_date. cbn [version]. destruct ver as [v|]; [|reflexivity].
  rewrite (isdigit_version v (split_version_validated _ _ _ Hv)).
  destruct v as [|c v]; [reflexivity|]. cbn [truthy andb].
  rewrite andb_comm. reflexivity.
Qed.

End VersionDate.

Lemma version_date_validated_witness :
  parse_moniker (U := Url.ascii_urllib) "rates/usd@20269999" true
  = Ok {| path := {| segments := ["rates"; "usd"] |}; namespace := None;
          version := Some "20269999"; revision := None; params := [] |}
  /\ version_date {| path := {| segments := ["rates"; "usd"] |};
                     namespace := None; version := Some "20269999";
                     revision := None; params := [] |}
     = Some "20269999".
Proof.
  split; [reflexivity|].
  exact (@version_date_validated Url.ascii_urllib "rates/usd@20269999" _ eq_refl).
Defined.


(** ** Ownership along a chain of ancestors *)

Section OwnershipChain.
Import Catalog.

Lemma or_else_assoc (x y z : option string) :
  or_else (or_else x y) z = or_else x (or_else y z).
Proof.
  unfold or_else. destruct (truthy_opt x) eqn:Ex.
  - rewrite Ex. reflexivity.
  - reflexivity.
Qed.

Lemma or_else_same (x : option string) : or_else x x = x.
Proof. unfold or_else. destruct (truthy_opt x); reflexivity. Qed.

Lemma or_else_unset (x y : option string) : truthy_opt x = false -> or_else x y = y.
Proof. unfold or_else. intros ->. reflexivity. Qed.

Lemma truthy_or_else (x y : option string) :
  truthy_opt (or_else x y) = truthy_opt x || truthy_opt y.
Proof. unfold or_else. destruct (truthy_opt x) eqn:Ex; [exact Ex|reflexivity]. Qed.

(** X15. Merging along a chain of ancestors does not depend on the
    grouping: [merge_with_parent] is associative. It is idempotent, the
    ownership with no slot set is absorbed on the child's side, and so is
    any ownership that [is_empty] accepts, empty texts included. *)
Theorem merge_with_parent_chain (a b c : Ownership) :
  merge_with_parent (merge_with_parent a b) c
  = merge_with_parent a (merge_with_parent b c)
  /\ merge_with_parent a a = a
  /\ merge_with_parent no_ownership a = a
  /\ (is_empty a = true -> merge_with_parent a b = b).
Proof.
  split; [|split; [|split]].
  - unfold merge_with_parent. cbn [accountable_owner data_specialist
      support_channel adop ads adal]. rewrite !or_else_assoc. reflexivity.
  - unfold merge_with_parent. rewrite !or_else_same. destruct a; reflexivity.
  - destruct a; reflexivity.
  - unfold is_empty. intros H. apply negb_true_iff in H.
    repeat (apply orb_false_iff in H; destruct H as [H ?]).
    unfold merge_with_parent. rewrite !or_else_unset by assumption.
    destruct b; reflexivity.
Qed.

(** X16. The predicates of a merged ownership, from those of the child
    and of the parent: it is empty when both are, it has governance roles
    when either has, and it is complete when, for each of the three
    simplified slots, the child or the parent has it set; so it is complete
    as soon as either is. *)
Theorem merge_with_parent_predicates (o p : Ownership) :
  is_empty (merge_with_parent o p) = is_empty o && is_empty p
  /\ has_governance_roles (merge_with_parent o p)
     = has_governance_roles o || has_governance_roles p
  /\ is_complete (merge_with_parent o p)
     = (is_set (accountable_owner o) || is_set (accountable_owner p))
       && (is_set (data_specialist o) || is_set (data_specialist p))
       && (is_set (support_channel o) || is_set (support_channel p))
  /\ (is_complete o || is_complete p = true ->
      is_complete (merge_with_parent o p) = true).
Proof.
  assert (Hc : is_complete (merge_with_parent o p)
     = (is_set (accountable_owner o) || is_set (accountable_owner p))
       && (is_set (data_specialist o) || is_set (data_specialist p))
       && (is_set (support_channel o) || is_set (support_channel p))).
  { unfold is_complete, merge_with_parent, is_set.
    cbn [accountable_owner data_specialist support_channel].
    rewrite !truthy_or_else. reflexivity. }
  split; [|split; [|split; [exact Hc|]]].
  - unfold is_empty, merge_with_parent.
    cbn [accountable_owner data_specialist support_channel adop ads adal].
    rewrite !truthy_or_else.
    destruct (truthy_opt (accountable_owner o)), (truthy_opt (data_specialist o)),
      (truthy_opt (support_channel o)), (truthy_opt (adop o)),
      (truthy_opt (ads o)), (truthy_opt (adal o)); cbn [orb negb andb];
      repeat (rewrite ?orb_true_r; cbn [orb negb andb]); reflexivity.
  - unfold has_governance_roles, merge_with_parent. cbn [adop ads adal].
    rewrite !truthy_or_else.
    destruct (truthy_opt (adop o)), (truthy_opt (ads o)), (truthy_opt (adal o));
      cbn [orb]; repeat (rewrite ?orb_true_r; cbn [orb]); reflexivity.
  - rewrite Hc. unfold is_complete, is_set. intros H.
    apply orb_true_iff in H as [H|H];
      apply andb_true_iff in H as [H H3]; apply andb_true_iff in H as [H1 H2];
      rewrite H1, H2, H3, ?orb_true_r; reflexivity.
Qed.

Lemma last_split (c : ascii) (s : string) :
  exists pre,
    s = pre ++ List.last (split c s) ""
    /\ (pre = "" \/ exists pre', pre = pre' ++ String c "")
    /\ has_char c (List.last (split c s) "") = false.
Proof.
  induction s as [|a s IH].
  - exists "". repeat split. left. reflexivity.
  - destruct IH as (pre & Hs & Hpre & Hc). cbn [split].
    destruct (Ascii.eqb_spec a c) as [->|Hne].
    + exists (String c pre). destruct (split c s) as [|w ws] eqn:E.
      * pose proof (split_nonempty c s). congruence.
      * change (List.last ("" :: w :: ws) "") with (List.last (w :: ws) "").
        split; [simpl; f_equal; exact Hs|]. split; [|exact Hc].
        right. destruct Hpre as [->|[pre' ->]].
        -- exists "". reflexivity.
        -- exists (String c pre'). reflexivity.
    + destruct (split c s) as [|w [|w' ws]] eqn:E.
      * pose proof (split_nonempty c s). congruence.
      * simpl in *. destruct Hpre as [->|[pre' ->]].
        -- exists "". simpl in Hs. subst w. repeat split; [left; reflexivity|].
           rewrite has_char_cons, Hc.
           destruct (Ascii.eqb_spec a c); [congruence|reflexivity].
        -- exfalso.
           assert (H : has_char c s = true).
           { rewrite Hs, !has_char_app. simpl.
             rewrite has_char_cons, Ascii.eqb_refl. cbn [orb].
             rewrite orb_true_r. reflexivity. }
           assert (H' : has_char c s = false).
           { destruct (has_char c s) eqn:Eh; [|reflexivity].
             apply find_char_present, find_char_split in Eh
               as (x & y & -> & Hx & _).
             rewrite split_app_sep in E by exact Hx.
             pose proof (split_nonempty c y) as Hy.
             destruct (split c y); [congruence|discriminate E]. }
           congruence.
      * change (List.last (String a w :: w' :: ws) "")
          with (List.last (w' :: ws) "").
        change (List.last (w :: w' :: ws) "") with (List.last (w' :: ws) "")
          in Hs, Hc.
        exists (String a pre). split; [simpl; f_equal; exact Hs|].
        split; [|exact Hc]. right. destruct Hpre as [->|[pre' ->]].
        -- exfalso.
           assert (H' : has_char c s = false) by (rewrite Hs; exact Hc).
           rewrite (split_absent c s H') in E. discriminate E.
        -- exists (String a pre'). reflexivity.
Qed.

(** X17. The display name of a catalog node: a name that is given and not
    empty is kept; otherwise the name is what follows the last slash of the
    path (the whole path when it has no slash), so it holds no slash and is
    empty when the path ends in one. *)
Theorem display_name_default (path display_name : string) :
  (display_name <> "" -> display_name_after_init path display_name = display_name)
  /\ (display_name = "" ->
      exists pre,
        path = pre ++ display_name_after_init path display_name
        /\ (pre = "" \/ exists pre', pre = pre' ++ "/")
        /\ has_char "/" (display_name_after_init path display_name) = false)
  /\ (has_char "/" path = false -> display_name_after_init path "" = path)
  /\ display_name_after_init (path ++ "/") "" = "".
Proof.
  assert (Hlast : forall p, display_name_after_init p "" = List.last (split "/" p) "").
  { intros p. unfold display_name_after_init. cbn [truthy negb].
    destruct (split "/" p); reflexivity. }
  split; [|split; [|split]].
  - intros H. unfold display_name_after_init.
    destruct display_name; [congruence|reflexivity].
  - intros ->. rewrite Hlast. apply last_split.
  - intros H. rewrite Hlast, (split_absent "/" path H). reflexivity.
  - rewrite Hlast. destruct (last_split "/" (path ++ "/")) as (pre & Hs & Hpre & Hc).
    destruct (List.last (split "/" (path ++ "/")) "") as [|c l] eqn:E;
      [reflexivity|].
    exfalso. rewrite has_char_cons in Hc.
    apply orb_false_iff in Hc as [Hc1 Hc2].
    destruct (app_last_char "/" c path pre l Hs) as [z' ->].
    + intros ->. discriminate Hc1.
    + rewrite has_char_app, has_char_cons, Ascii.eqb_refl, orb_true_r in Hc2.
      discriminate Hc2.
Qed.

End OwnershipChain.


(** ** The Snowflake dialect and the sign of the magnitude *)

Section SqlDialects.
Import Datetime Dialect.

Lemma decimal_text_negative (value : Z) :
  value < 0 -> decimal_text value = "-" ++ decimal_text (- value).
Proof. destruct value as [|p|p]; [lia|lia|reflexivity]. Qed.

(** X18. The Snowflake lookback. For a value of at most 4300 digits, Y,
    M, W and D, in either case, give a DATEADD by YEAR, MONTH, WEEK and DAY
    of minus the value, any other unit a DATEADD by DAY, and for every unit
    the filter is the column, [>=] and that expression; for a value of more
    digits both raise [ValueError]. The minus sign is written before the
    text of the value: for a negative value both SQL dialects emit two
    minus signs in a row. *)
Theorem snowflake_lookback_mapping (value : Z) (unit column : string) :
  lookback_start SnowflakeDialect value unit
    = (if fits value
       then Ok ("DATEADD('" ++ snowflake_unit (upper unit) ++ "', -"
                ++ decimal_text value ++ ", CURRENT_DATE())")
       else Raise ValueError)
  /\ date_filter SnowflakeDialect column value unit
    = (if fits value
       then Ok (column ++ " >= DATEADD('" ++ snowflake_unit (upper unit)
                ++ "', -" ++ decimal_text value ++ ", CURRENT_DATE())")
       else Raise ValueError)
  /\ (snowflake_unit (upper "Y") = "YEAR" /\ snowflake_unit (upper "y") = "YEAR"
      /\ snowflake_unit (upper "M") = "MONTH"
      /\ snowflake_unit (upper "m") = "MONTH"
      /\ snowflake_unit (upper "W") = "WEEK" /\ snowflake_unit (upper "w") = "WEEK"
      /\ snowflake_unit (upper "D") = "DAY" /\ snowflake_unit (upper "d") = "DAY"
      /\ (known_unit unit = false -> snowflake_unit (upper unit) = "DAY"))
  /\ lookback_start SnowflakeDialect 3 "M"
     = Ok "DATEADD('MONTH', -3, CURRENT_DATE())"
  /\ (value < 0 -> fits value = true ->
      lookback_start SnowflakeDialect value unit
      = Ok ("DATEADD('" ++ snowflake_unit (upper unit) ++ "', --"
            ++ decimal_text (- value) ++ ", CURRENT_DATE())")
      /\ lookback_start OracleDialect value "D"
         = Ok ("SYSDATE - -" ++ decimal_text (- value))
      /\ lookback_start OracleDialect value "M"
         = Ok ("ADD_MONTHS(SYSDATE, --" ++ decimal_text (- value) ++ ")")).
Proof.
  assert (Hl : lookback_start SnowflakeDialect value unit
    = (if fits value
       then Ok ("DATEADD('" ++ snowflake_unit (upper unit) ++ "', -"
                ++ decimal_text value ++ ", CURRENT_DATE())")
       else Raise ValueError)).
  { cbn [lookback_start SnowflakeDialect]. unfold snowflake_lookback_start.
    rewrite str_of_int_spec. destruct (fits value); reflexivity. }
  split; [exact Hl|]. split.
  { cbn [date_filter SnowflakeDialect]. unfold base_date_filter.
    change (snowflake_lookback_start value unit)
      with (lookback_start SnowflakeDialect value unit).
    rewrite Hl. destruct (fits value); reflexivity. }
  split.
  { repeat split. intros H. unfold known_unit in H. simpl in H.
    repeat (apply orb_false_iff in H; destruct H as [? H]).
    unfold snowflake_unit.
    repeat match goal with
           | E : String.eqb ?a ?b = false |- _ => rewrite E; clear E
           end.
    reflexivity. }
  split; [reflexivity|].
  intros Hneg Hf. rewrite Hl, Hf.
  cbn [lookback_start OracleDialect]. unfold oracle_lookback_start.
  change (upper "D") with "D". change (upper "M") with "M".
  cbn [String.eqb Ascii.eqb Bool.eqb].
  rewrite !str_of_int_spec, Hf, (decimal_text_negative value Hneg).
  repeat split.
Qed.

End SqlDialects.


(** ** The host and port of the start script *)

Section HostPort.
Import Start.

Ltac by_cases c :=
  destruct c as [[] [] [] [] [] [] [] []]; cbv; intros;
  first [reflexivity | discriminate].

Lemma digit_not_int_space (c : ascii) :
  is_digit c = true -> negb (int_space c) = true.
Proof. by_cases c. Qed.

Lemma digit_not_underscore (c : ascii) :
  is_digit c = true -> negb (Ascii.eqb "_" c) = true.
Proof. by_cases c. Qed.

Lemma digit_not_colon (c : ascii) :
  is_digit c = true -> negb (Ascii.eqb c ":") = true.
Proof. by_cases c. Qed.

Lemma digit_not_sign (c : ascii) :
  is_digit c = true -> Ascii.eqb c "-" = false /\ Ascii.eqb c "+" = false.
Proof.
  destruct c as [[] [] [] [] [] [] [] []]; cbv; intros;
    first [discriminate | split; reflexivity].
Qed.

Lemma digits_with_underscores_digits (s : string) (after_digit : bool) :
  all_chars is_digit s = true -> s <> "" ->
  digits_with_underscores after_digit s = true.
Proof.
  revert after_digit. induction s as [|c s IH]; intros b H Hne; [congruence|].
  simpl in H. apply andb_true_iff in H as [Hc Hs]. simpl. rewrite Hc.
  destruct s as [|d s]; [reflexivity|]. apply IH; [exact Hs|discriminate].
Qed.

(** [int] reads a run of digits as [int_of_digits] does. *)
Lemma int_of_str_digits (s : string) :
  all_chars is_digit s = true -> s <> "" -> int_of_str s = int_of_digits s.
Proof.
  intros H Hne. unfold int_of_str.
  rewrite strip_by_id
    by (apply (all_chars_impl is_digit); [apply digit_not_int_space|exact H]).
  destruct s as [|c s]; [congruence|].
  assert (Hc : is_digit c = true) by (simpl in H; apply andb_true_iff in H; tauto).
  destruct (digit_not_sign c Hc) as [-> ->].
  rewrite digits_with_underscores_digits by assumption.
  rewrite remove_chars_id
    by (apply (all_chars_impl is_digit); [apply digit_not_underscore|exact H]).
  destruct (int_of_digits (String c s)); reflexivity.
Qed.

(** [int(str(n))] is [n], for an [n] that [str] prints. *)
Lemma int_of_str_decimal_text (n : Z) :
  fits n = true -> int_of_str (decimal_text n) = Ok n.
Proof.
  intros Hf. destruct (Z.neg_nonneg_cases n) as [Hneg|Hpos].
  - destruct n as [|p|p]; try lia.
    destruct (decimal_text_digits (Zpos p)) as [Hd Hne]; [lia|].
    change (decimal_text (Zneg p)) with (String "-" (decimal_text (Zpos p))).
    unfold int_of_str.
    assert (Hs : strip_by int_space (String "-" (decimal_text (Z.pos p)))
                 = String "-" (decimal_text (Z.pos p))).
    { apply strip_by_id. simpl.
      apply (all_chars_impl is_digit); [apply digit_not_int_space|exact Hd]. }
    rewrite Hs. cbn [Ascii.eqb Bool.eqb].
    rewrite digits_with_underscores_digits by assumption.
    rewrite remove_chars_id
      by (apply (all_chars_impl is_digit); [apply digit_not_underscore|exact Hd]).
    rewrite (int_of_digits_decimal_text (Zpos p)) by (lia || exact Hf).
    reflexivity.
  - destruct (decimal_text_digits n Hpos) as [Hd Hne].
    rewrite int_of_str_digits by assumption.
    apply int_of_digits_decimal_text; assumption.
Qed.

Lemma int_of_str_raises (s : string) (e : exn) :
  int_of_str s = Raise e -> e = ValueError.
Proof.
  unfold int_of_str. destruct (strip_by int_space s) as [|c r].
  - simpl. intros [= <-]. reflexivity.
  - destruct (Ascii.eqb c "-"); [|destruct (Ascii.eqb c "+")];
      (destruct (digits_with_underscores false _);
       [|intros [= <-]; reflexivity]);
      (destruct (int_of_digits _) eqn:E; [discriminate|]);
      cbn [bind]; intros [= <-]; apply (int_of_digits_raises _ _ E).
Qed.

Lemma decimal_text_no_colon (n : Z) : has_char ":" (decimal_text n) = false.
Proof.
  assert (Hd : forall r, 0 <= r -> has_char ":" (decimal_text r) = false).
  { intros r Hr. destruct (decimal_text_digits r Hr) as [Hd _].
    unfold has_char. apply negb_false_iff.
    apply (all_chars_impl is_digit); [apply digit_not_colon|exact Hd]. }
  destruct n as [|p|p]; [reflexivity|apply Hd; lia|].
  change (decimal_text (Zneg p)) with (String "-" (decimal_text (Zpos p))).
  rewrite has_char_cons. apply Hd. lia.
Qed.

Lemma parse_host_colon (host port_text : string) :
  has_char ":" port_text = false ->
  parse_host (host ++ ":" ++ port_text)
  = (let* port := int_of_str port_text in Ok (host, port)).
Proof.
  intros H. unfold parse_host.
  assert (Hr : rfind ":" (host ++ ":" ++ port_text) = len host)
    by (apply (rfind_char_app ":" host port_text H)).
  rewrite contains_rfind, Hr.
  assert (Hl : 0 <= len host) by (unfold len; lia).
  destruct (Z.leb_spec 0 (len host)); [|lia].
  unfold rsplit1. rewrite Hr. destruct (Z.ltb_spec (len host) 0); [lia|].
  rewrite slice_to_app, (slice_from_app_sep host ":" port_text). reflexivity.
Qed.

(** X19. [parse_host]: a text without a colon is the host, with the port
    8060. Otherwise the text splits at its last colon, so a host may hold
    colons itself, and the port is what [int] reads after it: the text that
    [str] prints for an integer gives back that integer (no range is
    checked, a negative port is accepted), a text that ends in a colon
    raises [ValueError], and no failure is anything but a [ValueError]. *)
Theorem parse_host_port (host_str : string) :
  (has_char ":" host_str = false -> parse_host host_str = Ok (host_str, 8060))
  /\ (forall (host : string) (port : Z) (port_text : string),
         str_of_int port = Ok port_text ->
         parse_host (host ++ ":" ++ port_text) = Ok (host, port))
  /\ (forall (host : string) (port : Z),
         has_char ":" host_str = true ->
         parse_host host_str = Ok (host, port) ->
         exists port_text,
           host_str = host ++ ":" ++ port_text
           /\ has_char ":" port_text = false
           /\ int_of_str port_text = Ok port)
  /\ parse_host (host_str ++ ":") = Raise ValueError
  /\ (forall e : exn, parse_host host_str = Raise e -> e = ValueError).
Proof.
  assert (Hsplit : has_char ":" host_str = true ->
                   exists a b, host_str = a ++ ":" ++ b /\ has_char ":" b = false).
  { intros H. rewrite <- contains_char, contains_rfind in H.
    apply Z.leb_le in H. apply rfind_char_split in H as (a & b & Hs & Hb & _).
    exists a, b. split; assumption. }
  split; [|split; [|split; [|split]]].
  - intros H. unfold parse_host. rewrite contains_char, H. reflexivity.
  - intros host port port_text Hp. rewrite str_of_int_spec in Hp.
    destruct (fits port) eqn:Hf; [|discriminate]. injection Hp as <-.
    rewrite parse_host_colon by apply decimal_text_no_colon.
    rewrite (int_of_str_decimal_text port Hf). reflexivity.
  - intros host port Hc H. destruct (Hsplit Hc) as (a & b & -> & Hb).
    rewrite parse_host_colon in H by exact Hb.
    destruct (int_of_str b) as [n|] eqn:E; [|discriminate].
    cbn [bind] in H. injection H as <- <-. exists b. repeat split; assumption.
  - exact (parse_host_colon host_str "" eq_refl).
  - intros e H. destruct (has_char ":" host_str) eqn:Hc.
    + destruct (Hsplit eq_refl) as (a & b & -> & Hb).
      rewrite parse_host_colon in H by exact Hb.
      destruct (int_of_str b) as [n|e'] eqn:E; [discriminate|].
      cbn [bind] in H. injection H as <-. exact (int_of_str_raises b e' E).
    + unfold parse_host in H. rewrite contains_char, Hc in H. discriminate.
Qed.

End HostPort.


(** ** The date literal of the REST dialect *)

Section DateLiteral.
Import Datetime Dialect.

Lemma iter_zero_string_of_uint (k : nat) (u : Decimal.uint) :
  Nat.iter k (String "0") (NilEmpty.string_of_uint u)
  = NilEmpty.string_of_uint (Nat.iter k Decimal.D0 u).
Proof. induction k as [|k IH]; [reflexivity|]. simpl. rewrite IH. reflexivity. Qed.

(** Padding the number that a run of digits reads as, to the length of
    the run, gives the run back. *)
Lemma zero_pad_digits (t : string) :
  all_chars is_digit t = true -> t <> "" ->
  zero_pad (String.length t) (decimal_value t) = t.
Proof.
  intros Hd Hne. destruct (decimal_text_value t Hd Hne) as (u & Ht & Hnil & Hv).
  unfold zero_pad. rewrite Hv, Ht, !length_string_of_uint.
  rewrite iter_zero_string_of_uint, (DecimalFacts.iter_D0_unorm u Hnil).
  reflexivity.
Qed.

(** [int] on a short run of digits. *)
Lemma int_of_str_short (t : string) :
  all_chars is_digit t = true -> t <> "" -> len t <= MAX_STR_DIGITS ->
  int_of_str t = Ok (decimal_value t).
Proof.
  intros Hd Hne Hl. rewrite int_of_str_digits by assumption.
  apply int_of_digits_short, Hl.
Qed.

Lemma clamp_within (i : Z) (s : string) :
  0 <= i <= len s -> clamp i s = Z.to_nat i.
Proof.
  intros H. unfold clamp. destruct (Z.ltb_spec i 0); [lia|].
  rewrite Z.min_l by lia. reflexivity.
Qed.

(** The three slices of a text of eight characters or more. *)
Lemma date_slices (c1 c2 c3 c4 c5 c6 c7 c8 : ascii) (t : string) :
  let s := String c1 (String c2 (String c3 (String c4
             (String c5 (String c6 (String c7 (String c8 t))))))) in
  slice_to s 4 = String c1 (String c2 (String c3 (String c4 "")))
  /\ slice_between s 4 6 = String c5 (String c6 "")
  /\ slice_between s 6 8 = String c7 (String c8 "").
Proof.
  cbv zeta. unfold slice_to, slice_between.
  set (s := String c1 _).
  assert (Hl : 8 <= len s) by (unfold s; rewrite !len_cons; unfold len; lia).
  rewrite !clamp_within by lia. repeat split.
Qed.

Lemma eight_characters (s : string) :
  len s = 8 ->
  exists c1 c2 c3 c4 c5 c6 c7 c8,
    s = String c1 (String c2 (String c3 (String c4
          (String c5 (String c6 (String c7 (String c8 ""))))))).
Proof.
  unfold len. intros H.
  do 8 (destruct s as [|? s]; [simpl in H; lia|]).
  destruct s; [|simpl in H; lia].
  repeat eexists.
Qed.

(** X20. The date literal of the REST dialect. A text of eight decimal
    digits YYYYMMDD that names a date of the calendar (year 1 to 9999, month
    1 to 12, a day of that month, leap years counted) gives the same digits
    with dashes, YYYY-MM-DD; one that names no date raises [ValueError].
    What follows the eighth character is ignored, a text of six characters
    or fewer raises, and no failure is anything but a [ValueError]. *)
Theorem rest_date_literal_text (s : string) :
  (all_chars is_digit s = true -> len s = 8 ->
   rest_date_literal s
   = (let* _ := check_date_fields (decimal_value (slice_to s 4))
                  (decimal_value (slice_between s 4 6))
                  (decimal_value (slice_between s 6 8)) in
      Ok (slice_to s 4 ++ "-" ++ slice_between s 4 6 ++ "-"
          ++ slice_between s 6 8)))
  /\ (forall t : string,
         len s = 8 -> rest_date_literal (s ++ t) = rest_date_literal s)
  /\ (len s <= 6 -> rest_date_literal s = Raise ValueError)
  /\ (forall e : exn, rest_date_literal s = Raise e -> e = ValueError).
Proof.
  split; [|split; [|split]].
  - intros Hd Hl. destruct (eight_characters s Hl)
      as (c1 & c2 & c3 & c4 & c5 & c6 & c7 & c8 & ->).
    unfold rest_date_literal.
    destruct (date_slices c1 c2 c3 c4 c5 c6 c7 c8 "") as (-> & -> & ->).
    cbn [all_chars] in Hd.
    apply andb_true_iff in Hd as [H1 Hd]. apply andb_true_iff in Hd as [H2 Hd].
    apply andb_true_iff in Hd as [H3 Hd]. apply andb_true_iff in Hd as [H4 Hd].
    apply andb_true_iff in Hd as [H5 Hd]. apply andb_true_iff in Hd as [H6 Hd].
    apply andb_true_iff in Hd as [H7 Hd]. apply andb_true_iff in Hd as [H8 _].
    assert (Hy : all_chars is_digit
                   (String c1 (String c2 (String c3 (String c4 "")))) = true)
      by (cbn [all_chars]; rewrite H1, H2, H3, H4; reflexivity).
    assert (Hm : all_chars is_digit (String c5 (String c6 "")) = true)
      by (cbn [all_chars]; rewrite H5, H6; reflexivity).
    assert (Hday : all_chars is_digit (String c7 (String c8 "")) = true)
      by (cbn [all_chars]; rewrite H7, H8; reflexivity).
    rewrite !int_of_str_short by (assumption || discriminate || (vm_compute; discriminate)).
    cbn [bind].
    destruct (check_date_fields _ _ _) as [[[y m] d]|e] eqn:E; [|reflexivity].
    cbn [bind]. unfold check_date_fields in E.
    destruct (negb _); [discriminate|]. destruct (negb _); [discriminate|].
    destruct (negb _); [discriminate|]. injection E as <- <- <-.
    unfold isoformat_fields.
    pose proof (zero_pad_digits _ Hy ltac:(discriminate)) as Zy.
    pose proof (zero_pad_digits _ Hm ltac:(discriminate)) as Zm.
    pose proof (zero_pad_digits _ Hday ltac:(discriminate)) as Zd.
    cbn [String.length] in Zy, Zm, Zd. rewrite Zy, Zm, Zd. reflexivity.
  - intros t Hl. destruct (eight_characters s Hl)
      as (c1 & c2 & c3 & c4 & c5 & c6 & c7 & c8 & ->).
    unfold rest_date_literal. cbn [append].
    destruct (date_slices c1 c2 c3 c4 c5 c6 c7 c8 "") as (-> & -> & ->).
    destruct (date_slices c1 c2 c3 c4 c5 c6 c7 c8 t) as (-> & -> & ->).
    reflexivity.
  - intros Hl. unfold rest_date_literal.
    assert (Hday : slice_between s 6 8 = "").
    { unfold slice_between, clamp. cbn [Z.ltb Z.compare].
      rewrite !Z.min_r by lia. rewrite Nat.sub_diag. reflexivity. }
    rewrite Hday.
    destruct (int_of_str (slice_to s 4)) as [y|e] eqn:Ey;
      [|rewrite (int_of_str_raises _ _ Ey); reflexivity].
    cbn [bind].
    destruct (int_of_str (slice_between s 4 6)) as [m|e] eqn:Em;
      [|rewrite (int_of_str_raises _ _ Em); reflexivity].
    reflexivity.
  - intros e H. unfold rest_date_literal in H.
    destruct (int_of_str (slice_to s 4)) as [y|e1] eqn:Ey;
      [|injection H as <-; exact (int_of_str_raises _ _ Ey)].
    cbn [bind] in H.
    destruct (int_of_str (slice_between s 4 6)) as [m|e2] eqn:Em;
      [|injection H as <-; exact (int_of_str_raises _ _ Em)].
    cbn [bind] in H.
    destruct (int_of_str (slice_between s 6 8)) as [d|e3] eqn:Ed;
      [|injection H as <-; exact (int_of_str_raises _ _ Ed)].
    cbn [bind] in H. unfold check_date_fields in H.
    destruct (negb _); [injection H as <-; reflexivity|].
    destruct (negb _); [injection H as <-; reflexivity|].
    destruct (negb _); [injection H as <-; reflexivity|discriminate].
Qed.

End DateLiteral.


(** ** White space around a moniker *)

Section SurroundingSpace.
Context {U : Url.UrlLib}.

(** X21. White space around a moniker is ignored: an input that is not
    white space only parses, with or without validation, to the result of
    its stripped text, the same moniker or the same error. *)
Theorem surrounding_space_ignored (s : string) (validate : bool) :
  strip s <> "" ->
  parse_moniker s validate = parse_moniker (strip s) validate.
Proof.
  intros H. assert (Hs : s <> "") by (intros ->; apply H; reflexivity).
  rewrite (parse_moniker_nonempty s) by exact Hs.
  rewrite (parse_moniker_nonempty (strip s)) by exact H.
  replace (strip (strip s)) with (strip s)
    by (unfold strip; rewrite strip_by_idempotent; reflexivity).
  reflexivity.
Qed.

End SurroundingSpace.

Lemma surrounding_space_ignored_witness :
  strip "  rates/usd@latest  " = "rates/usd@latest"
  /\ parse_moniker (U := Url.ascii_urllib) "  rates/usd@latest  " true
     = parse_moniker (U := Url.ascii_urllib) "rates/usd@latest" true.
Proof.
  split; [reflexivity|].
  exact (@surrounding_space_ignored Url.ascii_urllib "  rates/usd@latest  " true
           ltac:(discriminate)).
Defined.

Lemma rest_date_literal_text_witness :
  all_chars is_digit "20240229" = true /\ len "20240229" = 8
  /\ Dialect.rest_date_literal "20240229" = Ok "2024-02-29".
Proof.
  split; [reflexivity|]. split; [reflexivity|].
  exact (proj1 (rest_date_literal_text "20240229") eq_refl eq_refl).
Defined.


(** ** An empty body *)

Section EmptyBody.
Context {U : Url.UrlLib} {L : Url.UrlLibLaws U}.

(** C10. Only the empty string raises the empty-input error.  Any other
    input whose body is empty once the scheme and the query are split off is
    accepted, whatever [validate] is, as the root path (no segment) with the
    parameters of its query attached: the first field of every name, in the
    order of the query.  So a white-space-only string and "moniker://" give
    the root path without parameters, and a bare query of fields with
    distinct names and unreserved characters, with or without the scheme,
    gives the root path with exactly those fields: "?a=1" has the parameter
    a with the value 1. *)
Theorem empty_body_accepted (validate : bool) :
  (forall s : string,
      parse_moniker s validate = Raise (MonikerParseError empty_moniker_msg)
      <-> s = "")
  /\ (forall s q : string,
        s <> "" -> split_scheme (strip s) = Ok ("", q) ->
        parse_moniker s validate
        = Ok (root_moniker (first_occurrences [] (Url.parse_qsl q))))
  /\ (forall s : string,
        s <> "" -> all_chars is_space s = true ->
        parse_moniker s validate = Ok (root_moniker []))
  /\ (forall ps : QueryParams,
        ps <> [] ->
        Forall (fun kv => safe_text (fst kv) = true /\ safe_text (snd kv) = true)
          ps ->
        NoDup (map fst ps) ->
        parse_moniker ("?" ++ join "&" (map field_text ps)) validate
        = Ok (root_moniker ps)
        /\ parse_moniker ("moniker://?" ++ join "&" (map field_text ps)) validate
           = Ok (root_moniker ps))
  /\ parse_moniker "?a=1" validate = Ok (root_moniker [("a", "1")])
  /\ parse_moniker "moniker://" validate = Ok (root_moniker []).
Proof.
  assert (Hps : forall ps : QueryParams,
        ps <> [] ->
        Forall (fun kv => safe_text (fst kv) = true /\ safe_text (snd kv) = true)
          ps ->
        NoDup (map fst ps) ->
        parse_moniker ("?" ++ join "&" (map field_text ps)) validate
        = Ok (root_moniker ps)
        /\ parse_moniker ("moniker://?" ++ join "&" (map field_text ps)) validate
           = Ok (root_moniker ps)).
  { intros ps Hne Hs Hd.
    assert (Hq : all_chars query_char (join "&" (map field_text ps)) = true)
      by (apply query_text_chars, Hs).
    pose proof (parse_params_query_text ps Hne Hs Hd) as Hp.
    split.
    - rewrite (parse_moniker_empty_body _ (join "&" (map field_text ps)));
        [rewrite Hp; reflexivity|discriminate|].
      pose proof (split_scheme_bare "" (join "&" (map field_text ps)) true
                    eq_refl Hq) as Hb.
      assert (Hstrip : strip ("?" ++ join "&" (map field_text ps))
                       = "?" ++ join "&" (map field_text ps)).
      { apply strip_by_id. simpl.
        apply (all_chars_impl query_char); [apply query_not_space|exact Hq]. }
      rewrite Hstrip. exact Hb.
    - rewrite (parse_moniker_empty_body _ (join "&" (map field_text ps)));
        [rewrite Hp; reflexivity|discriminate|].
      change ("moniker://?" ++ join "&" (map field_text ps))
        with ("moniker://" ++ "" ++ "?" ++ join "&" (map field_text ps)).
      rewrite (strip_canonical "" (join "&" (map field_text ps)) true eq_refl Hq).
      exact (split_scheme_canonical "" (join "&" (map field_text ps)) true
               eq_refl Hq). }
  split; [intros s; apply empty_error_iff|].
  split.
  { intros s q Hs Hb. rewrite <- parse_params_first.
    apply parse_moniker_empty_body; assumption. }
  split.
  { intros s Hs Hw. apply (parse_moniker_empty_body s ""); [exact Hs|].
    rewrite (strip_all_space s Hw). reflexivity. }
  split; [exact Hps|]. split.
  - apply (Hps [("a", "1")]); [discriminate|repeat constructor|].
    repeat constructor; simpl; tauto.
  - apply (parse_moniker_empty_body "moniker://" ""); [discriminate|reflexivity].
Qed.

End EmptyBody.

Lemma empty_body_accepted_witness :
  parse_moniker (U := Url.ascii_urllib) "?a=1&b=2" true
  = Ok (root_moniker [("a", "1"); ("b", "2")])
  /\ parse_moniker (U := Url.ascii_urllib) "moniker://?a=1&b=2" true
     = Ok (root_moniker [("a", "1"); ("b", "2")])
  /\ parse_moniker (U := Url.ascii_urllib) "  " true = Ok (root_moniker []).
Proof.
  pose proof (@empty_body_accepted Url.ascii_urllib ascii_urllib_laws true)
    as (_ & _ & Hw & Hps & _).
  destruct (Hps [("a", "1"); ("b", "2")]) as [H1 H2];
    [discriminate|repeat constructor| |].
  - repeat constructor; simpl; intuition discriminate.
  - exact (conj H1 (conj H2 (Hw "  " ltac:(discriminate) eq_refl))).
Defined.


(** ** The limit on digits, on concrete inputs *)

(** C7 as stated fails for a value of more than 4300 digits: ten to the
    power 4300, read from its text (a one and 4300 zeros), cannot be
    printed, so the lookback raises; ten to the power 4299 is printed. *)
Lemma oracle_lookback_raises :
  len (String "1" (zeros 4300)) = 4301
  /\ Dialect.lookback_start Dialect.OracleDialect
       (decimal_value (String "1" (zeros 4300))) "D"
     = Raise ValueError
  /\ is_ok (Dialect.lookback_start Dialect.OracleDialect
              (decimal_value (String "1" (zeros 4300))) "D") = false
  /\ Dialect.lookback_start Dialect.OracleDialect
       (decimal_value (String "1" (zeros 4299))) "D"
     = Ok ("SYSDATE - " ++ String "1" (zeros 4299)).
Proof.
  assert (H1 : Dialect.lookback_start Dialect.OracleDialect
                 (decimal_value (String "1" (zeros 4300))) "D"
               = Raise ValueError).
  { cbn [Dialect.lookback_start Dialect.OracleDialect].
    unfold Dialect.oracle_lookback_start.
    change (upper "D") with "D". cbn [String.eqb Ascii.eqb Bool.eqb].
    rewrite str_of_int_spec, fits_decimal_value by (vm_compute; reflexivity).
    reflexivity. }
  split; [vm_compute; reflexivity|]. split; [exact H1|].
  split; [rewrite H1; reflexivity|].
  cbn [Dialect.lookback_start Dialect.OracleDialect].
  unfold Dialect.oracle_lookback_start.
  change (upper "D") with "D". cbn [String.eqb Ascii.eqb Bool.eqb].
  rewrite str_of_int_spec, fits_decimal_value by (vm_compute; reflexivity).
  rewrite decimal_value_canonical by (vm_compute; reflexivity).
  reflexivity.
Qed.

(** A revision run of 4301 digits: the revision step raises, and so does
    the parse, with or without validation; it is not a
    [MonikerParseError]. *)
Example revision_run_too_long :
  split_revision ("a/v" ++ zeros 4301) = Raise ValueError
  /\ parse_moniker (U := Url.ascii_urllib) ("a/v" ++ zeros 4301) false
     = Raise ValueError
  /\ parse_moniker (U := Url.ascii_urllib) ("a/v" ++ zeros 4301) true
     = Raise ValueError
  /\ is_parse_error
       (parse_moniker (U := Url.ascii_urllib) ("a/v" ++ zeros 4301) true)
     = false.
Proof. vm_compute. repeat split. Qed.
